(** * Image-Difference-Detector: the difference extraction and annotation engine

    A shallow embedding of [services/comapre.js] ([compareImages],
    [extractJsonObject], [createHighlightedImage]), of [ensureOutputDir] from
    [utils/compare.js], of the handler of [POST /compare] in [routes/api.js]
    and of the database initialization of [db.js] and [app.js], with the
    properties the specification states about them and further properties of
    the code.

    Conventions of the embedding:
    - a JavaScript number is an IEEE 754 binary64 value, [spec_float] with
      precision 53 and maximal exponent 1024; arithmetic is the standard
      library's executable specification ([SFmul], [SFdiv], ...), so division
      by zero yields an infinity and undefined results are NaN;
    - a JavaScript string is a [string] whose characters are the code units
      below 256;
    - platform calls ([JSON.parse], [fs], [loadImage], the inference call,
      [path], the clock) and the choices of the runtime (which of two
      rejected promises settles first, the text of a [TypeError]) are the
      fields of the class [Platform];
    - effects are threaded through a state-and-exception monad [M] over a
      [World] holding the written files, the created directories, the
      console, the clock and the trace of platform calls. *)

From Stdlib Require Import ZArith String Ascii Bool Lia.
From stdpp Require Import gmap strings list pretty.
From Stdlib Require Import Floats.SpecFloat.

Local Open Scope Z_scope.

(** ** JavaScript numbers *)

Definition num : Type := spec_float.

Definition prec : Z := 53.
Definition emax : Z := 1024.

(** The number denoted by an integer literal of the source. *)
Definition num_of_Z (z : Z) : num := binary_normalize prec emax z 0 false.

Definition num_add : num -> num -> num := SFadd prec emax.
Definition num_sub : num -> num -> num := SFsub prec emax.
Definition num_mul : num -> num -> num := SFmul prec emax.
Definition num_div : num -> num -> num := SFdiv prec emax.

(** [a === b], [a < b] and [a <= b] on numbers. *)
Definition num_eqb : num -> num -> bool := SFeqb.
Definition num_ltb : num -> num -> bool := SFltb.
Definition num_leb : num -> num -> bool := SFleb.

Definition num_zero : num := S754_zero false.
Definition num_one : num := S754_finite false 4503599627370496 (-52).
Definition Infinity : num := S754_infinity false.

Definition is_nan (x : num) : bool :=
  match x with S754_nan => true | _ => false end.

Definition is_finite_nonzero (x : num) : bool :=
  match x with S754_finite _ _ _ => true | _ => false end.



(** The representation is the canonical one of binary64. *)
Definition valid_num (x : num) : bool := valid_binary prec emax x.

(** [Math.max(a, b)]: NaN if either argument is NaN, and [+0] is larger than
    [-0]; the first argument is kept when the two compare equal. *)
Definition Math_max (a b : num) : num :=
  match a, b with
  | S754_nan, _ | _, S754_nan => S754_nan
  | S754_zero true, S754_zero false => b
  | _, _ => if num_ltb a b then b else a
  end.

(** [Math.min(a, b)]: NaN if either argument is NaN, and [-0] is smaller than
    [+0]. *)
Definition Math_min (a b : num) : num :=
  match a, b with
  | S754_nan, _ | _, S754_nan => S754_nan
  | S754_zero false, S754_zero true => b
  | _, _ => if num_ltb b a then b else a
  end.

(** ** JavaScript strings *)

Definition LF : string := String (ascii_of_nat 10) EmptyString.
Definition QUOTE : string := String (ascii_of_nat 34) EmptyString.

(** Template literal interpolation of a non-negative integer. *)
Definition nat_to_string (n : nat) : string := pretty n.

(** [Canonicalize] of a case-insensitive pattern without the unicode flag:
    the upper-case form of the character.  Only the letters [a]-[z] change;
    the letters above 127 never canonicalize to a character below 128, so
    they compare with the characters of an ASCII pattern as they are. *)
Definition canonicalize (c : ascii) : ascii :=
  let n := nat_of_ascii c in
  if (Nat.leb 97 n && Nat.leb n 122)%bool then ascii_of_nat (n - 32) else c.

Definition char_eq_ci (a c : ascii) : bool :=
  Ascii.eqb (canonicalize a) (canonicalize c).

(** The class [\s] on code units below 256: tab, line feed, vertical tab,
    form feed, carriage return, space and no-break space. *)
Definition is_space (c : ascii) : bool :=
  let n := nat_of_ascii c in
  ((Nat.leb 9 n && Nat.leb n 13) || Nat.eqb n 32 || Nat.eqb n 160)%bool.

(** The letters, the digits and the underscore. *)
Definition is_word_char (c : ascii) : bool :=
  let n := nat_of_ascii c in
  ((Nat.leb 48 n && Nat.leb n 57) || (Nat.leb 65 n && Nat.leb n 90)
   || Nat.eqb n 95 || (Nat.leb 97 n && Nat.leb n 122))%bool.

(** The class [[\s\S]]: every character. *)
Definition any_char (c : ascii) : bool := true.

(** [s.startsWith(t)] and [s.includes(t)]. *)
Fixpoint string_prefix (t s : string) : bool :=
  match t, s with
  | EmptyString, _ => true
  | String a t', String c s' => (Ascii.eqb a c && string_prefix t' s')%bool
  | String _ _, EmptyString => false
  end.

Fixpoint includes (s t : string) : bool :=
  (string_prefix t s ||
   match s with
   | EmptyString => false
   | String _ s' => includes s' t
   end)%bool.

(** ** The pattern of [extractJsonObject]

    The source builds the pattern
    [```json\n({\s*"NAME"[\s\S]*?})\n```] with the flag [i], where NAME is
    [objectName],
    and calls [jsonString.match(regex)].  The matcher below is the
    backtracking matcher of that pattern, one combinator per pattern item,
    each in continuation-passing style: a matcher receives the remaining
    input and the continuation for the rest of the pattern, and returns the
    text that capture group 1 consumes from that point on, or [None] when
    every alternative fails.  [objectName] is spliced into the pattern
    unescaped; the model reads it as a literal, which is what the pattern
    means for a name made of letters, digits and underscores
    ([is_word_name]), as at both call sites.  The statements about an
    arbitrary name assume such a name. *)

Definition Matcher : Type := (string -> option string) -> string -> option string.

(** A literal outside the capture group, compared case-insensitively. *)
Fixpoint lit_skip (p : string) : Matcher :=
  fun k s =>
    match p with
    | EmptyString => k s
    | String a p' =>
        match s with
        | String c s' => if char_eq_ci a c then lit_skip p' k s' else None
        | EmptyString => None
        end
    end.

(** A literal inside the capture group: the matched input characters are
    part of the capture. *)
Fixpoint lit_cap (p : string) : Matcher :=
  fun k s =>
    match p with
    | EmptyString => k s
    | String a p' =>
        match s with
        | String c s' =>
            if char_eq_ci a c then String c <$> lit_cap p' k s' else None
        | EmptyString => None
        end
    end.

(** [cls*] inside the group, greedy: consume a character first and fall back
    to the continuation when that fails. *)
Fixpoint star_greedy (cls : ascii -> bool) (k : string -> option string)
    (s : string) : option string :=
  match s with
  | String c s' =>
      if cls c then
        match star_greedy cls k s' with
        | Some r => Some (String c r)
        | None => k s
        end
      else k s
  | EmptyString => k s
  end.

(** [cls*?] inside the group, lazy: try the continuation first and consume a
    character only when that fails. *)
Fixpoint star_lazy (cls : ascii -> bool) (k : string -> option string)
    (s : string) : option string :=
  match k s with
  | Some r => Some r
  | None =>
      match s with
      | String c s' => if cls c then String c <$> star_lazy cls k s' else None
      | EmptyString => None
      end
  end.

Definition fence_open : string := "```json" +:+ LF.
Definition fence_close : string := LF +:+ "```".
Definition quoted (objectName : string) : string := QUOTE +:+ objectName +:+ QUOTE.

(** One match attempt at the start of [s]; the result is capture group 1. *)
Definition match_here (objectName : string) (s : string) : option string :=
  lit_skip fence_open
    (lit_cap "{"
       (star_greedy is_space
          (lit_cap (quoted objectName)
             (star_lazy any_char
                (lit_cap "}"
                   (lit_skip fence_close (fun _ => Some EmptyString)))))))
    s.

(** [jsonString.match(regex)] for a regex without the global flag: the match
    attempts run over the start positions from left to right and the first
    success wins.  The result is [match[1]]. *)
Fixpoint regex_match (objectName : string) (jsonString : string) : option string :=
  match match_here objectName jsonString with
  | Some r => Some r
  | None =>
      match jsonString with
      | String _ s' => regex_match objectName s'
      | EmptyString => None
      end
  end.

(** ** Data model

    The payloads are the typed view of the objects [JSON.parse] returns on
    the response contract: the fields the code reads, with the types the
    contract gives them.  Optional fields are options.  A parsed block is
    such a payload or the object whose member is [null], see [Parsed]. *)

(** A bounding box [{x1, y1, x2, y2}]. *)
Record Box := { x1 : num; y1 : num; x2 : num; y2 : num }.

(** One entry of the [differences] array of the response. *)
Record RawDifference := {
  type : string;
  location : string;
  description : string;
  coordinates : option Box;
  highlight_area : option Box;
  before : option string;
  after : option string
}.

(** The object [{ "differences": [...] }]. *)
Record DifferencesPayload := { differences : list RawDifference }.

(** [{ "width": W, "height": H }]. *)
Record Dimensions := { width : num; height : num }.

Record ProcessedDimensions := { image1 : Dimensions; image2 : Dimensions }.

(** The object [{ "processed_dimensions": { "image1": ..., "image2": ... } }]. *)
Record ProcessedDimensionsPayload := { processed_dimensions : ProcessedDimensions }.

(** A decoded image as [loadImage] returns it. *)
Record Image := { image_src : string; image_width : num; image_height : num }.

(** A JavaScript error object. *)
Record JsError := { name : string; message : string }.

(** [new Error(message)]. *)
Definition Error (message : string) : JsError :=
  {| name := "Error"; message := message |}.

(** The error [JSON.parse] throws. *)
Definition SyntaxError (message : string) : JsError :=
  {| name := "SyntaxError"; message := message |}.

(** The error the runtime throws when a property of [null] or [undefined]
    is read. *)
Definition TypeError (message : string) : JsError :=
  {| name := "TypeError"; message := message |}.

(** The value [JSON.parse] returns for a matched block.  The pattern
    guarantees an object whose first key is the object name; its member is
    in the shape of the contract, or it is [null] as in
    [{ "differences": null }], on which the property reads of
    [compareImages] throw. *)
Inductive Parsed (A : Type) :=
| Shaped (payload : A)
| NullMember.
Arguments Shaped {A} payload.
Arguments NullMember {A}.

(** ** The canvas

    A canvas and its 2d context are one record: the dimensions, the drawing
    state, and the drawing calls made so far, each recorded with the part of
    the state it uses. *)

#[warnings="-register-all"] Inductive DrawOp :=
| OpDrawImage (image : Image) (dx dy dw dh : num)
| OpDrawCanvas (src_width src_height : num) (src_ops : list DrawOp) (dx dy : num)
| OpFillRect (style : string) (x y w h : num)
| OpStrokeRect (style : string) (line_width : num) (x y w h : num)
| OpFillText (style font text : string) (x y : num)
| OpStrokeText (style font : string) (line_width : num) (text : string) (x y : num).

Record Canvas := {
  canvas_width : num;
  canvas_height : num;
  fillStyle : string;
  strokeStyle : string;
  font : string;
  lineWidth : num;
  ops : list DrawOp
}.

Definition blank_canvas (w h : num) : Canvas :=
  {| canvas_width := w; canvas_height := h;
     fillStyle := "#000000"; strokeStyle := "#000000";
     font := "10px sans-serif"; lineWidth := num_one; ops := [] |}.

Definition set_fillStyle (v : string) (ctx : Canvas) : Canvas :=
  {| canvas_width := canvas_width ctx; canvas_height := canvas_height ctx;
     fillStyle := v; strokeStyle := strokeStyle ctx;
     font := font ctx; lineWidth := lineWidth ctx; ops := ops ctx |}.

Definition set_strokeStyle (v : string) (ctx : Canvas) : Canvas :=
  {| canvas_width := canvas_width ctx; canvas_height := canvas_height ctx;
     fillStyle := fillStyle ctx; strokeStyle := v;
     font := font ctx; lineWidth := lineWidth ctx; ops := ops ctx |}.

Definition set_font (v : string) (ctx : Canvas) : Canvas :=
  {| canvas_width := canvas_width ctx; canvas_height := canvas_height ctx;
     fillStyle := fillStyle ctx; strokeStyle := strokeStyle ctx;
     font := v; lineWidth := lineWidth ctx; ops := ops ctx |}.

Definition set_lineWidth (v : num) (ctx : Canvas) : Canvas :=
  {| canvas_width := canvas_width ctx; canvas_height := canvas_height ctx;
     fillStyle := fillStyle ctx; strokeStyle := strokeStyle ctx;
     font := font ctx; lineWidth := v; ops := ops ctx |}.

Definition draw (op : DrawOp) (ctx : Canvas) : Canvas :=
  {| canvas_width := canvas_width ctx; canvas_height := canvas_height ctx;
     fillStyle := fillStyle ctx; strokeStyle := strokeStyle ctx;
     font := font ctx; lineWidth := lineWidth ctx; ops := ops ctx ++ [op] |}.

(** [ctx.drawImage(image, dx, dy, dw, dh)]. *)
Definition drawImage (image : Image) (dx dy dw dh : num) (ctx : Canvas) : Canvas :=
  draw (OpDrawImage image dx dy dw dh) ctx.

(** [ctx.drawImage(canvas, dx, dy)]. *)
Definition drawCanvas (src : Canvas) (dx dy : num) (ctx : Canvas) : Canvas :=
  draw (OpDrawCanvas (canvas_width src) (canvas_height src) (ops src) dx dy) ctx.

Definition fillRect (x y w h : num) (ctx : Canvas) : Canvas :=
  draw (OpFillRect (fillStyle ctx) x y w h) ctx.

Definition strokeRect (x y w h : num) (ctx : Canvas) : Canvas :=
  draw (OpStrokeRect (strokeStyle ctx) (lineWidth ctx) x y w h) ctx.

Definition fillText (text : string) (x y : num) (ctx : Canvas) : Canvas :=
  draw (OpFillText (fillStyle ctx) (font ctx) text x y) ctx.

Definition strokeText (text : string) (x y : num) (ctx : Canvas) : Canvas :=
  draw (OpStrokeText (strokeStyle ctx) (font ctx) (lineWidth ctx) text x y) ctx.

(** [canvas.toBuffer("image/png")]: the encoding is not modelled, the buffer
    is the canvas it encodes. *)
Definition Buffer : Type := Canvas.
Definition toBuffer (canvas : Canvas) : Buffer := canvas.

(** ** The world and the effect monad *)

Inductive LogArg :=
| LogStr (s : string)
| LogError (e : JsError)
| LogDims (p : Parsed ProcessedDimensionsPayload).

Inductive LogEntry :=
| console_log_entry (args : list LogArg)
| console_error_entry (args : list LogArg).

(** The platform calls that the trace records. *)
Inductive Call :=
| CallAccess (path : string)
| CallReadFile (path : string)
| CallMessagesCreate
| CallLoadImage (path : string)
| CallCreateCanvas (w h : num)
| CallMkdir (path : string)
| CallWriteFile (path : string).

Record World := {
  files : gmap string Buffer;
  dirs : gset string;
  console : list LogEntry;
  clock : nat;
  calls : list Call
}.

Inductive Outcome (A : Type) :=
| Returned (a : A)
| Thrown (e : JsError).
Arguments Returned {A} a.
Arguments Thrown {A} e.

Definition M (A : Type) : Type := World -> Outcome A * World.

#[global] Instance M_ret : MRet M := fun A a w => (Returned a, w).

#[global] Instance M_bind : MBind M := fun A B f m w =>
  match m w with
  | (Returned a, w') => f a w'
  | (Thrown e, w') => (Thrown e, w')
  end.

#[global] Instance M_fmap : FMap M := fun A B f m w =>
  match m w with
  | (Returned a, w') => (Returned (f a), w')
  | (Thrown e, w') => (Thrown e, w')
  end.

(** [throw e]. *)
Definition throw {A : Type} (e : JsError) : M A := fun w => (Thrown e, w).

(** [try { body } catch (error) { handler }]. *)
Definition try_catch {A : Type} (body : M A) (handler : JsError -> M A) : M A :=
  fun w =>
    match body w with
    | (Returned a, w') => (Returned a, w')
    | (Thrown e, w') => handler e w'
    end.

(** The world after more console entries, and after more platform calls. *)
Definition with_console (entries : list LogEntry) (w : World) : World :=
  {| files := files w; dirs := dirs w; console := console w ++ entries;
     clock := clock w; calls := calls w |}.

Definition with_calls (cs : list Call) (w : World) : World :=
  {| files := files w; dirs := dirs w; console := console w;
     clock := clock w; calls := calls w ++ cs |}.

Definition record_call (c : Call) : M unit := fun w => (Returned tt, with_calls [c] w).

Definition emit (entry : LogEntry) : M unit := fun w => (Returned tt, with_console [entry] w).

Definition console_log (args : list LogArg) : M unit := emit (console_log_entry args).
Definition console_error (args : list LogArg) : M unit := emit (console_error_entry args).

(** ** The platform *)

Class Platform := {
  (** [JSON.parse] read at the type of the payload; [inl m] is the
      [SyntaxError] with message [m]. *)
  JSON_parse_dimensions : string -> string + Parsed ProcessedDimensionsPayload;
  JSON_parse_differences : string -> string + Parsed DifferencesPayload;
  (** The message of the [TypeError] for reading the named property of
      [null]. *)
  null_read_message : string -> string;
  (** [fs.access(path)] resolves. *)
  fs_access_ok : string -> bool;
  (** When the accesses, or the reads, of both paths fail: the promise of
      the first path is rejected before the one of the second. *)
  access_rejects_first : string -> string -> bool;
  readFile_rejects_first : string -> string -> bool;
  (** [fs.readFile(path)] and [buffer.toString("base64")]. *)
  fs_readFile_result : string -> JsError + string;
  toString_base64 : string -> string;
  (** [anthropic.messages.create(...)], then [response.content[0].text]. *)
  messages_create_result : string -> string -> JsError + string;
  (** [loadImage(path)] of the canvas package. *)
  loadImage_result : string -> JsError + Image;
  (** [fs.mkdirSync] and [fs.writeFile]: the error they raise, if any. *)
  fs_mkdirSync_error : string -> option JsError;
  fs_writeFile_error : string -> option JsError;
  process_cwd : string;
  path_join : string -> string -> string;
  path_basename : string -> string;
  path_basename_ext : string -> string -> string;
  path_extname : string -> string;
  (** [toISOString()] of the date read at a clock value. *)
  toISOString : nat -> string
}.

(** ** Platform calls in the monad *)

Section Engine.
Context `{Platform}.

(** The outcome of [fs.access(path).catch(() => { throw new Error(...) })]. *)
Definition access_or_error (path : string) : JsError + unit :=
  if fs_access_ok path then inr tt
  else inl (Error ("Cannot access image: " +:+ path)).

(** [await Promise.all([p1, p2])] for two promises whose operations have
    both been started: the two results, or the rejection that comes first. *)
Definition Promise_all {A B : Type} (r1 : JsError + A) (r2 : JsError + B)
    (first_rejects_first : bool) : M (A * B) :=
  match r1, r2 with
  | inr a, inr b => mret (a, b)
  | inl e, inr _ => throw e
  | inr _, inl e => throw e
  | inl e1, inl e2 => throw (if first_rejects_first then e1 else e2)
  end.

(** Reading a property of the member of a parsed block. *)
Definition read_member {A : Type} (property : string) (value : Parsed A) : M A :=
  match value with
  | Shaped payload => mret payload
  | NullMember => throw (TypeError (null_read_message property))
  end.

Definition messages_create (base64Image1 base64Image2 : string) : M string :=
  record_call CallMessagesCreate;;
  match messages_create_result base64Image1 base64Image2 with
  | inr text => mret text
  | inl e => throw e
  end.

Definition loadImage (path : string) : M Image :=
  record_call (CallLoadImage path);;
  match loadImage_result path with
  | inr image => mret image
  | inl e => throw e
  end.

Definition createCanvas (w h : num) : M Canvas :=
  record_call (CallCreateCanvas w h);;
  mret (blank_canvas w h).

Definition fs_existsSync (path : string) : M bool :=
  fun w => (Returned (bool_decide (path ∈ dirs w)), w).

Definition fs_mkdirSync (path : string) : M unit :=
  record_call (CallMkdir path);;
  match fs_mkdirSync_error path with
  | Some e => throw e
  | None => fun w =>
      (Returned tt,
       {| files := files w; dirs := {[ path ]} ∪ dirs w; console := console w;
          clock := clock w; calls := calls w |})
  end.

Definition fs_writeFile (path : string) (data : Buffer) : M unit :=
  record_call (CallWriteFile path);;
  match fs_writeFile_error path with
  | Some e => throw e
  | None => fun w =>
      (Returned tt,
       {| files := <[ path := data ]> (files w); dirs := dirs w;
          console := console w; clock := clock w; calls := calls w |})
  end.

(** [new Date().toISOString()]: reads the clock, which then advances. *)
Definition new_Date_toISOString : M string := fun w =>
  (Returned (toISOString (clock w)),
   {| files := files w; dirs := dirs w; console := console w;
      clock := S (clock w); calls := calls w |}).

(** [s.replace(/[:.]/g, '-')]. *)
Fixpoint replace_colon_dot (s : string) : string :=
  match s with
  | EmptyString => EmptyString
  | String c s' =>
      String (if (Ascii.eqb c ":" || Ascii.eqb c ".")%bool then "-"%char else c)
             (replace_colon_dot s')
  end.

(** [array.forEach((item, index) => ...)], the callback acting on a state. *)
Fixpoint forEach_from {A S : Type} (callback : A -> nat -> S -> M S)
    (index : nat) (l : list A) (st : S) : M S :=
  match l with
  | [] => mret st
  | item :: l' =>
      st' ← callback item index st;
      forEach_from callback (Datatypes.S index) l' st'
  end.

Definition forEach {A S : Type} (callback : A -> nat -> S -> M S)
    (l : list A) (st : S) : M S :=
  forEach_from callback 0%nat l st.

(** ** [utils/compare.js] *)

Definition ensureOutputDir : M string :=
  let outputDir := path_join process_cwd "output" in
  exists_ ← fs_existsSync outputDir;
  (if negb exists_ then fs_mkdirSync outputDir else mret tt);;
  mret outputDir.

(** ** [services/comapre.js] *)

(** [extractJsonObject], the closure of [compareImages]; [parse] is
    [JSON.parse] at the type of the expected payload. *)
Definition extractJsonObject {A : Type} (parse : string -> string + A)
    (jsonString objectName : string) : M A :=
  try_catch
    (match regex_match objectName jsonString with
     | None =>
         throw (Error ("Could not find " +:+ objectName +:+ " JSON block in the response"))
     | Some EmptyString =>
         throw (Error ("Could not find " +:+ objectName +:+ " JSON block in the response"))
     | Some match1 =>
         match parse match1 with
         | inr value => mret value
         | inl m => throw (SyntaxError m)
         end
     end)
    (fun error =>
       console_error [LogStr ("Error extracting " +:+ objectName +:+ ":");
                      LogStr (message error)];;
       console_error [LogStr "Raw content:"; LogStr jsonString];;
       throw error).

Record ColorScheme := { stroke : string; fill : string }.

Definition default_scheme : ColorScheme :=
  {| stroke := "rgba(255, 0, 0, 0.8)"; fill := "rgba(255, 0, 0, 0.3)" |}.

(** The object [colorSchemes], read at its own keys. *)
Definition colorSchemes : gmap string ColorScheme :=
  list_to_map
    [ ("text_change", {| stroke := "rgba(255, 0, 0, 0.8)"; fill := "rgba(255, 0, 0, 0.3)" |});
      ("layout_change", {| stroke := "rgba(0, 0, 255, 0.8)"; fill := "rgba(0, 0, 255, 0.3)" |});
      ("element_added", {| stroke := "rgba(0, 128, 0, 0.8)"; fill := "rgba(0, 128, 0, 0.3)" |});
      ("element_removed", {| stroke := "rgba(255, 165, 0, 0.8)"; fill := "rgba(255, 165, 0, 0.3)" |});
      ("style_change", {| stroke := "rgba(128, 0, 128, 0.8)"; fill := "rgba(128, 0, 128, 0.3)" |});
      ("default", default_scheme) ].

(** The names that every object inherits from [Object.prototype]. *)
Definition Object_prototype_keys : list string :=
  [ "constructor"; "__defineGetter__"; "__defineSetter__"; "hasOwnProperty";
    "__lookupGetter__"; "__lookupSetter__"; "isPrototypeOf";
    "propertyIsEnumerable"; "toString"; "valueOf"; "__proto__"; "toLocaleString" ].

(** [colorSchemes[diff.type] || colorSchemes.default]: the scheme at an own
    key; at an inherited name a function or the prototype itself, which is
    truthy and has neither [stroke] nor [fill]; the default scheme
    otherwise. *)
Definition select_colorScheme (type : string) : option ColorScheme :=
  match colorSchemes !! type with
  | Some colorScheme => Some colorScheme
  | None =>
      if bool_decide (type ∈ Object_prototype_keys) then None
      else Some default_scheme
  end.

(** [ctx.strokeStyle = v] and [ctx.fillStyle = v]: the canvas ignores the
    assignment of [undefined]. *)
Definition assign_strokeStyle (v : option string) (ctx : Canvas) : Canvas :=
  match v with Some style => set_strokeStyle style ctx | None => ctx end.

Definition assign_fillStyle (v : option string) (ctx : Canvas) : Canvas :=
  match v with Some style => set_fillStyle style ctx | None => ctx end.

Definition legendHeight : num := num_of_Z 40.
Definition legendSpacing : num := num_of_Z 20.

(** The constants [scaledX1 .. height] of the [forEach] callback. *)
Record ScaledBox := {
  scaledX1 : num;
  scaledY1 : num;
  scaledX2 : num;
  scaledY2 : num;
  box_width : num;
  box_height : num
}.

Definition scaleBox (image : Image) (scaleX scaleY : num) (area : Box) : ScaledBox :=
  let scaledX1 := Math_max num_zero (num_mul (x1 area) scaleX) in
  let scaledY1 := Math_max num_zero (num_mul (y1 area) scaleY) in
  let scaledX2 := Math_min (image_width image) (num_mul (x2 area) scaleX) in
  let scaledY2 := Math_min (image_height image) (num_mul (y2 area) scaleY) in
  let width := num_sub scaledX2 scaledX1 in
  let height := num_sub scaledY2 scaledY1 in
  {| scaledX1 := scaledX1; scaledY1 := scaledY1;
     scaledX2 := scaledX2; scaledY2 := scaledY2;
     box_width := width; box_height := height |}.

(** The callback of [differences.differences.forEach]. *)
Definition highlight (image : Image) (scaleX scaleY : num)
    (diff : RawDifference) (index : nat) (expandedCtx : Canvas) : M Canvas :=
  match highlight_area diff with
  | Some area =>
      let b := scaleBox image scaleX scaleY area in
      let colorScheme := select_colorScheme (type diff) in
      let expandedCtx := assign_strokeStyle (stroke <$> colorScheme) expandedCtx in
      let expandedCtx := assign_fillStyle (fill <$> colorScheme) expandedCtx in
      let expandedCtx :=
        strokeRect (scaledX1 b) (scaledY1 b) (box_width b) (box_height b) expandedCtx in
      let expandedCtx :=
        fillRect (scaledX1 b) (scaledY1 b) (box_width b) (box_height b) expandedCtx in
      let expandedCtx := set_fillStyle "white" expandedCtx in
      let expandedCtx := set_strokeStyle "black" expandedCtx in
      let expandedCtx :=
        strokeText (nat_to_string (index + 1))
          (num_add (scaledX1 b) (num_of_Z 5)) (num_add (scaledY1 b) (num_of_Z 15))
          expandedCtx in
      let expandedCtx :=
        fillText (nat_to_string (index + 1))
          (num_add (scaledX1 b) (num_of_Z 5)) (num_add (scaledY1 b) (num_of_Z 15))
          expandedCtx in
      console_log [LogStr ("🔸 Difference #" +:+ nat_to_string (index + 1) +:+ " (" +:+
                           type diff +:+ "): " +:+ description diff)];;
      mret expandedCtx
  | None => mret expandedCtx
  end.

(** The first test reads [!differences || !differences.differences ||
    differences.differences.length === 0]; on a payload, which is an object
    holding an array, it is the test of the length. *)
Definition createHighlightedImage (imagePath : string)
    (differencesObj : DifferencesPayload) (processedDims : Dimensions)
    : M (option string) :=
  if bool_decide (length (differences differencesObj) = 0%nat) then
    console_log [LogStr "ℹ️ No differences detected to highlight"];;
    mret None
  else
    try_catch
      (image ← loadImage imagePath;
       canvas ← createCanvas (image_width image) (image_height image);
       let ctx :=
         drawImage image num_zero num_zero (image_width image) (image_height image)
           canvas in
       let scaleX := num_div (image_width image) (width processedDims) in
       let scaleY := num_div (image_height image) (height processedDims) in
       expandedCanvas ←
         createCanvas (image_width image) (num_add (image_height image) legendHeight);
       let expandedCtx := drawCanvas ctx num_zero num_zero expandedCanvas in
       let expandedCtx := set_fillStyle "rgba(255, 255, 255, 0.9)" expandedCtx in
       let expandedCtx :=
         fillRect num_zero (image_height image) (image_width image) legendHeight
           expandedCtx in
       let expandedCtx := set_fillStyle "black" expandedCtx in
       let expandedCtx := set_font "14px Arial" expandedCtx in
       let expandedCtx :=
         fillText
           (nat_to_string (length (differences differencesObj)) +:+
            " UI differences detected")
           legendSpacing (num_add (image_height image) (num_of_Z 25)) expandedCtx in
       let expandedCtx := set_font "bold 12px Arial" expandedCtx in
       let expandedCtx := set_lineWidth (num_of_Z 3) expandedCtx in
       expandedCtx ←
         forEach (highlight image scaleX scaleY) (differences differencesObj)
           expandedCtx;
       outputDir ← ensureOutputDir;
       timestamp ← replace_colon_dot <$> new_Date_toISOString;
       let baseFilename := path_basename_ext imagePath (path_extname imagePath) in
       let outputFilename := "diff_" +:+ baseFilename +:+ "_" +:+ timestamp +:+ ".png" in
       let outputPath := path_join outputDir outputFilename in
       let buffer := toBuffer expandedCtx in
       fs_writeFile outputPath buffer;;
       console_log [LogStr "✅ Highlighted image saved at:"; LogStr outputPath];;
       mret (Some outputPath))
      (fun error =>
         console_error [LogStr "❌ Error creating highlighted image:"; LogError error];;
         mret None).

(** The object [compareImages] returns. *)
Record ComparisonResult := {
  processedDimensions : ProcessedDimensionsPayload;
  result_differences : DifferencesPayload;
  analysis : string;
  highlightedImagePath : option string;
  timestamp : string
}.

(** Each of the two [Promise.all] starts both operations before it waits.
    [differences.differences.length] and
    [processedDimensions.processed_dimensions.image2] are the two property
    reads that throw on a member that is [null]. *)
Definition compareImages (image1Path image2Path : string) : M ComparisonResult :=
  try_catch
    (record_call (CallAccess image1Path);;
     record_call (CallAccess image2Path);;
     Promise_all (access_or_error image1Path) (access_or_error image2Path)
       (access_rejects_first image1Path image2Path);;
     record_call (CallReadFile image1Path);;
     record_call (CallReadFile image2Path);;
     buffers ←
       Promise_all (fs_readFile_result image1Path) (fs_readFile_result image2Path)
         (readFile_rejects_first image1Path image2Path);
     let image1Buffer := fst buffers in
     let image2Buffer := snd buffers in
     let base64Image1 := toString_base64 image1Buffer in
     let base64Image2 := toString_base64 image2Buffer in
     console_log [LogStr ("✅ Processing images: " +:+ path_basename image1Path +:+
                          " & " +:+ path_basename image2Path)];;
     content ← messages_create base64Image1 base64Image2;
     processedDimensions ←
       extractJsonObject JSON_parse_dimensions content "processed_dimensions";
     differencesObj ← extractJsonObject JSON_parse_differences content "differences";
     console_log [LogStr "✅ Processed Dimensions:"; LogDims processedDimensions];;
     differencesObj ← read_member "length" differencesObj;
     console_log [LogStr ("✅ Found " +:+
                          nat_to_string (length (differences differencesObj)) +:+
                          " differences")];;
     processedDimensions ← read_member "image2" processedDimensions;
     outputPath ←
       createHighlightedImage image2Path differencesObj
         (image2 (processed_dimensions processedDimensions));
     timestamp ← new_Date_toISOString;
     mret {| processedDimensions := processedDimensions;
             result_differences := differencesObj;
             analysis := content;
             highlightedImagePath := outputPath;
             timestamp := timestamp |})
    (fun error =>
       console_error [LogStr "❌ Error comparing images:"; LogError error];;
       throw error).

End Engine.

(** ** Notions used in the statements *)

(** Every character of [s] is in the class [cls]. *)
Fixpoint string_forallb (cls : ascii -> bool) (s : string) : bool :=
  match s with
  | EmptyString => true
  | String c s' => (cls c && string_forallb cls s')%bool
  end.

(** An object name for which the pattern is a literal. *)
Definition is_word_name (objectName : string) : bool :=
  string_forallb is_word_char objectName.

(** [s] is [p] up to letter case. *)
Fixpoint string_eqb_ci (p s : string) : bool :=
  match p, s with
  | EmptyString, EmptyString => true
  | String a p', String c s' => (char_eq_ci a c && string_eqb_ci p' s')%bool
  | _, _ => false
  end.

(** The text contains a fenced block keyed by [objectName]: an opening fence
    with the tag [json] in any letter case, directly followed by an object
    literal whose first key is [objectName], up to some closing brace that is
    directly followed by a closing fence. *)
Definition has_block (objectName blob : string) : Prop :=
  exists pre fence ws key body post,
    blob = pre +:+ fence +:+ "{" +:+ ws +:+ key +:+ body +:+ "}" +:+ fence_close +:+ post
    /\ string_eqb_ci fence_open fence = true
    /\ string_forallb is_space ws = true
    /\ string_eqb_ci (quoted objectName) key = true.

(** No match attempt at one of the first [n] start positions succeeds. *)
Fixpoint no_match_before (objectName blob : string) (n : nat) {struct n} : bool :=
  match n with
  | O => true
  | S n' =>
      match match_here objectName blob with
      | Some _ => false
      | None =>
          match blob with
          | String _ blob' => no_match_before objectName blob' n'
          | EmptyString => true
          end
      end
  end.

(** A character of the pattern that matches itself only, whatever the letter
    case. *)
Definition caseless (a : ascii) : Prop := forall c, char_eq_ci a c = true -> c = a.

Fixpoint string_Forall (P : ascii -> Prop) (s : string) : Prop :=
  match s with
  | EmptyString => True
  | String c s' => P c /\ string_Forall P s'
  end.

(** The closing brace followed by the closing fence. *)
Definition closing : string := "}" +:+ fence_close.

(** The error [e] carries the text [t]: its message includes it. *)
Definition error_carries (e : JsError) (t : string) : bool := includes (message e) t.

(** The rectangles passed to [strokeRect] and the texts passed to
    [strokeText], in drawing order.  Only the numeric labels are stroked. *)
Definition Rect : Type := num * num * num * num.

Definition stroke_rect_of (op : DrawOp) : option Rect :=
  match op with
  | OpStrokeRect _ _ x y w h => Some (x, y, w, h)
  | _ => None
  end.

Definition label_of (op : DrawOp) : option string :=
  match op with
  | OpStrokeText _ _ _ text _ _ => Some text
  | _ => None
  end.

Definition stroke_rects (c : Canvas) : list Rect := omap stroke_rect_of (ops c).
Definition labels (c : Canvas) : list string := omap label_of (ops c).

Definition rect_of (b : ScaledBox) : Rect :=
  (scaledX1 b, scaledY1 b, box_width b, box_height b).

Definition has_area (d : RawDifference) : bool :=
  match highlight_area d with Some _ => true | None => false end.

(** The 0-based positions of the records that carry a [highlight_area], in
    increasing order. *)
Definition positions_with_area (l : list RawDifference) : list nat :=
  List.filter (fun i => match l !! i with Some d => has_area d | None => false end)
    (seq 0 (length l)).

(** The calls that a value of the trace makes to the renderer and to the
    writer. *)
Definition is_render_or_write (c : Call) : bool :=
  match c with
  | CallLoadImage _ | CallCreateCanvas _ _ | CallMkdir _ | CallWriteFile _ => true
  | _ => false
  end.

Section Expected.
Context `{Platform}.

Definition outputDir : string := path_join process_cwd "output".

(** The path [createHighlightedImage] writes to when the clock reads [t]. *)
Definition outputPath_at (imagePath : string) (t : nat) : string :=
  path_join outputDir
    ("diff_" +:+ path_basename_ext imagePath (path_extname imagePath) +:+ "_" +:+
     replace_colon_dot (toISOString t) +:+ ".png").

(** The output directory can be used and the output file can be written. *)
Definition output_ok (imagePath : string) (w : World) : Prop :=
  (outputDir ∈ dirs w \/ fs_mkdirSync_error outputDir = None)
  /\ fs_writeFile_error (outputPath_at imagePath (clock w)) = None.

(** The drawing calls before the loop: the copy of the source, the legend
    band and the legend text. *)
Definition legend_ops (image : Image) (count : nat) : list DrawOp :=
  [ OpDrawCanvas (image_width image) (image_height image)
      [OpDrawImage image num_zero num_zero (image_width image) (image_height image)]
      num_zero num_zero;
    OpFillRect "rgba(255, 255, 255, 0.9)" num_zero (image_height image)
      (image_width image) legendHeight;
    OpFillText "black" "14px Arial"
      (nat_to_string count +:+ " UI differences detected")
      legendSpacing (num_add (image_height image) (num_of_Z 25)) ].

(** The drawing calls of one pass of the loop that starts with the styles
    [strokeStyle0] and [fillStyle0]. *)
Definition highlight_ops (image : Image) (scaleX scaleY : num)
    (strokeStyle0 fillStyle0 : string) (index : nat) (diff : RawDifference)
    : list DrawOp :=
  match highlight_area diff with
  | Some area =>
      let b := scaleBox image scaleX scaleY area in
      let colorScheme := select_colorScheme (type diff) in
      [ OpStrokeRect (default strokeStyle0 (stroke <$> colorScheme)) (num_of_Z 3)
          (scaledX1 b) (scaledY1 b) (box_width b) (box_height b);
        OpFillRect (default fillStyle0 (fill <$> colorScheme))
          (scaledX1 b) (scaledY1 b) (box_width b) (box_height b);
        OpStrokeText "black" "bold 12px Arial" (num_of_Z 3) (nat_to_string (index + 1))
          (num_add (scaledX1 b) (num_of_Z 5)) (num_add (scaledY1 b) (num_of_Z 15));
        OpFillText "white" "bold 12px Arial" (nat_to_string (index + 1))
          (num_add (scaledX1 b) (num_of_Z 5)) (num_add (scaledY1 b) (num_of_Z 15)) ]
  | None => []
  end.

(** The drawing calls of the loop over [l] from the position [index] on: a
    pass that draws leaves the stroke style black and the fill style
    white. *)
Fixpoint loop_ops (image : Image) (scaleX scaleY : num)
    (strokeStyle0 fillStyle0 : string) (index : nat) (l : list RawDifference)
    : list DrawOp :=
  match l with
  | [] => []
  | diff :: l' =>
      highlight_ops image scaleX scaleY strokeStyle0 fillStyle0 index diff
      ++ match highlight_area diff with
         | Some _ => loop_ops image scaleX scaleY "black" "white" (S index) l'
         | None => loop_ops image scaleX scaleY strokeStyle0 fillStyle0 (S index) l'
         end
  end.

End Expected.

Section Comparison.
Context `{Platform}.

(** Both images are accessible and readable, and the inference service
    answers with the text [content]. *)
Definition prelude_ok (image1Path image2Path content : string) : Prop :=
  fs_access_ok image1Path = true /\ fs_access_ok image2Path = true
  /\ exists image1Buffer image2Buffer,
       fs_readFile_result image1Path = inr image1Buffer
       /\ fs_readFile_result image2Path = inr image2Buffer
       /\ messages_create_result (toString_base64 image1Buffer)
            (toString_base64 image2Buffer) = inr content.

(** The platform calls of [compareImages] up to the answer of the service. *)
Definition prelude_calls (image1Path image2Path : string) : list Call :=
  [ CallAccess image1Path; CallAccess image2Path;
    CallReadFile image1Path; CallReadFile image2Path; CallMessagesCreate ].

(** The world when the answer of the service has arrived. *)
Definition after_prelude (image1Path image2Path : string) (w : World) : World :=
  with_calls [CallMessagesCreate]
    (with_console
       [console_log_entry
          [LogStr ("✅ Processing images: " +:+ path_basename image1Path +:+
                   " & " +:+ path_basename image2Path)]]
       (with_calls [CallReadFile image2Path]
          (with_calls [CallReadFile image1Path]
             (with_calls [CallAccess image2Path]
                (with_calls [CallAccess image1Path] w))))).

(** The world when both payloads have been extracted and logged. *)
Definition after_extraction (image1Path image2Path : string)
    (processedDimensions : ProcessedDimensionsPayload)
    (differencesObj : DifferencesPayload) (w : World) : World :=
  with_console
    [console_log_entry
       [LogStr ("✅ Found " +:+ nat_to_string (length (differences differencesObj)) +:+
                " differences")]]
    (with_console
       [console_log_entry [LogStr "✅ Processed Dimensions:";
                           LogDims (Shaped processedDimensions)]]
       (after_prelude image1Path image2Path w)).

(** The console entry of the [catch] block of [compareImages]. *)
Definition comparison_error_log (error : JsError) : list LogEntry :=
  [console_error_entry [LogStr "❌ Error comparing images:"; LogError error]].

End Comparison.

(** The pattern finds a block for [objectName] in [content] and [parse]
    reads its text as [value]. *)
Definition extracts {A : Type} (parse : string -> string + Parsed A)
    (content objectName : string) (value : A) : Prop :=
  exists match1,
    regex_match objectName content = Some match1 /\ parse match1 = inr (Shaped value).

(** The two console entries of the [catch] block of [extractJsonObject]. *)
Definition extraction_log (objectName jsonString : string) (error : JsError) : list LogEntry :=
  [ console_error_entry [LogStr ("Error extracting " +:+ objectName +:+ ":");
                         LogStr (message error)];
    console_error_entry [LogStr "Raw content:"; LogStr jsonString] ].

(** The error thrown when the pattern finds no match. *)
Definition not_found (objectName : string) : JsError :=
  Error ("Could not find " +:+ objectName +:+ " JSON block in the response").

(** ** A concrete platform and the scenarios of the specification

    Two 800x600 screenshots; the service claims 400x300 and reports one
    [text_change] with highlight area (50,50)-(150,100).  [JSON.parse] is
    given on the texts that occur in the scenarios; every other text below is
    not JSON and gets a [SyntaxError]. *)

Definition dimensions_text : string :=
  "{ " +:+ quoted "processed_dimensions" +:+ ": { " +:+
  quoted "image1" +:+ ": { " +:+ quoted "width" +:+ ": 400, " +:+ quoted "height" +:+ ": 300 }, " +:+
  quoted "image2" +:+ ": { " +:+ quoted "width" +:+ ": 400, " +:+ quoted "height" +:+ ": 300 } } }".

Definition differences_body : string :=
  ": [ { " +:+
  quoted "type" +:+ ": " +:+ quoted "text_change" +:+ ", " +:+
  quoted "location" +:+ ": " +:+ quoted "header" +:+ ", " +:+
  quoted "description" +:+ ": " +:+ quoted "Title changed" +:+ ", " +:+
  quoted "highlight_area" +:+ ": { " +:+
  quoted "x1" +:+ ": 50, " +:+ quoted "y1" +:+ ": 50, " +:+
  quoted "x2" +:+ ": 150, " +:+ quoted "y2" +:+ ": 100 } } ] ".

Definition differences_text : string :=
  "{" +:+ " " +:+ quoted "differences" +:+ differences_body +:+ "}".

Definition empty_differences_text : string :=
  "{ " +:+ quoted "differences" +:+ ": [] }".

Definition null_differences_text : string :=
  "{ " +:+ quoted "differences" +:+ ": null }".

Definition fenced (s : string) : string := fence_open +:+ s +:+ fence_close.

Definition scenario_prose : string :=
  "Dimensions first." +:+ LF +:+ fenced dimensions_text +:+ LF +:+
  "One difference found." +:+ LF.

Definition scenario_response : string :=
  scenario_prose +:+ fenced differences_text +:+ LF +:+ "Done.".

Definition no_differences_response : string :=
  "Dimensions first." +:+ LF +:+ fenced dimensions_text +:+ LF +:+
  "The screenshots match." +:+ LF +:+ fenced empty_differences_text +:+ LF.

(** The [differences] block is missing. *)
Definition missing_block_response : string :=
  "Dimensions first." +:+ LF +:+ fenced dimensions_text +:+ LF +:+
  "I could not compare the screenshots.".

(** Prose that opens a block for [differences] and never closes it, before
    the block itself. *)
Definition unclosed_opening_prose : string :=
  "The format is " +:+ fence_open +:+ "{ " +:+ quoted "differences" +:+
  ": ... and so on." +:+ LF.

Definition unclosed_opening_response : string :=
  unclosed_opening_prose +:+ fenced empty_differences_text +:+ LF.

Definition scenario_dimensions : ProcessedDimensionsPayload :=
  {| processed_dimensions :=
       {| image1 := {| width := num_of_Z 400; height := num_of_Z 300 |};
          image2 := {| width := num_of_Z 400; height := num_of_Z 300 |} |} |}.

Definition scenario_area : Box :=
  {| x1 := num_of_Z 50; y1 := num_of_Z 50; x2 := num_of_Z 150; y2 := num_of_Z 100 |}.

Definition scenario_difference : RawDifference :=
  {| type := "text_change"; location := "header"; description := "Title changed";
     coordinates := None; highlight_area := Some scenario_area;
     before := None; after := None |}.

Definition scenario_differences : DifferencesPayload :=
  {| differences := [scenario_difference] |}.

Definition scenario_image : Image :=
  {| image_src := "uploads/2.png"; image_width := num_of_Z 800; image_height := num_of_Z 600 |}.

Definition demo_platform : Platform :=
  {| JSON_parse_dimensions := fun s =>
       if String.eqb s dimensions_text then inr (Shaped scenario_dimensions)
       else inl "Unexpected token";
     JSON_parse_differences := fun s =>
       if String.eqb s differences_text then inr (Shaped scenario_differences)
       else if String.eqb s empty_differences_text then inr (Shaped {| differences := [] |})
       else if String.eqb s null_differences_text then inr NullMember
       else inl "Unexpected token";
     null_read_message := fun property =>
       "Cannot read properties of null (reading '" +:+ property +:+ "')";
     fs_access_ok := fun _ => true;
     access_rejects_first := fun _ _ => true;
     readFile_rejects_first := fun _ _ => true;
     fs_readFile_result := fun p => inr p;
     toString_base64 := fun s => s;
     messages_create_result := fun _ _ => inr scenario_response;
     loadImage_result := fun p =>
       if String.eqb p "uploads/2.png" then inr scenario_image
       else inl (Error "Unsupported image type");
     fs_mkdirSync_error := fun _ => None;
     fs_writeFile_error := fun _ => None;
     process_cwd := "/app";
     path_join := fun a b => a +:+ "/" +:+ b;
     path_basename := fun p => p;
     path_basename_ext := fun p _ => if String.eqb p "uploads/2.png" then "2" else p;
     path_extname := fun _ => ".png";
     toISOString := fun t => "2025-03-01T10:00:00." +:+ nat_to_string t +:+ "Z" |}.

(** The same platform with another answer of the inference service. *)
Definition demo_platform_answering (response : string) : Platform :=
  {| JSON_parse_dimensions := @JSON_parse_dimensions demo_platform;
     JSON_parse_differences := @JSON_parse_differences demo_platform;
     null_read_message := @null_read_message demo_platform;
     fs_access_ok := @fs_access_ok demo_platform;
     access_rejects_first := @access_rejects_first demo_platform;
     readFile_rejects_first := @readFile_rejects_first demo_platform;
     fs_readFile_result := @fs_readFile_result demo_platform;
     toString_base64 := @toString_base64 demo_platform;
     messages_create_result := fun _ _ => inr response;
     loadImage_result := @loadImage_result demo_platform;
     fs_mkdirSync_error := @fs_mkdirSync_error demo_platform;
     fs_writeFile_error := @fs_writeFile_error demo_platform;
     process_cwd := @process_cwd demo_platform;
     path_join := @path_join demo_platform;
     path_basename := @path_basename demo_platform;
     path_basename_ext := @path_basename_ext demo_platform;
     path_extname := @path_extname demo_platform;
     toISOString := @toISOString demo_platform |}.

(** An 800x600 image whose claimed dimensions are 800x600 as well, the
    highlight area of the example in the prompt of [compareImages], an area
    right of the frame and an area that overhangs it on both sides. *)
Definition frame_image : Image :=
  {| image_src := "a.png"; image_width := num_of_Z 800; image_height := num_of_Z 600 |}.

Definition frame_dimensions : Dimensions :=
  {| width := num_of_Z 800; height := num_of_Z 600 |}.

Definition prompt_example_area : Box :=
  {| x1 := num_of_Z 113; y1 := num_of_Z 446; x2 := num_of_Z 799; y2 := num_of_Z 111 |}.

Definition outside_area : Box :=
  {| x1 := num_of_Z 900; y1 := num_of_Z 10; x2 := num_of_Z 950; y2 := num_of_Z 20 |}.

Definition overhanging_area : Box :=
  {| x1 := num_of_Z (-10); y1 := num_of_Z 10; x2 := num_of_Z 900; y2 := num_of_Z 20 |}.

(** A record without highlight area and a record of another type. *)
Definition record_without_area : RawDifference :=
  {| type := "unknown_kind"; location := ""; description := "no area";
     coordinates := None; highlight_area := None; before := None; after := None |}.

Definition layout_difference : RawDifference :=
  {| type := "layout_change"; location := "footer"; description := "moved";
     coordinates := None;
     highlight_area := Some {| x1 := num_of_Z 10; y1 := num_of_Z 20;
                               x2 := num_of_Z 30; y2 := num_of_Z 40 |};
     before := None; after := None |}.

Definition empty_world : World :=
  {| files := ∅; dirs := ∅; console := []; clock := 0%nat; calls := [] |}.

(** ** [routes/api.js]: the handler of [POST /compare]

    The request holds, for each of the two upload fields, the path of the
    file stored under it, if any ([req.files.image1Path[0].path]); reading
    the path of a missing upload raises the [TypeError] of the runtime, whose
    message is a parameter. *)

Record Request := { upload_image1Path : option string; upload_image2Path : option string }.

(** The three bodies the handler sends. *)
Inductive ResponseBody :=
| FailedBody (error analysis : string) (differences : DifferencesPayload)
| ComparisonBody (analysis : string) (differences : DifferencesPayload)
    (highlightedImagePath : string)
| ErrorBody (success : bool) (error : string).

Record Response := { status : nat; body : ResponseBody }.

Section Routes.
Context `{Platform} (cannot_read_message : string).

(** [req.files.FIELD[0].path]. *)
Definition uploaded_path (upload : option string) : M string :=
  match upload with
  | Some path => mret path
  | None => throw (TypeError cannot_read_message)
  end.

(** [!result.highlightedImagePath]: [null] and the empty string are falsy. *)
Definition post_compare (req : Request) : M Response :=
  try_catch
    (image1Path ← uploaded_path (upload_image1Path req);
     image2Path ← uploaded_path (upload_image2Path req);
     result ← compareImages image1Path image2Path;
     match highlightedImagePath result with
     | None | Some EmptyString =>
         mret {| status := 500;
                 body := FailedBody "Failed to generate highlighted image"
                           (analysis result) (result_differences result) |}
     | Some outputPath =>
         mret {| status := 200;
                 body := ComparisonBody (analysis result) (result_differences result)
                           ("/outputs/" +:+ path_basename outputPath) |}
     end)
    (fun error =>
       console_error [LogStr "Error processing comparison:"; LogError error];;
       mret {| status := 500; body := ErrorBody false (message error) |}).

End Routes.

(** ** [db.js] and the start of [app.js]

    The database is seen through the statements sent to it.  The four
    queries of [initDatabase] are named by what they create; their text is
    not interpreted by the code. *)

Inductive Statement :=
| CreateImagesTable
| CreateComparisonsTable
| CreateDifferencesTable
| CreateIndexes.

(** The state of the database side: the console, the statements sent with
    [client.query], and the numbers of clients acquired from and released to
    the pool. *)
Record DbWorld := {
  db_console : list LogEntry;
  sent : list Statement;
  acquired : nat;
  released : nat
}.

Definition D (A : Type) : Type := DbWorld -> Outcome A * DbWorld.

#[global] Instance D_ret : MRet D := fun A a w => (Returned a, w).

#[global] Instance D_bind : MBind D := fun A B f m w =>
  match m w with
  | (Returned a, w') => f a w'
  | (Thrown e, w') => (Thrown e, w')
  end.

Definition db_throw {A : Type} (e : JsError) : D A := fun w => (Thrown e, w).

(** [try { body } catch (error) { handler }] and
    [try { body } finally { finalizer }] on the database side. *)
Definition db_try_catch {A : Type} (body : D A) (handler : JsError -> D A) : D A :=
  fun w =>
    match body w with
    | (Returned a, w') => (Returned a, w')
    | (Thrown e, w') => handler e w'
    end.

Definition db_try_finally {A : Type} (body : D A) (finalizer : D unit) : D A :=
  fun w =>
    match body w with
    | (outcome, w') =>
        match finalizer w' with
        | (Returned _, w'') => (outcome, w'')
        | (Thrown e, w'') => (Thrown e, w'')
        end
    end.

Definition db_emit (entry : LogEntry) : D unit := fun w =>
  (Returned tt,
   {| db_console := db_console w ++ [entry]; sent := sent w;
      acquired := acquired w; released := released w |}).

Class Database := {
  (** The error of [pool.connect()], if any. *)
  pool_connect_error : option JsError;
  (** The error of [client.query(statement)], if any. *)
  client_query_error : Statement -> option JsError
}.

Section Db.
Context `{Database}.

Definition pool_connect : D unit :=
  match pool_connect_error with
  | Some e => db_throw e
  | None => fun w =>
      (Returned tt,
       {| db_console := db_console w; sent := sent w;
          acquired := S (acquired w); released := released w |})
  end.

Definition client_query (statement : Statement) : D unit := fun w =>
  let w' := {| db_console := db_console w; sent := sent w ++ [statement];
               acquired := acquired w; released := released w |} in
  match client_query_error statement with
  | Some e => (Thrown e, w')
  | None => (Returned tt, w')
  end.

Definition client_release : D unit := fun w =>
  (Returned tt,
   {| db_console := db_console w; sent := sent w;
      acquired := acquired w; released := S (released w) |}).

Definition initDatabase : D unit :=
  pool_connect;;
  db_try_finally
    (db_try_catch
       (client_query CreateImagesTable;;
        client_query CreateComparisonsTable;;
        client_query CreateDifferencesTable;;
        client_query CreateIndexes;;
        db_emit (console_log_entry [LogStr "✅ Database tables initialized"]))
       (fun error =>
          db_emit (console_error_entry [LogStr "❌ Error initializing database:";
                                        LogError error])))
    client_release.

(** [initDatabase().then(() => console.log(...)).catch(err => console.error(...))]
    of [app.js]. *)
Definition initialize_database_at_startup : D unit :=
  db_try_catch
    (initDatabase;;
     db_emit (console_log_entry
                [LogStr "Database initialized & Tables Created Successfully"]))
    (fun err =>
       db_emit (console_error_entry [LogStr "Database initialization error:";
                                     LogError err])).

End Db.

(** The statements of [initDatabase] in the order of the source. *)
Definition schema : list Statement :=
  [CreateImagesTable; CreateComparisonsTable; CreateDifferencesTable; CreateIndexes].

Section DbNotions.
Context `{Database}.

(** The error of the first statement of [l] that the database refuses, and
    the statements of [l] up to and including that one. *)
Fixpoint first_error (l : list Statement) : option JsError :=
  match l with
  | [] => None
  | statement :: l' =>
      match client_query_error statement with
      | Some e => Some e
      | None => first_error l'
      end
  end.

Fixpoint statements_sent (l : list Statement) : list Statement :=
  match l with
  | [] => []
  | statement :: l' =>
      statement :: match client_query_error statement with
                   | Some _ => []
                   | None => statements_sent l'
                   end
  end.

(** The console entry [initDatabase] ends with. *)
Definition initDatabase_entry : LogEntry :=
  match first_error schema with
  | Some error =>
      console_error_entry [LogStr "❌ Error initializing database:"; LogError error]
  | None => console_log_entry [LogStr "✅ Database tables initialized"]
  end.

End DbNotions.

(** ** Further scenarios *)

(** The platform of the scenario on which the output file cannot be
    written. *)
Definition demo_platform_read_only : Platform :=
  {| JSON_parse_dimensions := @JSON_parse_dimensions demo_platform;
     JSON_parse_differences := @JSON_parse_differences demo_platform;
     null_read_message := @null_read_message demo_platform;
     fs_access_ok := @fs_access_ok demo_platform;
     access_rejects_first := @access_rejects_first demo_platform;
     readFile_rejects_first := @readFile_rejects_first demo_platform;
     fs_readFile_result := @fs_readFile_result demo_platform;
     toString_base64 := @toString_base64 demo_platform;
     messages_create_result := @messages_create_result demo_platform;
     loadImage_result := @loadImage_result demo_platform;
     fs_mkdirSync_error := @fs_mkdirSync_error demo_platform;
     fs_writeFile_error := fun _ => Some (Error "EROFS: read-only file system");
     process_cwd := @process_cwd demo_platform;
     path_join := @path_join demo_platform;
     path_basename := @path_basename demo_platform;
     path_basename_ext := @path_basename_ext demo_platform;
     path_extname := @path_extname demo_platform;
     toISOString := @toISOString demo_platform |}.

(** A database on which the creation of the [comparisons] table fails. *)
Definition demo_database_failing : Database :=
  {| pool_connect_error := None;
     client_query_error := fun statement =>
       match statement with
       | CreateComparisonsTable => Some (Error "permission denied for schema public")
       | _ => None
       end |}.

Definition empty_db_world : DbWorld :=
  {| db_console := []; sent := []; acquired := 0%nat; released := 0%nat |}.

(** A finite number greater than zero. *)
Definition is_positive_finite (x : num) : bool :=
  match x with S754_finite false _ _ => true | _ => false end.

(** The platform of the scenario where the file [missing.png] does not
    exist and the file [locked.png] exists but cannot be read, and the one
    where the inference service cannot be reached. *)
Definition demo_platform_unreadable : Platform :=
  {| JSON_parse_dimensions := @JSON_parse_dimensions demo_platform;
     JSON_parse_differences := @JSON_parse_differences demo_platform;
     null_read_message := @null_read_message demo_platform;
     fs_access_ok := fun p => negb (String.eqb p "missing.png");
     access_rejects_first := @access_rejects_first demo_platform;
     readFile_rejects_first := @readFile_rejects_first demo_platform;
     fs_readFile_result := fun p =>
       if String.eqb p "locked.png" then inl (Error "EACCES: permission denied")
       else inr p;
     toString_base64 := @toString_base64 demo_platform;
     messages_create_result := @messages_create_result demo_platform;
     loadImage_result := @loadImage_result demo_platform;
     fs_mkdirSync_error := @fs_mkdirSync_error demo_platform;
     fs_writeFile_error := @fs_writeFile_error demo_platform;
     process_cwd := @process_cwd demo_platform;
     path_join := @path_join demo_platform;
     path_basename := @path_basename demo_platform;
     path_basename_ext := @path_basename_ext demo_platform;
     path_extname := @path_extname demo_platform;
     toISOString := @toISOString demo_platform |}.

Definition demo_platform_offline : Platform :=
  {| JSON_parse_dimensions := @JSON_parse_dimensions demo_platform;
     JSON_parse_differences := @JSON_parse_differences demo_platform;
     null_read_message := @null_read_message demo_platform;
     fs_access_ok := @fs_access_ok demo_platform;
     access_rejects_first := @access_rejects_first demo_platform;
     readFile_rejects_first := @readFile_rejects_first demo_platform;
     fs_readFile_result := @fs_readFile_result demo_platform;
     toString_base64 := @toString_base64 demo_platform;
     messages_create_result := fun _ _ => inl (Error "Connection error.");
     loadImage_result := @loadImage_result demo_platform;
     fs_mkdirSync_error := @fs_mkdirSync_error demo_platform;
     fs_writeFile_error := @fs_writeFile_error demo_platform;
     process_cwd := @process_cwd demo_platform;
     path_join := @path_join demo_platform;
     path_basename := @path_basename demo_platform;
     path_basename_ext := @path_basename_ext demo_platform;
     path_extname := @path_extname demo_platform;
     toISOString := @toISOString demo_platform |}.

(** A database that refuses the connection. *)
Definition demo_database_unreachable : Database :=
  {| pool_connect_error := Some (Error "connect ECONNREFUSED 127.0.0.1:5432");
     client_query_error := fun _ => None |}.

(** An area that overhangs the 800x600 frame on both sides of the x axis
    and is reversed on the y axis, and its box at the scale factors 1. *)
Definition overhanging_reversed_area : Box :=
  {| x1 := num_of_Z (-10); y1 := num_of_Z 446; x2 := num_of_Z 900; y2 := num_of_Z 111 |}.

Definition clamped_box : ScaledBox :=
  scaleBox frame_image (num_div (num_of_Z 800) (num_of_Z 800))
    (num_div (num_of_Z 600) (num_of_Z 600)) overhanging_reversed_area.

(** The answer whose [differences] block holds [null], and a record whose
    type is a name inherited from [Object.prototype]. *)
Definition null_differences_response : string :=
  "Dimensions first." +:+ LF +:+ fenced dimensions_text +:+ LF +:+
  "Nothing to report." +:+ LF +:+ fenced null_differences_text +:+ LF.

Definition inherited_type_difference : RawDifference :=
  {| type := "constructor"; location := "body"; description := "odd type";
     coordinates := None;
     highlight_area := Some {| x1 := num_of_Z 10; y1 := num_of_Z 20;
                               x2 := num_of_Z 30; y2 := num_of_Z 40 |};
     before := None; after := None |}.

#[local] Arguments String.append : simpl nomatch.

(** * Properties *)

(** ** Numbers *)

Lemma new_location_zero (n : Z) : new_location n 0 = loc_Exact.
Proof.
  unfold new_location, new_location_even, new_location_odd.
  destruct (Z.even n); reflexivity.
Qed.

(** A finite non-zero number divided by itself is exactly 1. *)
Lemma num_div_self (x : num) : is_finite_nonzero x = true -> num_div x x = num_one.
Proof.
  destruct x as [| | |s m e]; try discriminate. intros _.
  unfold num_div, SFdiv, SFdiv_core_binary.
  replace (Zdigits2 (Z.pos m) + e - (Zdigits2 (Z.pos m) + e)) with 0 by lia.
  replace (e - e) with 0 by lia.
  change (Z.min (fexp prec emax 0) 0) with (-53).
  change (0 - -53) with 53. cbv iota beta.
  assert (Hq : Z.div_eucl (Z.shiftl (Z.pos m) 53) (Z.pos m) = (9007199254740992, 0)).
  { rewrite Z.shiftl_mul_pow2 by lia.
    generalize (Z.div_eucl_eq (Z.pos m * 2 ^ 53) (Z.pos m) ltac:(lia)).
    generalize (Z.mod_pos_bound (Z.pos m * 2 ^ 53) (Z.pos m) ltac:(lia)).
    unfold Z.modulo, Z.div.
    destruct (Z.div_eucl (Z.pos m * 2 ^ 53) (Z.pos m)) as [q r].
    intros Hr Hqr.
    assert (q = 2 ^ 53) by nia. subst q.
    replace r with 0 by lia. reflexivity. }
  rewrite Hq, new_location_zero.
  destruct s; reflexivity.
Qed.

Lemma digits2_pos_iter_xO (k m : positive) :
  Z.pos (digits2_pos (Pos.iter xO m k)) = Z.pos (digits2_pos m) + Z.pos k.
Proof.
  induction k using Pos.peano_ind.
  - simpl. lia.
  - rewrite Pos.iter_succ. simpl. lia.
Qed.

Lemma shr_52_iter_xO (m : positive) :
  SpecFloat.iter_pos shr_1 52
    {| shr_m := Z.pos (Pos.iter xO m 52); shr_r := false; shr_s := false |}
  = {| shr_m := Z.pos m; shr_r := false; shr_s := false |}.
Proof. reflexivity. Qed.

(** Multiplying a number by 1 returns it unchanged. *)
Lemma num_mul_one (x : num) : valid_num x = true -> num_mul x num_one = x.
Proof.
  destruct x as [s|s| |s m e]; simpl; intros Hv.
  - destruct s; reflexivity.
  - destruct s; reflexivity.
  - reflexivity.
  - unfold num_mul, SFmul, num_one.
    rewrite xorb_false_r.
    unfold valid_num, valid_binary, bounded, canonical_mantissa in Hv.
    apply andb_prop in Hv. destruct Hv as [Hc Hb].
    apply Z.eqb_eq in Hc.
    replace (m * 4503599627370496)%positive with (Pos.iter xO m 52)
      by (rewrite Pos.mul_comm; reflexivity).
    unfold binary_round_aux, shr_fexp.
    unfold Zdigits2 at 1. rewrite digits2_pos_iter_xO.
    replace (Z.pos (digits2_pos m) + 52 + (e + -52)) with (Z.pos (digits2_pos m) + e) by lia.
    rewrite Hc. replace (e - (e + -52)) with 52 by lia.
    unfold shr at 1. cbn [shr_record_of_loc].
    rewrite shr_52_iter_xO.
    cbn [shr_m shr_r shr_s loc_of_shr_record round_nearest_even].
    replace (e + -52 + 52) with e by lia.
    cbn [Zdigits2]. rewrite Hc, Z.sub_diag. cbn [shr shr_record_of_loc shr_m].
    rewrite Hb. reflexivity.
Qed.


Lemma SFcompare_refl (x : num) : is_nan x = false -> SFcompare x x = Some Eq.
Proof.
  destruct x as [s|s| |s m e]; try discriminate; intros _; simpl.
  - reflexivity.
  - destruct s; reflexivity.
  - rewrite Z.compare_refl.
    change (Pos.compare_cont Eq m m) with (Pos.compare m m).
    rewrite Pos.compare_refl. destruct s; reflexivity.
Qed.

Lemma SFcompare_Eq_sym (x y : num) : SFcompare x y = Some Eq -> SFcompare y x = Some Eq.
Proof.
  destruct x as [s1|s1| |s1 m1 e1], y as [s2|s2| |s2 m2 e2]; simpl;
    try discriminate; try reflexivity;
    try (destruct s1; discriminate); try (destruct s2; discriminate).
  - destruct s1, s2; intros; congruence.
  - change (Pos.compare_cont Eq m1 m2) with (Pos.compare m1 m2).
    change (Pos.compare_cont Eq m2 m1) with (Pos.compare m2 m1).
    destruct s1, s2; try discriminate;
      destruct (Z.compare_spec e1 e2) as [He|He|He]; try discriminate;
      destruct (Pos.compare_spec m1 m2) as [Hm|Hm|Hm]; try discriminate;
      intros _; subst; rewrite Z.compare_refl, Pos.compare_refl; reflexivity.
Qed.

Lemma num_leb_not_nan (x y : num) :
  num_leb x y = true -> is_nan x = false /\ is_nan y = false.
Proof.
  unfold num_leb, SFleb. destruct x, y; simpl; try discriminate; auto.
Qed.

Lemma num_leb_refl (x : num) : is_nan x = false -> num_leb x x = true.
Proof. intros Hx. unfold num_leb, SFleb. rewrite SFcompare_refl; auto. Qed.

Lemma num_eqb_refl (x : num) : is_nan x = false -> num_eqb x x = true.
Proof. intros Hx. unfold num_eqb, SFeqb. rewrite SFcompare_refl; auto. Qed.

(** [Math.max(0, a)] is [a] when [0 < a] and [0] otherwise. *)
Lemma Math_max_zero (a : num) :
  is_nan a = false ->
  Math_max num_zero a = if num_ltb num_zero a then a else num_zero.
Proof. destruct a; try discriminate; reflexivity. Qed.

(** [Math.min(W, b)] is [b] when [b < W], and otherwise [W] or a zero equal
    to it. *)
Lemma Math_min_cases (W b : num) :
  is_nan W = false -> is_nan b = false ->
  (num_ltb b W = true /\ Math_min W b = b)
  \/ (num_ltb b W = false /\ Math_min W b = W)
  \/ (num_ltb b W = false /\ Math_min W b = b /\ SFcompare b W = Some Eq).
Proof.
  intros HW Hb. destruct (num_ltb b W) eqn:Hlt.
  - left. split; [reflexivity|].
    destruct W as [[]| | |], b as [[]| | |]; try discriminate; simpl in *;
      try rewrite Hlt; reflexivity.
  - destruct W as [[]| | |], b as [[]| | |]; try discriminate; simpl in *;
      try rewrite Hlt; auto.
Qed.

Lemma num_leb_of_not_ltb (a b : num) :
  num_leb a b = true -> num_ltb a b = false -> SFcompare a b = Some Eq.
Proof.
  unfold num_leb, num_ltb, SFleb, SFltb.
  destruct (SFcompare a b) as [[]|]; congruence.
Qed.

Lemma num_ltb_leb (a b : num) : num_ltb a b = true -> num_leb a b = true.
Proof.
  unfold num_leb, num_ltb, SFleb, SFltb.
  destruct (SFcompare a b) as [[]|]; congruence.
Qed.

Lemma num_leb_of_Eq (a b : num) : SFcompare a b = Some Eq -> num_leb a b = true.
Proof. unfold num_leb, SFleb. intros ->. reflexivity. Qed.

Lemma Math_max_zero_lower (a : num) :
  is_nan a = false -> num_leb num_zero (Math_max num_zero a) = true.
Proof.
  intros Ha. rewrite Math_max_zero by assumption.
  destruct (num_ltb num_zero a) eqn:Hlt.
  - apply num_ltb_leb, Hlt.
  - reflexivity.
Qed.

Lemma Math_min_upper (W b : num) :
  is_nan W = false -> is_nan b = false -> num_leb (Math_min W b) W = true.
Proof.
  intros HW Hb.
  destruct (Math_min_cases W b HW Hb) as [[Hlt ->]|[[_ ->]|(_ & -> & Heq)]].
  - apply num_ltb_leb, Hlt.
  - apply num_leb_refl, HW.
  - apply num_leb_of_Eq, Heq.
Qed.

(** The clamped corners stay ordered, and inside the other bound, when the
    unclamped ones are. *)
Lemma clamp_ordered (W a b : num) :
  num_leb a b = true -> num_leb num_zero b = true ->
  num_leb a W = true -> num_leb num_zero W = true ->
  num_leb (Math_max num_zero a) (Math_min W b) = true
  /\ num_leb (Math_max num_zero a) W = true
  /\ num_leb num_zero (Math_min W b) = true.
Proof.
  intros Hab H0b HaW H0W.
  destruct (num_leb_not_nan _ _ Hab) as [Ha Hb].
  destruct (num_leb_not_nan _ _ H0W) as [_ HW].
  rewrite Math_max_zero by assumption.
  destruct (Math_min_cases W b HW Hb) as [[Hlt ->]|[[_ ->]|(_ & -> & Heq)]];
    destruct (num_ltb num_zero a); auto.
Qed.

(** [Math.max(0, x) === x] when [0 <= x]. *)
Lemma Math_max_zero_id (x : num) :
  num_leb num_zero x = true -> num_eqb (Math_max num_zero x) x = true.
Proof.
  intros Hx. destruct (num_leb_not_nan _ _ Hx) as [_ Hn].
  rewrite Math_max_zero by assumption.
  destruct (num_ltb num_zero x) eqn:Hlt.
  - apply num_eqb_refl, Hn.
  - unfold num_eqb, SFeqb. rewrite (num_leb_of_not_ltb _ _ Hx Hlt). reflexivity.
Qed.

(** [Math.min(W, x) === x] when [x <= W]. *)
Lemma Math_min_id (W x : num) :
  num_leb x W = true -> num_eqb (Math_min W x) x = true.
Proof.
  intros Hx. destruct (num_leb_not_nan _ _ Hx) as [Hn HW].
  destruct (Math_min_cases W x HW Hn) as [[Hlt ->]|[[Hlt ->]|(_ & -> & Heq)]].
  - apply num_eqb_refl, Hn.
  - unfold num_eqb, SFeqb.
    rewrite (SFcompare_Eq_sym _ _ (num_leb_of_not_ltb _ _ Hx Hlt)). reflexivity.
  - apply num_eqb_refl, Hn.
Qed.

(** The comparison of numbers is a total preorder outside NaN. *)
Lemma SFcompare_trans_lt_le (a b c : num) :
  SFcompare a b = Some Lt ->
  SFcompare b c = Some Lt \/ SFcompare b c = Some Eq ->
  SFcompare a c = Some Lt.
Proof.
  destruct a as [[]|[]| |[] m1 e1], b as [[]|[]| |[] m2 e2], c as [[]|[]| |[] m3 e3];
    cbn [SFcompare]; intros Hab [Hbc|Hbc]; try discriminate; try reflexivity;
    change (Pos.compare_cont Eq m1 m2) with (Pos.compare m1 m2) in *;
    change (Pos.compare_cont Eq m2 m3) with (Pos.compare m2 m3) in *;
    change (Pos.compare_cont Eq m1 m3) with (Pos.compare m1 m3) in *;
    destruct (Z.compare_spec e1 e2), (Z.compare_spec e2 e3), (Z.compare_spec e1 e3);
    try lia; try discriminate; try reflexivity; subst;
    destruct (Pos.compare_spec m1 m2), (Pos.compare_spec m2 m3), (Pos.compare_spec m1 m3);
    try lia; try discriminate; try reflexivity.
Qed.

Lemma SFcompare_trans_le_lt (a b c : num) :
  SFcompare a b = Some Lt \/ SFcompare a b = Some Eq ->
  SFcompare b c = Some Lt ->
  SFcompare a c = Some Lt.
Proof.
  destruct a as [[]|[]| |[] m1 e1], b as [[]|[]| |[] m2 e2], c as [[]|[]| |[] m3 e3];
    cbn [SFcompare]; intros [Hab|Hab] Hbc; try discriminate; try reflexivity;
    change (Pos.compare_cont Eq m1 m2) with (Pos.compare m1 m2) in *;
    change (Pos.compare_cont Eq m2 m3) with (Pos.compare m2 m3) in *;
    change (Pos.compare_cont Eq m1 m3) with (Pos.compare m1 m3) in *;
    destruct (Z.compare_spec e1 e2), (Z.compare_spec e2 e3), (Z.compare_spec e1 e3);
    try lia; try discriminate; try reflexivity; subst;
    destruct (Pos.compare_spec m1 m2), (Pos.compare_spec m2 m3), (Pos.compare_spec m1 m3);
    try lia; try discriminate; try reflexivity.
Qed.

Lemma SFcompare_antisym (a b : num) :
  is_nan a = false -> is_nan b = false ->
  SFcompare b a = option_map CompOpp (SFcompare a b).
Proof.
  destruct a as [[]|[]| |[] m1 e1], b as [[]|[]| |[] m2 e2];
    cbn [SFcompare is_nan option_map CompOpp]; intros Ha Hb;
    try discriminate; try reflexivity;
    change (Pos.compare_cont Eq m1 m2) with (Pos.compare m1 m2);
    change (Pos.compare_cont Eq m2 m1) with (Pos.compare m2 m1);
    rewrite (Z.compare_antisym e1 e2), (Pos.compare_antisym m1 m2);
    destruct (e1 ?= e2)%Z, (m1 ?= m2)%positive; reflexivity.
Qed.

Lemma num_ltb_leb_trans (a b c : num) :
  num_ltb a b = true -> num_leb b c = true -> num_ltb a c = true.
Proof.
  unfold num_ltb, num_leb, SFltb, SFleb. intros Hab Hbc.
  rewrite (SFcompare_trans_lt_le a b c); [reflexivity| |].
  - destruct (SFcompare a b) as [[]|]; congruence.
  - destruct (SFcompare b c) as [[]|]; auto; discriminate.
Qed.

Lemma num_leb_ltb_trans (a b c : num) :
  num_leb a b = true -> num_ltb b c = true -> num_ltb a c = true.
Proof.
  unfold num_ltb, num_leb, SFltb, SFleb. intros Hab Hbc.
  rewrite (SFcompare_trans_le_lt a b c); [reflexivity| |].
  - destruct (SFcompare a b) as [[]|]; auto; discriminate.
  - destruct (SFcompare b c) as [[]|]; congruence.
Qed.

Lemma num_ltb_not_nan (a b : num) :
  num_ltb a b = true -> is_nan a = false /\ is_nan b = false.
Proof. intros Hab. apply num_leb_not_nan, num_ltb_leb, Hab. Qed.

(** Of two numbers, one is below the other or they compare equal. *)
Lemma num_leb_total (a b : num) :
  is_nan a = false -> is_nan b = false -> num_ltb a b = false -> num_leb b a = true.
Proof.
  intros Ha Hb. unfold num_ltb, num_leb, SFltb, SFleb.
  rewrite (SFcompare_antisym a b Ha Hb).
  destruct a as [| | |], b as [| | |]; try discriminate;
    destruct (SFcompare _ _) as [[]|] eqn:Hc; cbn; try congruence; discriminate.
Qed.

(** [Math.max(0, a)] is [a] itself when [0 < a], however large [a] is. *)
Lemma Math_max_zero_pos (a : num) : num_ltb num_zero a = true -> Math_max num_zero a = a.
Proof.
  intros Hlt. destruct (num_ltb_not_nan _ _ Hlt) as [_ Ha].
  rewrite Math_max_zero by assumption. rewrite Hlt. reflexivity.
Qed.

(** [Math.min(W, b)] is [b] itself when [b < W], however small [b] is. *)
Lemma Math_min_below (W b : num) : num_ltb b W = true -> Math_min W b = b.
Proof.
  intros Hlt. destruct (num_ltb_not_nan _ _ Hlt) as [Hb HW].
  destruct (Math_min_cases W b HW Hb) as [[_ Heq]|[[Hge _]|(_ & Heq & _)]];
    [exact Heq|congruence|exact Heq].
Qed.

(** [Math.max(0, a)] is never below [a] and [Math.min(W, b)] never above
    [b]. *)
Lemma Math_max_zero_ge (a : num) :
  is_nan a = false -> num_leb a (Math_max num_zero a) = true.
Proof.
  intros Ha. rewrite Math_max_zero by assumption.
  destruct (num_ltb num_zero a) eqn:Hlt.
  - apply num_leb_refl, Ha.
  - apply num_leb_total; [reflexivity|assumption|assumption].
Qed.

Lemma Math_min_le (W b : num) :
  is_nan W = false -> is_nan b = false -> num_leb (Math_min W b) b = true.
Proof.
  intros HW Hb.
  destruct (Math_min_cases W b HW Hb) as [[_ ->]|[[Hge ->]|(_ & -> & _)]].
  - apply num_leb_refl, Hb.
  - apply num_leb_total; assumption.
  - apply num_leb_refl, Hb.
Qed.

(** The clamps keep a reversed pair reversed, a first coordinate beyond the
    far edge beyond it, and a second coordinate below zero below zero. *)
Lemma clamp_keeps (W a b : num) :
  is_nan W = false -> is_nan a = false -> is_nan b = false ->
  (num_ltb b a = true -> num_ltb (Math_min W b) (Math_max num_zero a) = true)
  /\ (num_ltb W a = true -> num_ltb W (Math_max num_zero a) = true)
  /\ (num_ltb b num_zero = true -> num_ltb (Math_min W b) num_zero = true).
Proof.
  intros HW Ha Hb. split; [|split].
  - intros Hba. apply (num_ltb_leb_trans _ a); [|apply Math_max_zero_ge, Ha].
    apply (num_leb_ltb_trans _ b); [apply Math_min_le; assumption|exact Hba].
  - intros HWa. apply (num_ltb_leb_trans _ a); [exact HWa|apply Math_max_zero_ge, Ha].
  - intros Hb0. apply (num_leb_ltb_trans _ b); [apply Math_min_le; assumption|exact Hb0].
Qed.

(** ** Strings *)


Lemma app_assoc_s (a b c : string) : (a +:+ b) +:+ c = a +:+ b +:+ c.
Proof. induction a as [|x a IH]; simpl; [reflexivity|]. now rewrite IH. Qed.

Lemma app_nil_r_s (a : string) : a +:+ "" = a.
Proof. induction a as [|x a IH]; simpl; [reflexivity|]. now rewrite IH. Qed.

Lemma char_eq_ci_refl (c : ascii) : char_eq_ci c c = true.
Proof. unfold char_eq_ci. apply Ascii.eqb_refl. Qed.

Lemma string_eqb_ci_refl (p : string) : string_eqb_ci p p = true.
Proof.
  induction p as [|a p IH]; simpl; [reflexivity|].
  now rewrite char_eq_ci_refl, IH.
Qed.


Ltac caseless_by_cases :=
  let c := fresh "c" in
  let Hc := fresh "Hc" in
  intros c Hc;
  destruct c as [[] [] [] [] [] [] [] []]; try discriminate Hc; reflexivity.

Lemma caseless_brace_open : caseless "{".
Proof. caseless_by_cases. Qed.

Lemma caseless_brace_close : caseless "}".
Proof. caseless_by_cases. Qed.

Lemma caseless_backtick : caseless "`".
Proof. caseless_by_cases. Qed.

Lemma caseless_line_feed : caseless "010".
Proof. caseless_by_cases. Qed.

Lemma string_eqb_ci_caseless (p f : string) :
  string_Forall caseless p -> string_eqb_ci p f = true -> f = p.
Proof.
  revert f. induction p as [|a p IH]; intros [|c f]; simpl; try discriminate; auto.
  intros [Ha Hp] H. apply andb_prop in H. destruct H as [H1 H2].
  rewrite (Ha c H1), (IH f Hp H2). reflexivity.
Qed.

Lemma fence_close_caseless : string_Forall caseless fence_close.
Proof.
  cbn. repeat split; first [apply caseless_line_feed | apply caseless_backtick].
Qed.

Lemma brace_open_caseless : string_Forall caseless "{".
Proof. cbn. split; [apply caseless_brace_open|exact I]. Qed.

Lemma brace_close_caseless : string_Forall caseless "}".
Proof. cbn. split; [apply caseless_brace_close|exact I]. Qed.

(** ** The matcher combinators *)

Lemma lit_skip_app (p f t : string) (k : string -> option string) :
  string_eqb_ci p f = true -> lit_skip p k (f +:+ t) = k t.
Proof.
  revert f. induction p as [|a p IH]; intros [|c f]; simpl; try discriminate; auto.
  intros H. apply andb_prop in H. destruct H as [H1 H2]. rewrite H1. auto.
Qed.

Lemma lit_skip_inv (p s r : string) (k : string -> option string) :
  lit_skip p k s = Some r ->
  exists f t, s = f +:+ t /\ string_eqb_ci p f = true /\ k t = Some r.
Proof.
  revert s. induction p as [|a p IH]; intros s; simpl.
  - intros Hk. exists "", s. auto.
  - destruct s as [|c s]; [discriminate|].
    destruct (char_eq_ci a c) eqn:Hc; [|discriminate].
    intros Hk. destruct (IH _ Hk) as (f & t & -> & Hf & Ht).
    exists (String c f), t. simpl. rewrite Hc, Hf. auto.
Qed.

Lemma lit_cap_app (p f t : string) (k : string -> option string) :
  string_eqb_ci p f = true -> lit_cap p k (f +:+ t) = String.app f <$> k t.
Proof.
  revert f. induction p as [|a p IH]; intros [|c f]; simpl; try discriminate.
  - intros _. destruct (k t); reflexivity.
  - intros H. apply andb_prop in H. destruct H as [H1 H2]. rewrite H1.
    rewrite (IH f H2). destruct (k t); reflexivity.
Qed.

Lemma lit_cap_inv (p s r : string) (k : string -> option string) :
  lit_cap p k s = Some r ->
  exists f t r', s = f +:+ t /\ string_eqb_ci p f = true /\ k t = Some r' /\ r = f +:+ r'.
Proof.
  revert s r. induction p as [|a p IH]; intros s r; simpl.
  - intros Hk. exists "", s, r. auto.
  - destruct s as [|c s]; [discriminate|].
    destruct (char_eq_ci a c) eqn:Hc; [|discriminate].
    destruct (lit_cap p k s) as [r0|] eqn:Hr; [|discriminate].
    intros [= <-]. destruct (IH _ _ Hr) as (f & t & r' & -> & Hf & Ht & ->).
    exists (String c f), t, r'. simpl. rewrite Hc, Hf. auto.
Qed.

Lemma star_greedy_inv (cls : ascii -> bool) (k : string -> option string) (s r : string) :
  star_greedy cls k s = Some r ->
  exists ws t r', s = ws +:+ t /\ string_forallb cls ws = true /\ k t = Some r' /\ r = ws +:+ r'.
Proof.
  revert r. induction s as [|c s IH]; intros r; simpl.
  - intros Hk. exists "", "", r. auto.
  - destruct (cls c) eqn:Hc.
    + destruct (star_greedy cls k s) as [r0|] eqn:Hr.
      * intros [= <-]. destruct (IH _ eq_refl) as (ws & t & r' & -> & Hws & Ht & ->).
        exists (String c ws), t, r'. simpl. rewrite Hc, Hws. auto.
      * intros Hk. exists "", (String c s), r. auto.
    + intros Hk. exists "", (String c s), r. auto.
Qed.

Lemma star_greedy_complete (cls : ascii -> bool) (k : string -> option string) (ws t : string) :
  string_forallb cls ws = true -> is_Some (k t) -> is_Some (star_greedy cls k (ws +:+ t)).
Proof.
  intros Hws Hk. induction ws as [|c ws IH]; simpl in *.
  - destruct t as [|c t]; simpl; [assumption|].
    destruct (cls c); [|assumption].
    destruct (star_greedy cls k t); [eauto|assumption].
  - apply andb_prop in Hws. destruct Hws as [Hc Hws]. rewrite Hc.
    destruct (IH Hws) as [r ->]. eauto.
Qed.

(** When the continuation rejects every input that starts in the class and
    the input after [ws] does not start in the class, the greedy star takes
    exactly [ws]. *)
Lemma star_greedy_exact (cls : ascii -> bool) (k : string -> option string) (ws t : string) :
  string_forallb cls ws = true ->
  (forall c t', cls c = true -> k (String c t') = None) ->
  match t with String c _ => cls c = false | EmptyString => True end ->
  star_greedy cls k (ws +:+ t) = String.app ws <$> k t.
Proof.
  intros Hws Hk Ht. induction ws as [|c ws IH]; simpl in *.
  - destruct t as [|c t]; simpl.
    + destruct (k ""); reflexivity.
    + rewrite Ht. destruct (k (String c t)); reflexivity.
  - apply andb_prop in Hws. destruct Hws as [Hc Hws]. rewrite Hc, (IH Hws).
    destruct (k t); simpl; [reflexivity|]. apply Hk, Hc.
Qed.

Lemma star_lazy_inv (cls : ascii -> bool) (k : string -> option string) (s r : string) :
  star_lazy cls k s = Some r ->
  exists body t r', s = body +:+ t /\ k t = Some r' /\ r = body +:+ r'.
Proof.
  revert r. induction s as [|c s IH]; intros r; simpl.
  - destruct (k "") eqn:Hk; [|discriminate]. intros [= <-]. exists "", "", s. auto.
  - destruct (k (String c s)) eqn:Hk.
    + intros [= <-]. exists "", (String c s), s0. auto.
    + destruct (cls c); [|discriminate].
      destruct (star_lazy cls k s) as [r0|] eqn:Hr; [|discriminate].
      intros [= <-]. destruct (IH _ eq_refl) as (body & t & r' & -> & Ht & ->).
      exists (String c body), t, r'. auto.
Qed.

Lemma star_lazy_complete (k : string -> option string) (body t : string) :
  is_Some (k t) -> is_Some (star_lazy any_char k (body +:+ t)).
Proof.
  intros Hk. induction body as [|c body IH]; simpl.
  - destruct t; simpl; destruct Hk as [r ->]; eauto.
  - destruct (k (String c (body +:+ t))); [eauto|].
    destruct IH as [r ->]. simpl. eauto.
Qed.

(** The lazy star stops at the first position where the continuation
    succeeds. *)
Lemma star_lazy_first (k : string -> option string) (body t r : string) :
  (forall b1 b2, body = b1 +:+ b2 -> b2 <> "" -> k (b2 +:+ t) = None) ->
  k t = Some r ->
  star_lazy any_char k (body +:+ t) = Some (body +:+ r).
Proof.
  intros Hno Hk. induction body as [|c body IH]; simpl.
  - destruct t; simpl; rewrite Hk; reflexivity.
  - pose proof (Hno "" (String c body) eq_refl ltac:(discriminate)) as H0.
    simpl in H0. rewrite H0, IH; [reflexivity|].
    intros b1 b2 -> Hb2. apply (Hno (String c b1) b2); auto.
Qed.

Lemma regex_match_inv (objectName s r : string) :
  regex_match objectName s = Some r ->
  exists pre t, s = pre +:+ t /\ match_here objectName t = Some r.
Proof.
  induction s as [|c s IH]; cbn [regex_match].
  - destruct (match_here objectName "") eqn:Hm; [|discriminate].
    intros [= <-]. exists "", "". auto.
  - destruct (match_here objectName (String c s)) eqn:Hm.
    + intros [= <-]. exists "", (String c s). auto.
    + intros Hr. destruct (IH Hr) as (pre & t & -> & Ht).
      exists (String c pre), t. auto.
Qed.

Lemma regex_match_complete (objectName pre t : string) :
  is_Some (match_here objectName t) -> is_Some (regex_match objectName (pre +:+ t)).
Proof.
  intros Hm. induction pre as [|c pre IH].
  - change ("" +:+ t) with t.
    destruct t; cbn [regex_match]; destruct Hm as [r ->]; eauto.
  - change (String c pre +:+ t) with (String c (pre +:+ t)). cbn [regex_match].
    destruct (match_here objectName (String c (pre +:+ t))); [eauto|assumption].
Qed.

(** The attempts that fail in the leading text do not affect the result. *)
Lemma regex_match_skip (objectName pre t : string) :
  no_match_before objectName (pre +:+ t) (String.length pre) = true ->
  regex_match objectName (pre +:+ t) = regex_match objectName t.
Proof.
  induction pre as [|c pre IH]; [reflexivity|].
  change (String c pre +:+ t) with (String c (pre +:+ t)).
  cbn [regex_match no_match_before String.length].
  destruct (match_here objectName (String c (pre +:+ t))); [discriminate|].
  exact IH.
Qed.

(** ** The pattern against the fenced blocks *)

(** A successful attempt has matched a fenced block keyed by the name, and
    captured its text from the opening brace to the closing brace. *)
Lemma match_here_sound (objectName s r : string) :
  match_here objectName s = Some r ->
  exists fence ws key body post,
    s = fence +:+ "{" +:+ ws +:+ key +:+ body +:+ "}" +:+ fence_close +:+ post
    /\ string_eqb_ci fence_open fence = true
    /\ string_forallb is_space ws = true
    /\ string_eqb_ci (quoted objectName) key = true
    /\ r = "{" +:+ ws +:+ key +:+ body +:+ "}".
Proof.
  unfold match_here. intros Hm.
  apply lit_skip_inv in Hm. destruct Hm as (fence & t0 & -> & Hfence & Hm).
  apply lit_cap_inv in Hm. destruct Hm as (ob & t1 & r1 & -> & Hob & Hm & ->).
  apply (string_eqb_ci_caseless _ _ brace_open_caseless) in Hob. subst ob.
  apply star_greedy_inv in Hm. destruct Hm as (ws & t2 & r2 & -> & Hws & Hm & ->).
  apply lit_cap_inv in Hm. destruct Hm as (key & t3 & r3 & -> & Hkey & Hm & ->).
  apply star_lazy_inv in Hm. destruct Hm as (body & t4 & r4 & -> & Hm & ->).
  apply lit_cap_inv in Hm. destruct Hm as (cb & t5 & r5 & -> & Hcb & Hm & ->).
  apply (string_eqb_ci_caseless _ _ brace_close_caseless) in Hcb. subst cb.
  apply lit_skip_inv in Hm. destruct Hm as (fc & post & -> & Hfc & Hm).
  apply (string_eqb_ci_caseless _ _ fence_close_caseless) in Hfc. subst fc.
  injection Hm as <-.
  exists fence, ws, key, body, post. repeat split; auto.
Qed.

Lemma match_here_complete (objectName fence ws key body post : string) :
  string_eqb_ci fence_open fence = true ->
  string_forallb is_space ws = true ->
  string_eqb_ci (quoted objectName) key = true ->
  is_Some (match_here objectName
             (fence +:+ "{" +:+ ws +:+ key +:+ body +:+ "}" +:+ fence_close +:+ post)).
Proof.
  intros Hfence Hws Hkey. unfold match_here.
  rewrite (lit_skip_app _ _ _ _ Hfence).
  rewrite (lit_cap_app "{" "{") by reflexivity.
  apply fmap_is_Some, star_greedy_complete; [assumption|].
  rewrite (lit_cap_app _ _ _ _ Hkey).
  apply fmap_is_Some, star_lazy_complete.
  rewrite (lit_cap_app "}" "}") by reflexivity.
  apply fmap_is_Some.
  rewrite (lit_skip_app fence_close fence_close) by apply string_eqb_ci_refl.
  eauto.
Qed.

(** The pattern finds a match exactly in the texts that contain a fenced
    block keyed by the name. *)
Lemma regex_match_has_block (objectName blob : string) :
  is_Some (regex_match objectName blob) <-> has_block objectName blob.
Proof.
  split.
  - intros [r Hr]. apply regex_match_inv in Hr. destruct Hr as (pre & t & -> & Hm).
    apply match_here_sound in Hm.
    destruct Hm as (fence & ws & key & body & post & -> & ? & ? & ? & _).
    exists pre, fence, ws, key, body, post. auto.
  - intros (pre & fence & ws & key & body & post & -> & Hf & Hws & Hkey).
    apply regex_match_complete, match_here_complete; assumption.
Qed.

Lemma regex_match_None (objectName blob : string) :
  ~ has_block objectName blob -> regex_match objectName blob = None.
Proof.
  intros Hno. destruct (regex_match objectName blob) eqn:Hr; [|reflexivity].
  exfalso. apply Hno, regex_match_has_block. rewrite Hr. eauto.
Qed.

(** The capture is never empty: it starts with the opening brace. *)
Lemma regex_match_nonempty (objectName blob : string) :
  regex_match objectName blob <> Some "".
Proof.
  intros Hr. apply regex_match_inv in Hr. destruct Hr as (pre & t & _ & Hm).
  apply match_here_sound in Hm.
  destruct Hm as (fence & ws & key & body & post & _ & _ & _ & _ & Hr).
  discriminate Hr.
Qed.

Lemma is_space_not_quote (c : ascii) (p : string) (k : string -> option string) (t : string) :
  is_space c = true -> lit_cap (quoted p) k (String c t) = None.
Proof.
  intros Hc. unfold quoted, QUOTE. simpl.
  destruct c as [[] [] [] [] [] [] [] []]; try discriminate Hc; reflexivity.
Qed.


(** The continuation after the lazy star succeeds only on a closing brace
    that is followed by the closing fence. *)
Lemma after_body_inv (t r : string) :
  lit_cap "}" (lit_skip fence_close (fun _ => Some "")) t = Some r ->
  string_prefix closing t = true.
Proof.
  intros Hm.
  apply lit_cap_inv in Hm. destruct Hm as (cb & t5 & r5 & -> & Hcb & Hm & ->).
  apply (string_eqb_ci_caseless _ _ brace_close_caseless) in Hcb. subst cb.
  apply lit_skip_inv in Hm. destruct Hm as (fc & post & -> & Hfc & Hm).
  apply (string_eqb_ci_caseless _ _ fence_close_caseless) in Hfc. subst fc.
  reflexivity.
Qed.

Lemma includes_app_l (a t p : string) :
  includes t p = true -> includes (a +:+ t) p = true.
Proof.
  intros Ht. induction a as [|c a IH]; simpl; [assumption|].
  rewrite IH. apply orb_true_r.
Qed.

Lemma includes_prefix (t p : string) : string_prefix p t = true -> includes t p = true.
Proof. intros Hp. destruct t; simpl; rewrite Hp; reflexivity. Qed.

(** A closing sequence that starts inside [b2 ++ "}"], before its last
    character, lies inside it: the characters after the brace of the
    sequence are not braces. *)
Lemma closing_inside (b2 rest : string) :
  b2 <> "" ->
  string_prefix closing (b2 +:+ "}" +:+ rest) = true ->
  string_prefix closing (b2 +:+ "}") = true.
Proof.
  intros Hne.
  destruct b2 as [|c1 [|c2 [|c3 [|c4 [|c5 b2]]]]]; [congruence|..]; cbn;
    repeat match goal with
           | |- context [Ascii.eqb ?a ?c] =>
               is_var c; destruct (Ascii.eqb a c); cbn
           end; try discriminate; auto.
Qed.

(** A fenced block whose text does not contain the closing sequence is
    matched at its opening fence, and the capture is the text of the block. *)
Lemma match_here_block (objectName ws body post : string) :
  let s := "{" +:+ ws +:+ quoted objectName +:+ body +:+ "}" in
  string_forallb is_space ws = true ->
  includes s closing = false ->
  match_here objectName (fence_open +:+ s +:+ fence_close +:+ post) = Some s.
Proof.
  intros s Hws Hno. unfold match_here.
  rewrite (lit_skip_app fence_open fence_open) by apply string_eqb_ci_refl.
  assert (Hs : s +:+ fence_close +:+ post
               = "{" +:+ ws +:+ quoted objectName +:+ body +:+ "}" +:+ fence_close +:+ post).
  { unfold s. rewrite !app_assoc_s. reflexivity. }
  rewrite Hs.
  rewrite (lit_cap_app "{" "{") by reflexivity.
  rewrite star_greedy_exact; [|assumption|intros; apply is_space_not_quote; assumption|reflexivity].
  rewrite (lit_cap_app (quoted objectName) (quoted objectName)) by apply string_eqb_ci_refl.
  rewrite (star_lazy_first _ body _ "}").
  - reflexivity.
  - intros b1 b2 -> Hb2.
    destruct (lit_cap "}" (lit_skip fence_close (fun _ => Some ""))
                (b2 +:+ "}" +:+ fence_close +:+ post)) as [r|] eqn:Hk; [|reflexivity].
    exfalso. apply after_body_inv in Hk. apply closing_inside in Hk; [|assumption].
    apply includes_prefix in Hk.
    apply (includes_app_l ("{" +:+ ws +:+ quoted objectName +:+ b1)) in Hk.
    unfold s in Hno. repeat rewrite app_assoc_s in Hk. repeat rewrite app_assoc_s in Hno.
    congruence.
  - rewrite (lit_cap_app "}" "}") by reflexivity.
    rewrite (lit_skip_app fence_close fence_close) by apply string_eqb_ci_refl.
    reflexivity.
Qed.

(** Leading prose without a backtick holds no successful attempt. *)
Lemma no_backtick_no_match (objectName pre t : string) :
  string_forallb (fun c => negb (Ascii.eqb c "`")) pre = true ->
  no_match_before objectName (pre +:+ t) (String.length pre) = true.
Proof.
  induction pre as [|c pre IH]; intros Hc; [reflexivity|].
  change (String c pre +:+ t) with (String c (pre +:+ t)).
  cbn [string_forallb no_match_before String.length] in Hc |- *. apply andb_prop in Hc. destruct Hc as [Hc Hpre].
  assert (Hhere : match_here objectName (String c (pre +:+ t)) = None).
  { unfold match_here, fence_open. cbn [String.append lit_skip].
    destruct (char_eq_ci "`" c) eqn:Heq; [|reflexivity].
    apply caseless_backtick in Heq. subst c. discriminate Hc. }
  rewrite Hhere. exact (IH Hpre).
Qed.

(** ** [extractJsonObject] *)

Lemma with_console_app (es1 es2 : list LogEntry) (w : World) :
  with_console es2 (with_console es1 w) = with_console (es1 ++ es2) w.
Proof. unfold with_console. simpl. now rewrite app_assoc. Qed.

Lemma with_console_nil (w : World) : with_console [] w = w.
Proof. destruct w. unfold with_console. simpl. now rewrite app_nil_r. Qed.

Lemma extractJsonObject_found {A : Type} (parse : string -> string + A)
    (jsonString objectName match1 : string) (value : A) (w : World) :
  regex_match objectName jsonString = Some match1 ->
  parse match1 = inr value ->
  extractJsonObject parse jsonString objectName w = (Returned value, w).
Proof.
  intros Hm Hp. unfold extractJsonObject, try_catch. rewrite Hm.
  destruct match1 as [|c m]; [destruct (regex_match_nonempty _ _ Hm)|].
  rewrite Hp. reflexivity.
Qed.

Lemma extractJsonObject_not_found {A : Type} (parse : string -> string + A)
    (jsonString objectName : string) (w : World) :
  regex_match objectName jsonString = None ->
  extractJsonObject parse jsonString objectName w
  = (Thrown (not_found objectName),
     with_console (extraction_log objectName jsonString (not_found objectName)) w).
Proof.
  intros Hm. unfold extractJsonObject, try_catch. rewrite Hm.
  cbv beta iota delta [mbind M_bind console_error emit throw].
  rewrite with_console_app. reflexivity.
Qed.

Lemma extractJsonObject_malformed {A : Type} (parse : string -> string + A)
    (jsonString objectName match1 m : string) (w : World) :
  regex_match objectName jsonString = Some match1 ->
  parse match1 = inl m ->
  extractJsonObject parse jsonString objectName w
  = (Thrown (SyntaxError m),
     with_console (extraction_log objectName jsonString (SyntaxError m)) w).
Proof.
  intros Hm Hp. unfold extractJsonObject, try_catch. rewrite Hm.
  destruct match1 as [|c m1]; [destruct (regex_match_nonempty _ _ Hm)|].
  rewrite Hp.
  cbv beta iota delta [mbind M_bind console_error emit throw].
  rewrite with_console_app. reflexivity.
Qed.

(** [extractJsonObject] returns without touching the world, or throws after
    logging the error and the raw content. *)
Lemma extractJsonObject_cases {A : Type} (parse : string -> string + A)
    (jsonString objectName : string) (w : World) :
  (exists value, extractJsonObject parse jsonString objectName w = (Returned value, w))
  \/ (exists error,
        extractJsonObject parse jsonString objectName w
        = (Thrown error, with_console (extraction_log objectName jsonString error) w)).
Proof.
  destruct (regex_match objectName jsonString) as [match1|] eqn:Hm.
  - destruct (parse match1) as [m|value] eqn:Hp.
    + right. eexists. eapply extractJsonObject_malformed; eauto.
    + left. eexists. eapply extractJsonObject_found; eauto.
  - right. eexists. apply extractJsonObject_not_found, Hm.
Qed.

(** ** The renderer *)

Section Renderer.
Context `{Platform}.


(** One pass of the loop appends the drawing calls of the record and leaves
    the font, the line width and the size of the canvas as they are; a pass
    that draws leaves the stroke style black and the fill style white. *)
Lemma highlight_spec (image : Image) (scaleX scaleY : num)
    (diff : RawDifference) (index : nat) (ctx : Canvas) (w : World) :
  font ctx = "bold 12px Arial" -> lineWidth ctx = num_of_Z 3 ->
  exists ctx' entries,
    highlight image scaleX scaleY diff index ctx w = (Returned ctx', with_console entries w)
    /\ ops ctx'
       = ops ctx ++ highlight_ops image scaleX scaleY (strokeStyle ctx) (fillStyle ctx)
                      index diff
    /\ font ctx' = font ctx /\ lineWidth ctx' = lineWidth ctx
    /\ canvas_width ctx' = canvas_width ctx /\ canvas_height ctx' = canvas_height ctx
    /\ strokeStyle ctx'
       = match highlight_area diff with Some _ => "black" | None => strokeStyle ctx end
    /\ fillStyle ctx'
       = match highlight_area diff with Some _ => "white" | None => fillStyle ctx end.
Proof.
  intros Hfont Hline. unfold highlight, highlight_ops.
  destruct (highlight_area diff) as [area|].
  - eexists _, [_]. split; [reflexivity|].
    destruct (select_colorScheme (type diff)) as [colorScheme|];
      cbn [ops font lineWidth canvas_width canvas_height fillStyle strokeStyle
           fillText strokeText fillRect strokeRect set_fillStyle set_strokeStyle draw
           assign_strokeStyle assign_fillStyle fmap option_fmap option_map default
           from_option];
      rewrite Hfont, Hline, <- !app_assoc; repeat split; reflexivity.
  - exists ctx, []. rewrite with_console_nil, app_nil_r. repeat split; reflexivity.
Qed.

Lemma forEach_highlight (image : Image) (scaleX scaleY : num) (l : list RawDifference) :
  forall (index : nat) (ctx : Canvas) (w : World),
    font ctx = "bold 12px Arial" -> lineWidth ctx = num_of_Z 3 ->
    exists ctx' entries,
      forEach_from (highlight image scaleX scaleY) index l ctx w
      = (Returned ctx', with_console entries w)
      /\ ops ctx'
         = ops ctx ++ loop_ops image scaleX scaleY (strokeStyle ctx) (fillStyle ctx) index l
      /\ canvas_width ctx' = canvas_width ctx /\ canvas_height ctx' = canvas_height ctx.
Proof.
  induction l as [|diff l IH]; intros index ctx w Hfont Hline.
  - exists ctx, []. cbn [forEach_from loop_ops].
    rewrite with_console_nil, app_nil_r. repeat split; reflexivity.
  - destruct (highlight_spec image scaleX scaleY diff index ctx w Hfont Hline)
      as (ctx1 & es1 & Hh & Hops1 & Hf1 & Hl1 & Hw1 & Hh1 & Hs1 & Hfill1).
    destruct (IH (S index) ctx1 (with_console es1 w)) as (ctx2 & es2 & Hr & Hops2 & Hw2 & Hh2);
      [congruence..|].
    exists ctx2, (es1 ++ es2). cbn [forEach_from]. unfold mbind, M_bind. rewrite Hh, Hr.
    rewrite with_console_app. split; [reflexivity|].
    rewrite Hops2, Hops1, Hs1, Hfill1, <- app_assoc. cbn [loop_ops].
    split; [|split; congruence].
    destruct (highlight_area diff); reflexivity.
Qed.

Lemma createHighlightedImage_empty (imagePath : string) (differencesObj : DifferencesPayload)
    (processedDims : Dimensions) (w : World) :
  differences differencesObj = [] ->
  createHighlightedImage imagePath differencesObj processedDims w
  = (Returned None,
     with_console [console_log_entry [LogStr "ℹ️ No differences detected to highlight"]] w).
Proof.
  intros Hd. unfold createHighlightedImage. rewrite Hd. reflexivity.
Qed.

Lemma createHighlightedImage_load_failure (imagePath : string)
    (differencesObj : DifferencesPayload) (processedDims : Dimensions)
    (error : JsError) (w : World) :
  differences differencesObj <> [] ->
  loadImage_result imagePath = inl error ->
  createHighlightedImage imagePath differencesObj processedDims w
  = (Returned None,
     with_console [console_error_entry [LogStr "❌ Error creating highlighted image:";
                                        LogError error]]
       (with_calls [CallLoadImage imagePath] w)).
Proof.
  intros Hd Hload. unfold createHighlightedImage.
  rewrite bool_decide_eq_false_2 by (destruct (differences differencesObj); [congruence|discriminate]).
  unfold try_catch, loadImage. cbn. rewrite Hload. reflexivity.
Qed.


End Renderer.

Section Rendering.
Context `{Platform}.

Lemma ensureOutputDir_ok (w : World) :
  outputDir ∈ dirs w \/ fs_mkdirSync_error outputDir = None ->
  exists w',
    ensureOutputDir w = (Returned outputDir, w')
    /\ files w' = files w /\ clock w' = clock w.
Proof.
  intros Hdir. unfold ensureOutputDir, fs_existsSync.
  cbv beta iota delta [mbind M_bind mret M_ret]. fold outputDir.
  case_bool_decide as Hin; cbn [negb].
  - eexists. repeat split; reflexivity.
  - destruct Hdir as [Hdir|Hdir]; [contradiction|].
    unfold fs_mkdirSync, record_call. cbv beta iota delta [mbind M_bind].
    rewrite Hdir. eexists. repeat split; reflexivity.
Qed.

Lemma createHighlightedImage_renders (imagePath : string)
    (differencesObj : DifferencesPayload) (processedDims : Dimensions)
    (image : Image) (w : World) :
  differences differencesObj <> [] ->
  loadImage_result imagePath = inr image ->
  output_ok imagePath w ->
  exists rendered w',
    createHighlightedImage imagePath differencesObj processedDims w
    = (Returned (Some (outputPath_at imagePath (clock w))), w')
    /\ files w' = <[outputPath_at imagePath (clock w) := rendered]> (files w)
    /\ canvas_width rendered = image_width image
    /\ canvas_height rendered = num_add (image_height image) legendHeight
    /\ ops rendered
       = legend_ops image (length (differences differencesObj))
         ++ loop_ops image
              (num_div (image_width image) (width processedDims))
              (num_div (image_height image) (height processedDims))
              "#000000" "black" 0 (differences differencesObj).
Proof.
  intros Hd Hload [Hdir Hwrite]. unfold createHighlightedImage.
  rewrite bool_decide_eq_false_2 by (destruct (differences differencesObj); [congruence|discriminate]).
  unfold try_catch, loadImage, createCanvas.
  cbv beta iota delta [mbind M_bind mret M_ret record_call].
  rewrite Hload. cbv beta iota.
  match goal with
  | |- context [forEach ?f ?l ?c ?w0] =>
      destruct (forEach_highlight image
                  (num_div (image_width image) (width processedDims))
                  (num_div (image_height image) (height processedDims))
                  l 0%nat c w0 eq_refl eq_refl) as (ctx' & es & Hrun & Hops & Hcw & Hch)
  end.
  unfold forEach. rewrite Hrun. cbv beta iota. clear Hrun.
  cbn [ops canvas_width canvas_height set_lineWidth set_font fillText set_fillStyle
       fillRect drawCanvas drawImage draw blank_canvas fillStyle font app]
    in Hops, Hcw, Hch.
  match goal with
  | |- context [ensureOutputDir ?w0] =>
      destruct (ensureOutputDir_ok w0 Hdir) as (w1 & Hout & Hfiles & Hclock)
  end.
  rewrite Hout. cbv beta iota delta [fmap M_fmap new_Date_toISOString].
  rewrite Hclock. cbn [clock with_console with_calls].
  unfold fs_writeFile, record_call. cbv beta iota delta [mbind M_bind].
  fold outputDir. fold (outputPath_at imagePath (clock w)). rewrite Hwrite.
  cbv beta iota delta [console_log emit mret M_ret].
  eexists _, _. split; [reflexivity|].
  cbn [files with_console with_calls toBuffer]. rewrite Hfiles.
  cbn [files with_console with_calls].
  split; [reflexivity|]. unfold toBuffer. rewrite Hcw, Hch, Hops. repeat split.
Qed.
End Rendering.

(** ** [compareImages] *)

Section Comparing.
Context `{Platform}.

Ltac run_prelude Hpre :=
  destruct Hpre as (Ha1 & Ha2 & b1 & b2 & Hr1 & Hr2 & Hmsg);
  unfold compareImages, try_catch, Promise_all, access_or_error, messages_create,
    record_call, console_log, emit;
  cbv beta iota delta [mbind M_bind mret M_ret];
  rewrite Ha1; cbv beta iota; rewrite Ha2; cbv beta iota;
  rewrite Hr1; cbv beta iota; rewrite Hr2; cbv beta iota delta [fst snd];
  rewrite Hmsg; cbv beta iota.

Lemma after_prelude_calls (image1Path image2Path : string) (w : World) :
  calls (after_prelude image1Path image2Path w)
  = calls w ++ prelude_calls image1Path image2Path.
Proof. unfold after_prelude. cbn. rewrite <- !app_assoc. reflexivity. Qed.

(** The extraction of the dimensions fails: the error is logged and
    rethrown. *)
Lemma compareImages_dimensions_thrown (image1Path image2Path content : string)
    (error : JsError) (w : World) :
  prelude_ok image1Path image2Path content ->
  let w0 := after_prelude image1Path image2Path w in
  extractJsonObject JSON_parse_dimensions content "processed_dimensions" w0
  = (Thrown error, with_console (extraction_log "processed_dimensions" content error) w0) ->
  compareImages image1Path image2Path w
  = (Thrown error,
     with_console (comparison_error_log error)
       (with_console (extraction_log "processed_dimensions" content error) w0)).
Proof.
  intros Hpre w0 Hx. run_prelude Hpre. fold (after_prelude image1Path image2Path w). fold w0. rewrite Hx. reflexivity.
Qed.

(** The extraction of the differences fails. *)
Lemma compareImages_differences_thrown (image1Path image2Path content : string)
    (processedDimensions : Parsed ProcessedDimensionsPayload) (error : JsError)
    (w : World) :
  prelude_ok image1Path image2Path content ->
  let w0 := after_prelude image1Path image2Path w in
  extractJsonObject JSON_parse_dimensions content "processed_dimensions" w0
  = (Returned processedDimensions, w0) ->
  extractJsonObject JSON_parse_differences content "differences" w0
  = (Thrown error, with_console (extraction_log "differences" content error) w0) ->
  compareImages image1Path image2Path w
  = (Thrown error,
     with_console (comparison_error_log error)
       (with_console (extraction_log "differences" content error) w0)).
Proof.
  intros Hpre w0 Hx1 Hx2. run_prelude Hpre. fold (after_prelude image1Path image2Path w). fold w0. rewrite Hx1. cbv beta iota.
  rewrite Hx2. reflexivity.
Qed.

(** Both payloads are extracted: the result is built from the path that
    [createHighlightedImage] returns. *)
Lemma compareImages_returned (image1Path image2Path content : string)
    (processedDimensions : ProcessedDimensionsPayload)
    (differencesObj : DifferencesPayload) (outputPath : option string) (w w2 : World) :
  prelude_ok image1Path image2Path content ->
  extracts JSON_parse_dimensions content "processed_dimensions" processedDimensions ->
  extracts JSON_parse_differences content "differences" differencesObj ->
  createHighlightedImage image2Path differencesObj
    (image2 (processed_dimensions processedDimensions))
    (after_extraction image1Path image2Path processedDimensions differencesObj w)
  = (Returned outputPath, w2) ->
  compareImages image1Path image2Path w
  = (Returned {| processedDimensions := processedDimensions;
                 result_differences := differencesObj;
                 analysis := content;
                 highlightedImagePath := outputPath;
                 timestamp := toISOString (clock w2) |},
     {| files := files w2; dirs := dirs w2; console := console w2;
        clock := S (clock w2); calls := calls w2 |}).
Proof.
  intros Hpre (m1 & Hm1 & Hp1) (m2 & Hm2 & Hp2) Hc. run_prelude Hpre.
  fold (after_prelude image1Path image2Path w).
  rewrite (extractJsonObject_found _ _ _ _ _ _ Hm1 Hp1). cbv beta iota.
  rewrite (extractJsonObject_found _ _ _ _ _ _ Hm2 Hp2).
  cbv beta iota delta [read_member mret M_ret].
  fold (after_extraction image1Path image2Path processedDimensions differencesObj w).
  rewrite Hc. reflexivity.
Qed.

End Comparing.

(** ** What the rendered canvas shows *)

Lemma positions_with_area_snoc (l : list RawDifference) (d : RawDifference) :
  positions_with_area (l ++ [d])
  = positions_with_area l ++ (if has_area d then [length l] else []).
Proof.
  unfold positions_with_area.
  rewrite length_app. cbn [length]. rewrite Nat.add_1_r, seq_S, List.filter_app.
  cbn [List.filter Nat.add]. rewrite list_lookup_middle by reflexivity.
  f_equal. apply List.filter_ext_in. intros j Hj. apply in_seq in Hj.
  rewrite lookup_app_l by lia. reflexivity.
Qed.

Lemma positions_with_area_spec (l : list RawDifference) (i : nat) :
  i ∈ positions_with_area l
  <-> exists d area, l !! i = Some d /\ highlight_area d = Some area.
Proof.
  unfold positions_with_area. rewrite list_elem_of_In, List.filter_In, in_seq.
  unfold has_area. split.
  - intros [_ Hi]. destruct (l !! i) as [d|]; [|discriminate].
    destruct (highlight_area d) as [area|] eqn:Ha; [eauto|discriminate].
  - intros (d & area & Hl & Ha). split.
    + apply lookup_lt_Some in Hl. lia.
    + rewrite Hl, Ha. reflexivity.
Qed.

Lemma filter_fmap_S (f : nat -> bool) (l : list nat) :
  List.filter f (S <$> l) = S <$> List.filter (fun i => f (S i)) l.
Proof.
  induction l as [|i l IH]; [reflexivity|]. cbn [fmap list_fmap List.filter].
  destruct (f (S i)); cbn [fmap list_fmap]; rewrite <- IH; reflexivity.
Qed.

Lemma positions_with_area_cons (d : RawDifference) (l : list RawDifference) :
  positions_with_area (d :: l)
  = (if has_area d then [0%nat] else []) ++ (S <$> positions_with_area l).
Proof.
  unfold positions_with_area. cbn [length seq List.filter lookup list_lookup].
  rewrite <- fmap_S_seq, filter_fmap_S. destruct (has_area d); reflexivity.
Qed.

Lemma omap_fmap_S {B : Type} (g : nat -> option B) (l : list nat) :
  omap g (S <$> l) = omap (fun i => g (S i)) l.
Proof.
  induction l as [|i l IH]; [reflexivity|]. cbn. rewrite IH. reflexivity.
Qed.

(** An observation that sees one value in the drawing calls of a record
    with a highlight area sees, on the whole loop, the values of the records
    at the positions with an area, in increasing order of position. *)
Lemma omap_highlights {B : Type} (obs : DrawOp -> option B) (val : nat -> Box -> B)
    (image : Image) (scaleX scaleY : num) :
  (forall strokeStyle0 fillStyle0 i d area,
      highlight_area d = Some area ->
      omap obs (highlight_ops image scaleX scaleY strokeStyle0 fillStyle0 i d)
      = [val i area]) ->
  forall l strokeStyle0 fillStyle0 index,
    omap obs (loop_ops image scaleX scaleY strokeStyle0 fillStyle0 index l)
    = omap (fun i => val (index + i)%nat <$> (l !! i ≫= highlight_area))
        (positions_with_area l).
Proof.
  intros Hobs l. induction l as [|d l IH]; intros strokeStyle0 fillStyle0 index;
    [reflexivity|].
  cbn [loop_ops]. rewrite omap_app, positions_with_area_cons, omap_app, omap_fmap_S.
  assert (Htail : forall s f,
             omap obs (loop_ops image scaleX scaleY s f (S index) l)
             = omap (fun i => val (index + S i)%nat <$> ((d :: l) !! S i ≫= highlight_area))
                 (positions_with_area l)).
  { intros s f. rewrite IH. apply list_omap_ext, Forall2_same_length_lookup.
    split; [reflexivity|]. intros i j1 j2 Hj1 Hj2. assert (j1 = j2) as <- by congruence.
    cbn [lookup list_lookup]. rewrite Nat.add_succ_r. reflexivity. }
  unfold has_area. destruct (highlight_area d) as [area|] eqn:Ha.
  - rewrite (Hobs _ _ _ _ _ Ha), Htail. cbn. rewrite Ha, Nat.add_0_r. reflexivity.
  - rewrite Htail. unfold highlight_ops. rewrite Ha. reflexivity.
Qed.

Lemma omap_fmap_on {A B : Type} (g : A -> option B) (f : A -> B) (l : list A) :
  (forall x, x ∈ l -> g x = Some (f x)) -> omap g l = f <$> l.
Proof.
  induction l as [|x l IH]; intros Hg; [reflexivity|].
  cbn. rewrite (Hg x) by constructor. cbn. f_equal.
  apply IH. intros y Hy. apply Hg. now constructor.
Qed.

(** The texts stroked by the loop are the 1-based positions of the records
    with a highlight area. *)
Lemma labels_highlights (image : Image) (scaleX scaleY : num)
    (strokeStyle0 fillStyle0 : string) (l : list RawDifference) :
  omap label_of (loop_ops image scaleX scaleY strokeStyle0 fillStyle0 0 l)
  = (fun i => nat_to_string (i + 1)) <$> positions_with_area l.
Proof.
  rewrite (omap_highlights label_of (fun i _ => nat_to_string (i + 1))).
  - apply omap_fmap_on. intros i Hi. apply positions_with_area_spec in Hi.
    destruct Hi as (d & area & -> & Ha). cbn. rewrite Ha. reflexivity.
  - intros s f i d area Ha. unfold highlight_ops. rewrite Ha. reflexivity.
Qed.

(** The rectangles stroked by the loop are the scaled highlight areas of
    those records. *)
Lemma stroke_rects_highlights (image : Image) (scaleX scaleY : num)
    (strokeStyle0 fillStyle0 : string) (l : list RawDifference) :
  omap stroke_rect_of (loop_ops image scaleX scaleY strokeStyle0 fillStyle0 0 l)
  = omap (fun i => rect_of ∘ scaleBox image scaleX scaleY <$> (l !! i ≫= highlight_area))
      (positions_with_area l).
Proof.
  apply (omap_highlights stroke_rect_of
           (fun _ area => rect_of (scaleBox image scaleX scaleY area))).
  intros s f i d area Ha. unfold highlight_ops. rewrite Ha. reflexivity.
Qed.

(** * The claims *)

(** ** C1: the scale factors and the scaled coordinates *)

(** C1.  For a record with a highlight area [{x1, y1, x2, y2}], the scale
    factors are [image.width / processedDims.width] and
    [image.height / processedDims.height], the canonical coordinates are
    [max(0, x1 * scaleX)], [max(0, y1 * scaleY)], [min(image.width, x2 * scaleX)]
    and [min(image.height, y2 * scaleY)], and the rectangle stroked in the
    written image has that corner and the differences of those coordinates as
    its width and height. *)
Theorem scaled_coordinates_formula `{Platform} (imagePath : string)
    (differencesObj : DifferencesPayload) (processedDims : Dimensions)
    (image : Image) (w : World) (i : nat) (diff : RawDifference) (area : Box) :
  loadImage_result imagePath = inr image ->
  output_ok imagePath w ->
  differences differencesObj !! i = Some diff ->
  highlight_area diff = Some area ->
  let scaleX := num_div (image_width image) (width processedDims) in
  let scaleY := num_div (image_height image) (height processedDims) in
  let X1 := Math_max num_zero (num_mul (x1 area) scaleX) in
  let Y1 := Math_max num_zero (num_mul (y1 area) scaleY) in
  let X2 := Math_min (image_width image) (num_mul (x2 area) scaleX) in
  let Y2 := Math_min (image_height image) (num_mul (y2 area) scaleY) in
  scaleBox image scaleX scaleY area
  = {| scaledX1 := X1; scaledY1 := Y1; scaledX2 := X2; scaledY2 := Y2;
       box_width := num_sub X2 X1; box_height := num_sub Y2 Y1 |}
  /\ exists rendered w',
       createHighlightedImage imagePath differencesObj processedDims w
       = (Returned (Some (outputPath_at imagePath (clock w))), w')
       /\ files w' !! outputPath_at imagePath (clock w) = Some rendered
       /\ (X1, Y1, num_sub X2 X1, num_sub Y2 Y1) ∈ stroke_rects rendered.
Proof.
  intros Hload Hout Hi Harea scaleX scaleY X1 Y1 X2 Y2.
  split; [reflexivity|].
  assert (Hne : differences differencesObj <> []) by (intros Hnil; rewrite Hnil in Hi; discriminate).
  destruct (createHighlightedImage_renders imagePath differencesObj processedDims image w
              Hne Hload Hout) as (rendered & w' & Hrun & Hfiles & _ & _ & Hops).
  exists rendered, w'. split; [exact Hrun|]. split.
  - rewrite Hfiles. apply lookup_insert_eq.
  - unfold stroke_rects. rewrite Hops, omap_app, stroke_rects_highlights.
    apply elem_of_app. right. apply list_elem_of_omap. exists i. split.
    + apply positions_with_area_spec. eauto.
    + rewrite Hi. cbn. rewrite Harea. reflexivity.
Qed.

Lemma scaled_coordinates_formula_witness :
  scaleBox scenario_image (num_div (num_of_Z 800) (num_of_Z 400))
    (num_div (num_of_Z 600) (num_of_Z 300)) scenario_area
  = {| scaledX1 := num_of_Z 100; scaledY1 := num_of_Z 100;
       scaledX2 := num_of_Z 300; scaledY2 := num_of_Z 200;
       box_width := num_of_Z 200; box_height := num_of_Z 100 |}
  /\ exists rendered w',
       @createHighlightedImage demo_platform "uploads/2.png" scenario_differences
         {| width := num_of_Z 400; height := num_of_Z 300 |} empty_world
       = (Returned (Some (@outputPath_at demo_platform "uploads/2.png" 0)), w')
       /\ files w' !! @outputPath_at demo_platform "uploads/2.png" 0 = Some rendered
       /\ (num_of_Z 100, num_of_Z 100, num_of_Z 200, num_of_Z 100) ∈ stroke_rects rendered.
Proof.
  apply (@scaled_coordinates_formula demo_platform "uploads/2.png" scenario_differences
           {| width := num_of_Z 400; height := num_of_Z 300 |} scenario_image empty_world
           0%nat scenario_difference scenario_area).
  - reflexivity.
  - split; [right|]; reflexivity.
  - reflexivity.
  - reflexivity.
Defined.

(** ** C2: ordering and clamping of the scaled coordinates *)

(** C2, as stated, fails.  With equal claimed and true dimensions (800x600,
    scale factors 1), the highlight area of the example in the prompt of
    [compareImages], [{x1: 113, y1: 446, x2: 799, y2: 111}], keeps
    [y1 = 446 > y2 = 111]; and an area that starts at [x1 = 900], right of
    the frame, keeps [x1 = 900 > 800]. *)
Lemma scaled_box_ordered_counterexample :
  num_leb
    (scaledY1 (scaleBox frame_image (num_div (num_of_Z 800) (num_of_Z 800))
                 (num_div (num_of_Z 600) (num_of_Z 600)) prompt_example_area))
    (scaledY2 (scaleBox frame_image (num_div (num_of_Z 800) (num_of_Z 800))
                 (num_div (num_of_Z 600) (num_of_Z 600)) prompt_example_area))
  = false
  /\ num_leb
       (scaledX1 (scaleBox frame_image (num_div (num_of_Z 800) (num_of_Z 800))
                    (num_div (num_of_Z 600) (num_of_Z 600)) outside_area))
       (image_width frame_image)
     = false
  /\ num_leb
       (scaledX1 (scaleBox frame_image (num_div (num_of_Z 800) (num_of_Z 800))
                    (num_div (num_of_Z 600) (num_of_Z 600)) outside_area))
       (scaledX2 (scaleBox frame_image (num_div (num_of_Z 800) (num_of_Z 800))
                    (num_div (num_of_Z 600) (num_of_Z 600)) outside_area))
     = false.
Proof. vm_compute. repeat split. Qed.

(** C2, amended.  When the scaled products and the image dimensions are
    numbers (not NaN), the first corner is clamped from below only, [x1 >= 0]
    and [y1 >= 0], and the second corner from above only, [x2 <= image.width]
    and [y2 <= image.height]: a first coordinate above zero is kept as it
    is, however large, and a second coordinate below the image dimension is
    kept as it is, however small.  On an axis where the scaled input is
    ordered and overlaps the frame, the clamped coordinates are ordered and
    both lie in the frame.  Nothing is reordered or pulled into the frame: on
    an axis where the scaled input is reversed the clamped coordinates are
    reversed, a first coordinate beyond the far edge stays beyond it, and a
    second coordinate below zero stays below zero. *)
Theorem scaled_box_bounds (image : Image) (processedDims : Dimensions) (area : Box) :
  let scaleX := num_div (image_width image) (width processedDims) in
  let scaleY := num_div (image_height image) (height processedDims) in
  let b := scaleBox image scaleX scaleY area in
  is_nan (image_width image) = false ->
  is_nan (image_height image) = false ->
  is_nan (num_mul (x1 area) scaleX) = false ->
  is_nan (num_mul (y1 area) scaleY) = false ->
  is_nan (num_mul (x2 area) scaleX) = false ->
  is_nan (num_mul (y2 area) scaleY) = false ->
  (num_leb num_zero (scaledX1 b) = true
   /\ num_leb num_zero (scaledY1 b) = true
   /\ num_leb (scaledX2 b) (image_width image) = true
   /\ num_leb (scaledY2 b) (image_height image) = true)
  /\ (num_leb (num_mul (x1 area) scaleX) (num_mul (x2 area) scaleX) = true ->
      num_leb num_zero (num_mul (x2 area) scaleX) = true ->
      num_leb (num_mul (x1 area) scaleX) (image_width image) = true ->
      num_leb num_zero (image_width image) = true ->
      num_leb (scaledX1 b) (scaledX2 b) = true
      /\ num_leb (scaledX1 b) (image_width image) = true
      /\ num_leb num_zero (scaledX2 b) = true)
  /\ (num_leb (num_mul (y1 area) scaleY) (num_mul (y2 area) scaleY) = true ->
      num_leb num_zero (num_mul (y2 area) scaleY) = true ->
      num_leb (num_mul (y1 area) scaleY) (image_height image) = true ->
      num_leb num_zero (image_height image) = true ->
      num_leb (scaledY1 b) (scaledY2 b) = true
      /\ num_leb (scaledY1 b) (image_height image) = true
      /\ num_leb num_zero (scaledY2 b) = true)
  /\ ((num_ltb num_zero (num_mul (x1 area) scaleX) = true ->
       scaledX1 b = num_mul (x1 area) scaleX)
      /\ (num_ltb num_zero (num_mul (y1 area) scaleY) = true ->
          scaledY1 b = num_mul (y1 area) scaleY)
      /\ (num_ltb (num_mul (x2 area) scaleX) (image_width image) = true ->
          scaledX2 b = num_mul (x2 area) scaleX)
      /\ (num_ltb (num_mul (y2 area) scaleY) (image_height image) = true ->
          scaledY2 b = num_mul (y2 area) scaleY))
  /\ ((num_ltb (num_mul (x2 area) scaleX) (num_mul (x1 area) scaleX) = true ->
       num_ltb (scaledX2 b) (scaledX1 b) = true)
      /\ (num_ltb (image_width image) (num_mul (x1 area) scaleX) = true ->
          num_ltb (image_width image) (scaledX1 b) = true)
      /\ (num_ltb (num_mul (x2 area) scaleX) num_zero = true ->
          num_ltb (scaledX2 b) num_zero = true))
  /\ ((num_ltb (num_mul (y2 area) scaleY) (num_mul (y1 area) scaleY) = true ->
       num_ltb (scaledY2 b) (scaledY1 b) = true)
      /\ (num_ltb (image_height image) (num_mul (y1 area) scaleY) = true ->
          num_ltb (image_height image) (scaledY1 b) = true)
      /\ (num_ltb (num_mul (y2 area) scaleY) num_zero = true ->
          num_ltb (scaledY2 b) num_zero = true)).
Proof.
  intros scaleX scaleY b HW HH Hx1 Hy1 Hx2 Hy2. unfold b, scaleBox.
  cbn [scaledX1 scaledY1 scaledX2 scaledY2].
  split; [|split; [|split; [|split; [|split]]]].
  - auto using Math_max_zero_lower, Math_min_upper.
  - intros. apply clamp_ordered; assumption.
  - intros. apply clamp_ordered; assumption.
  - auto using Math_max_zero_pos, Math_min_below.
  - apply clamp_keeps; assumption.
  - apply clamp_keeps; assumption.
Qed.

(** On the 800x600 frame at the scale factors 1, the area
    (-10, 446)-(900, 111) has both x coordinates clamped, to 0 and to 800,
    and keeps its reversed y coordinates 446 and 111. *)
Lemma scaled_box_bounds_witness :
  (scaledX1 clamped_box = num_zero /\ scaledX2 clamped_box = num_of_Z 800)
  /\ (num_leb num_zero (scaledX1 clamped_box) = true
      /\ num_leb num_zero (scaledY1 clamped_box) = true
      /\ num_leb (scaledX2 clamped_box) (num_of_Z 800) = true
      /\ num_leb (scaledY2 clamped_box) (num_of_Z 600) = true)
  /\ (num_leb (scaledX1 clamped_box) (scaledX2 clamped_box) = true
      /\ num_leb (scaledX1 clamped_box) (num_of_Z 800) = true
      /\ num_leb num_zero (scaledX2 clamped_box) = true)
  /\ scaledY1 clamped_box
     = num_mul (num_of_Z 446) (num_div (num_of_Z 600) (num_of_Z 600))
  /\ scaledY2 clamped_box
     = num_mul (num_of_Z 111) (num_div (num_of_Z 600) (num_of_Z 600))
  /\ num_ltb (scaledY2 clamped_box) (scaledY1 clamped_box) = true.
Proof.
  destruct (scaled_box_bounds frame_image frame_dimensions overhanging_reversed_area)
    as (Hclamp & Hx & _ & (_ & Hy1 & _ & Hy2) & _ & (Hrev & _)); try reflexivity.
  split; [split; vm_compute; reflexivity|].
  split; [exact Hclamp|]. split; [apply Hx; reflexivity|].
  split; [apply Hy1; reflexivity|].
  split; [apply Hy2; reflexivity|].
  apply Hrev. reflexivity.
Defined.

(** ** C3: a claimed dimension of zero *)




(** ** C10: equal claimed and true dimensions *)

(** C10, as stated, fails.  With claimed and true dimensions both 800x600,
    an area that starts left of the frame, at [x1 = -10], gets [x1 = 0], and
    one that ends right of it, at [x2 = 900], gets [x2 = 800]. *)
Lemma equal_dimensions_counterexample :
  num_div (image_width frame_image) (width frame_dimensions) = num_one
  /\ num_div (image_height frame_image) (height frame_dimensions) = num_one
  /\ scaledX1 (scaleBox frame_image num_one num_one overhanging_area) = num_zero
  /\ num_eqb (scaledX1 (scaleBox frame_image num_one num_one overhanging_area))
       (x1 overhanging_area) = false
  /\ scaledX2 (scaleBox frame_image num_one num_one overhanging_area) = num_of_Z 800
  /\ num_eqb (scaledX2 (scaleBox frame_image num_one num_one overhanging_area))
       (x2 overhanging_area) = false.
Proof. vm_compute. repeat split. Qed.

(** C10, amended.  If the claimed dimensions equal the true image dimensions
    (finite and not zero), both scale factors are exactly 1; and a highlight
    area with [x1 >= 0], [y1 >= 0], [x2 <= image.width] and
    [y2 <= image.height] keeps its four coordinates: each canonical
    coordinate is [===] to the input coordinate. *)
Theorem equal_dimensions_keep_coordinates (image : Image) (processedDims : Dimensions)
    (area : Box) :
  is_finite_nonzero (image_width image) = true ->
  is_finite_nonzero (image_height image) = true ->
  width processedDims = image_width image ->
  height processedDims = image_height image ->
  valid_num (x1 area) = true -> valid_num (y1 area) = true ->
  valid_num (x2 area) = true -> valid_num (y2 area) = true ->
  num_leb num_zero (x1 area) = true ->
  num_leb num_zero (y1 area) = true ->
  num_leb (x2 area) (image_width image) = true ->
  num_leb (y2 area) (image_height image) = true ->
  let scaleX := num_div (image_width image) (width processedDims) in
  let scaleY := num_div (image_height image) (height processedDims) in
  let b := scaleBox image scaleX scaleY area in
  scaleX = num_one /\ scaleY = num_one
  /\ num_eqb (scaledX1 b) (x1 area) = true
  /\ num_eqb (scaledY1 b) (y1 area) = true
  /\ num_eqb (scaledX2 b) (x2 area) = true
  /\ num_eqb (scaledY2 b) (y2 area) = true.
Proof.
  intros HW HH -> -> Vx1 Vy1 Vx2 Vy2 Hx1 Hy1 Hx2 Hy2 scaleX scaleY b.
  assert (HsX : scaleX = num_one) by (apply num_div_self, HW).
  assert (HsY : scaleY = num_one) by (apply num_div_self, HH).
  unfold b, scaleBox. cbn [scaledX1 scaledY1 scaledX2 scaledY2].
  rewrite HsX, HsY, !num_mul_one by assumption.
  auto 10 using Math_max_zero_id, Math_min_id.
Qed.

Lemma equal_dimensions_keep_coordinates_witness :
  num_div (num_of_Z 800) (num_of_Z 800) = num_one
  /\ num_div (num_of_Z 600) (num_of_Z 600) = num_one
  /\ num_eqb (scaledX1 (scaleBox frame_image (num_div (num_of_Z 800) (num_of_Z 800))
                          (num_div (num_of_Z 600) (num_of_Z 600)) scenario_area))
       (num_of_Z 50) = true
  /\ num_eqb (scaledY1 (scaleBox frame_image (num_div (num_of_Z 800) (num_of_Z 800))
                          (num_div (num_of_Z 600) (num_of_Z 600)) scenario_area))
       (num_of_Z 50) = true
  /\ num_eqb (scaledX2 (scaleBox frame_image (num_div (num_of_Z 800) (num_of_Z 800))
                          (num_div (num_of_Z 600) (num_of_Z 600)) scenario_area))
       (num_of_Z 150) = true
  /\ num_eqb (scaledY2 (scaleBox frame_image (num_div (num_of_Z 800) (num_of_Z 800))
                          (num_div (num_of_Z 600) (num_of_Z 600)) scenario_area))
       (num_of_Z 100) = true.
Proof.
  apply (equal_dimensions_keep_coordinates frame_image frame_dimensions scenario_area);
    reflexivity.
Defined.

(** ** C4: the extraction round trip *)

(** C4, as stated, fails.  The text below is leading prose followed by the
    fenced block of [{ "differences": [] }], which [JSON.parse] reads.  The
    prose contains the opening of a block for the same name that is never
    closed, so the first match runs from that opening to the closing fence of
    the block, its capture is not JSON, and the extraction throws the
    [SyntaxError] instead of recovering the value. *)
Lemma extraction_round_trip_counterexample :
  unclosed_opening_response
  = unclosed_opening_prose +:+ fence_open +:+ empty_differences_text +:+ fence_close +:+ LF
  /\ @JSON_parse_differences demo_platform empty_differences_text
     = inr (Shaped {| differences := [] |})
  /\ regex_match "differences" unclosed_opening_response
     = Some ("{ " +:+ quoted "differences" +:+ ": ... and so on." +:+ LF +:+
             fence_open +:+ empty_differences_text)
  /\ fst (extractJsonObject (@JSON_parse_differences demo_platform)
            unclosed_opening_response "differences" empty_world)
     = Thrown (SyntaxError "Unexpected token").
Proof. vm_compute. repeat split. Qed.

(** C4, amended.  Let the text be leading prose, an opening fence, the
    serialized object [s], a closing fence and trailing prose, where [s]
    starts with an opening brace, white space and the quoted object name,
    ends with a closing brace, does not contain a closing brace directly
    followed by the closing fence, and is read by [JSON.parse] as [v].  If no
    match attempt that starts in the leading prose succeeds, the extraction
    with that name returns [v] and leaves the world unchanged, whatever the
    trailing prose is: of several blocks for a name the first is used.  This
    holds for every object name made of word characters, so for both names
    independently. *)
Theorem extraction_round_trip {A : Type} (parse : string -> string + A)
    (objectName pre ws body post : string) (v : A) (w : World) :
  let s := "{" +:+ ws +:+ quoted objectName +:+ body +:+ "}" in
  let blob := pre +:+ fence_open +:+ s +:+ fence_close +:+ post in
  is_word_name objectName = true ->
  string_forallb is_space ws = true ->
  includes s closing = false ->
  parse s = inr v ->
  no_match_before objectName blob (String.length pre) = true ->
  regex_match objectName blob = Some s
  /\ extractJsonObject parse blob objectName w = (Returned v, w).
Proof.
  intros s blob _ Hws Hclosing Hparse Hpre.
  assert (Hm : regex_match objectName blob = Some s).
  { unfold blob. rewrite regex_match_skip by exact Hpre.
    pose proof (match_here_block objectName ws body post Hws Hclosing) as Hhere.
    fold s in Hhere.
    destruct (fence_open +:+ s +:+ fence_close +:+ post) eqn:Ht;
      cbn [regex_match]; rewrite Hhere; reflexivity. }
  split; [exact Hm|].
  exact (extractJsonObject_found parse blob objectName s v w Hm Hparse).
Qed.

Lemma extraction_round_trip_witness :
  regex_match "differences" scenario_response = Some differences_text
  /\ extractJsonObject (@JSON_parse_differences demo_platform) scenario_response
       "differences" empty_world
     = (Returned (Shaped scenario_differences), empty_world).
Proof.
  apply (extraction_round_trip (@JSON_parse_differences demo_platform) "differences"
           scenario_prose " " differences_body (LF +:+ "Done.")
           (Shaped scenario_differences) empty_world);
    vm_compute; reflexivity.
Defined.

(** ** C5: the errors of the extraction *)

(** C5, as stated, fails.  For the answer of the scenario without its
    [differences] block, the extraction throws the error "Could not find
    differences JSON block in the response"; the error names the object but
    does not carry the original text. *)
Lemma extraction_error_counterexample :
  fst (extractJsonObject (@JSON_parse_differences demo_platform)
         missing_block_response "differences" empty_world)
  = Thrown {| name := "Error";
              message := "Could not find differences JSON block in the response" |}
  /\ error_carries (not_found "differences") "differences" = true
  /\ error_carries (not_found "differences") missing_block_response = false.
Proof. vm_compute. repeat split. Qed.

Lemma string_prefix_app (p t : string) : string_prefix p (p +:+ t) = true.
Proof.
  induction p as [|a p IH]; simpl; [reflexivity|].
  now rewrite Ascii.eqb_refl, IH.
Qed.

Lemma not_found_names_object (objectName : string) :
  error_carries (not_found objectName) objectName = true.
Proof.
  unfold error_carries, not_found, Error. cbn [message].
  apply includes_app_l, includes_prefix, string_prefix_app.
Qed.

Section ComparisonErrors.
Context `{Platform}.

(** The world after an extraction failed in [compareImages]: nothing but
    the console and the trace of the prelude has changed. *)
Lemma extraction_thrown_world (image1Path image2Path objectName content : string)
    (error : JsError) (w : World) :
  let w' := with_console (comparison_error_log error)
              (with_console (extraction_log objectName content error)
                 (after_prelude image1Path image2Path w)) in
  files w' = files w /\ dirs w' = dirs w
  /\ calls w' = calls w ++ prelude_calls image1Path image2Path
  /\ console_error_entry [LogStr "Raw content:"; LogStr content] ∈ console w'.
Proof.
  intros w'. split; [reflexivity|]. split; [reflexivity|]. split.
  - apply after_prelude_calls.
  - unfold w'. cbn [console with_console]. unfold extraction_log.
    apply elem_of_app. left. apply elem_of_app. right.
    apply list_elem_of_In. right. left. reflexivity.
Qed.

(** C5, amended.  For an object name made of word characters: when the text
    contains no fenced block keyed by the name, [extractJsonObject] throws an
    [Error] whose message names the object; when a block is matched and
    [JSON.parse] rejects its span, it rethrows the [SyntaxError] of
    [JSON.parse].  In both cases the original text is written to the console
    (entry "Raw content:"), it is not part of the error.  When the answer of
    the service lacks one of the two blocks, [compareImages] throws, no file
    is written, no directory is created, and neither the renderer nor the
    writer is called. *)
Theorem extraction_errors :
  (forall (A : Type) (parse : string -> string + A) (blob objectName : string) (w : World),
      is_word_name objectName = true ->
      ~ has_block objectName blob ->
      extractJsonObject parse blob objectName w
      = (Thrown (not_found objectName),
         with_console (extraction_log objectName blob (not_found objectName)) w)
      /\ error_carries (not_found objectName) objectName = true)
  /\ (forall (A : Type) (parse : string -> string + A)
             (blob objectName match1 m : string) (w : World),
         is_word_name objectName = true ->
         regex_match objectName blob = Some match1 ->
         parse match1 = inl m ->
         extractJsonObject parse blob objectName w
         = (Thrown (SyntaxError m),
            with_console (extraction_log objectName blob (SyntaxError m)) w))
  /\ (forall (image1Path image2Path content : string) (w : World),
         prelude_ok image1Path image2Path content ->
         ~ has_block "processed_dimensions" content \/ ~ has_block "differences" content ->
         exists error w',
           compareImages image1Path image2Path w = (Thrown error, w')
           /\ files w' = files w /\ dirs w' = dirs w
           /\ calls w' = calls w ++ prelude_calls image1Path image2Path
           /\ console_error_entry [LogStr "Raw content:"; LogStr content] ∈ console w').
Proof.
  split; [|split].
  - intros A parse blob objectName w _ Hno. split.
    + apply extractJsonObject_not_found, regex_match_None, Hno.
    + apply not_found_names_object.
  - intros A parse blob objectName match1 m w _ Hm Hp.
    eapply extractJsonObject_malformed; eassumption.
  - intros image1Path image2Path content w Hpre Hno.
    set (w0 := after_prelude image1Path image2Path w).
    destruct (extractJsonObject_cases JSON_parse_dimensions content "processed_dimensions" w0)
      as [[pd Hx1]|[e Hx1]].
    + destruct Hno as [Hno|Hno].
      * apply regex_match_None in Hno.
        rewrite (extractJsonObject_not_found _ _ _ _ Hno) in Hx1. discriminate Hx1.
      * apply regex_match_None in Hno.
        pose proof (extractJsonObject_not_found JSON_parse_differences _ _ w0 Hno) as Hx2.
        eexists _, _. split.
        { exact (compareImages_differences_thrown _ _ _ _ _ _ Hpre Hx1 Hx2). }
        apply extraction_thrown_world.
    + eexists _, _. split.
      { exact (compareImages_dimensions_thrown _ _ _ _ _ Hpre Hx1). }
      apply extraction_thrown_world.
Qed.

End ComparisonErrors.

Lemma extraction_errors_witness :
  exists error w',
    @compareImages (demo_platform_answering missing_block_response)
      "uploads/1.png" "uploads/2.png" empty_world = (Thrown error, w')
    /\ files w' = files empty_world /\ dirs w' = dirs empty_world
    /\ calls w' = calls empty_world ++ prelude_calls "uploads/1.png" "uploads/2.png"
    /\ console_error_entry [LogStr "Raw content:"; LogStr missing_block_response] ∈ console w'.
Proof.
  apply (proj2 (proj2 (@extraction_errors (demo_platform_answering missing_block_response)))).
  - split; [reflexivity|]. split; [reflexivity|].
    exists "uploads/1.png", "uploads/2.png". repeat split.
  - right. intros Hb. apply regex_match_has_block in Hb.
    vm_compute in Hb. destruct Hb as [r Hr]. discriminate Hr.
Defined.

(** ** C6: no differences *)

Section NoDifferences.
Context `{Platform}.

(** C6.  When the extracted list of differences is empty,
    [createHighlightedImage] returns [null] and only writes to the console:
    no image is loaded, no canvas is created, no directory is made and no
    file is written; [compareImages] returns a result whose
    [highlightedImagePath] is [null], and the calls it has made are those up
    to the answer of the service. *)
Theorem no_differences_no_rendering (image1Path image2Path content : string)
    (processedDimensions : ProcessedDimensionsPayload)
    (differencesObj : DifferencesPayload) (w : World) :
  prelude_ok image1Path image2Path content ->
  extracts JSON_parse_dimensions content "processed_dimensions" processedDimensions ->
  extracts JSON_parse_differences content "differences" differencesObj ->
  differences differencesObj = [] ->
  (forall (processedDims : Dimensions) (w0 : World),
      exists entries,
        createHighlightedImage image2Path differencesObj processedDims w0
        = (Returned None, with_console entries w0))
  /\ exists result w',
       compareImages image1Path image2Path w = (Returned result, w')
       /\ highlightedImagePath result = None
       /\ result_differences result = differencesObj
       /\ analysis result = content
       /\ files w' = files w /\ dirs w' = dirs w
       /\ calls w' = calls w ++ prelude_calls image1Path image2Path
       /\ forallb (fun c => negb (is_render_or_write c))
            (prelude_calls image1Path image2Path) = true.
Proof.
  intros Hpre Hdims Hdiffs Hnil. split.
  - intros processedDims w0. eexists.
    apply createHighlightedImage_empty, Hnil.
  - eexists _, _. split.
    { exact (compareImages_returned _ _ _ _ _ _ _ _ Hpre Hdims Hdiffs
               (createHighlightedImage_empty _ _ _ _ Hnil)). }
    cbn [highlightedImagePath result_differences analysis files dirs calls].
    repeat split. apply after_prelude_calls.
Qed.

End NoDifferences.

Lemma no_differences_no_rendering_witness :
  (forall (processedDims : Dimensions) (w0 : World),
      exists entries,
        @createHighlightedImage (demo_platform_answering no_differences_response)
          "uploads/2.png" {| differences := [] |} processedDims w0
        = (Returned None, with_console entries w0))
  /\ exists result w',
       @compareImages (demo_platform_answering no_differences_response)
         "uploads/1.png" "uploads/2.png" empty_world = (Returned result, w')
       /\ highlightedImagePath result = None
       /\ result_differences result = {| differences := [] |}
       /\ analysis result = no_differences_response
       /\ files w' = files empty_world /\ dirs w' = dirs empty_world
       /\ calls w' = calls empty_world ++ prelude_calls "uploads/1.png" "uploads/2.png"
       /\ forallb (fun c => negb (is_render_or_write c))
            (prelude_calls "uploads/1.png" "uploads/2.png") = true.
Proof.
  apply (@no_differences_no_rendering (demo_platform_answering no_differences_response)
           "uploads/1.png" "uploads/2.png" no_differences_response
           scenario_dimensions {| differences := [] |} empty_world).
  - split; [reflexivity|]. split; [reflexivity|].
    exists "uploads/1.png", "uploads/2.png". repeat split.
  - exists dimensions_text. vm_compute. split; reflexivity.
  - exists empty_differences_text. vm_compute. split; reflexivity.
  - reflexivity.
Defined.

(** ** C7: an image that cannot be decoded *)

(** C7, as stated, fails.  On the platform of the scenario, the image
    "uploads/broken.png" cannot be decoded; [createHighlightedImage] returns
    [null] and [compareImages] returns a result, neither throws. *)
Lemma image_load_error_counterexample :
  @loadImage_result demo_platform "uploads/broken.png"
  = inl (Error "Unsupported image type")
  /\ fst (@createHighlightedImage demo_platform "uploads/broken.png" scenario_differences
            {| width := num_of_Z 400; height := num_of_Z 300 |} empty_world)
     = Returned None
  /\ fst (@compareImages demo_platform "uploads/1.png" "uploads/broken.png" empty_world)
     = Returned {| processedDimensions := scenario_dimensions;
                   result_differences := scenario_differences;
                   analysis := scenario_response;
                   highlightedImagePath := None;
                   timestamp := "2025-03-01T10:00:00.0Z" |}.
Proof. vm_compute. repeat split. Qed.

Section LoadFailure.
Context `{Platform}.

(** C7, amended.  When the source image cannot be decoded, the error of
    [loadImage] is caught in [createHighlightedImage], written to the console
    and turned into the result [null]; no canvas is created, no directory is
    made and no file is written.  [compareImages] then returns a result with
    the analysis, the differences and a [null] [highlightedImagePath]. *)
Theorem image_load_failure_returns_null (image1Path image2Path content : string)
    (processedDimensions : ProcessedDimensionsPayload)
    (differencesObj : DifferencesPayload) (error : JsError) (w : World) :
  prelude_ok image1Path image2Path content ->
  extracts JSON_parse_dimensions content "processed_dimensions" processedDimensions ->
  extracts JSON_parse_differences content "differences" differencesObj ->
  differences differencesObj <> [] ->
  loadImage_result image2Path = inl error ->
  (forall (processedDims : Dimensions) (w0 : World),
      createHighlightedImage image2Path differencesObj processedDims w0
      = (Returned None,
         with_console [console_error_entry [LogStr "❌ Error creating highlighted image:";
                                            LogError error]]
           (with_calls [CallLoadImage image2Path] w0)))
  /\ exists result w',
       compareImages image1Path image2Path w = (Returned result, w')
       /\ highlightedImagePath result = None
       /\ result_differences result = differencesObj
       /\ analysis result = content
       /\ files w' = files w /\ dirs w' = dirs w
       /\ calls w' = calls w ++ prelude_calls image1Path image2Path
                     ++ [CallLoadImage image2Path].
Proof.
  intros Hpre Hdims Hdiffs Hne Hload. split.
  - intros processedDims w0. apply createHighlightedImage_load_failure; assumption.
  - eexists _, _. split.
    { exact (compareImages_returned _ _ _ _ _ _ _ _ Hpre Hdims Hdiffs
               (createHighlightedImage_load_failure _ _ _ _ _ Hne Hload)). }
    cbn [highlightedImagePath result_differences analysis files dirs calls].
    repeat split.
    unfold after_extraction. cbn [calls with_console with_calls].
    rewrite after_prelude_calls, <- app_assoc. reflexivity.
Qed.

End LoadFailure.

Lemma image_load_failure_returns_null_witness :
  exists result w',
    @compareImages demo_platform "uploads/1.png" "uploads/broken.png" empty_world
    = (Returned result, w')
    /\ highlightedImagePath result = None
    /\ result_differences result = scenario_differences
    /\ analysis result = scenario_response
    /\ files w' = files empty_world /\ dirs w' = dirs empty_world
    /\ calls w' = calls empty_world ++ prelude_calls "uploads/1.png" "uploads/broken.png"
                  ++ [CallLoadImage "uploads/broken.png"].
Proof.
  apply (@image_load_failure_returns_null demo_platform "uploads/1.png"
           "uploads/broken.png" scenario_response scenario_dimensions
           scenario_differences (Error "Unsupported image type") empty_world).
  - split; [reflexivity|]. split; [reflexivity|].
    exists "uploads/1.png", "uploads/broken.png". repeat split.
  - exists dimensions_text. vm_compute. split; reflexivity.
  - exists differences_text. vm_compute. split; reflexivity.
  - discriminate.
  - reflexivity.
Defined.

(** ** C8: skipped records, order and labels *)

Section Labels.
Context `{Platform}.

(** C8.  For every sequence of records, the rendering succeeds whether or
    not some records lack a highlight area; the rectangles stroked in the
    written image are those of the records that carry one, in the order of
    the input; and the label stroked with each is the 1-based position of its
    record in the whole input sequence, whatever the type and the geometry of
    the records. *)
Theorem labels_follow_input_positions (imagePath : string)
    (differencesObj : DifferencesPayload) (processedDims : Dimensions)
    (image : Image) (w : World) :
  differences differencesObj <> [] ->
  loadImage_result imagePath = inr image ->
  output_ok imagePath w ->
  let scaleX := num_div (image_width image) (width processedDims) in
  let scaleY := num_div (image_height image) (height processedDims) in
  exists rendered w',
    createHighlightedImage imagePath differencesObj processedDims w
    = (Returned (Some (outputPath_at imagePath (clock w))), w')
    /\ files w' !! outputPath_at imagePath (clock w) = Some rendered
    /\ labels rendered
       = (fun i => nat_to_string (i + 1)) <$> positions_with_area (differences differencesObj)
    /\ stroke_rects rendered
       = omap (fun i => rect_of ∘ scaleBox image scaleX scaleY
                          <$> (differences differencesObj !! i ≫= highlight_area))
           (positions_with_area (differences differencesObj))
    /\ length (labels rendered) = length (stroke_rects rendered).
Proof.
  intros Hne Hload Hout scaleX scaleY.
  destruct (createHighlightedImage_renders imagePath differencesObj processedDims image w
              Hne Hload Hout) as (rendered & w' & Hrun & Hfiles & _ & _ & Hops).
  assert (Hlabels : labels rendered
            = (fun i => nat_to_string (i + 1))
                <$> positions_with_area (differences differencesObj)).
  { unfold labels. rewrite Hops, omap_app, labels_highlights. reflexivity. }
  assert (Hrects : stroke_rects rendered
            = omap (fun i => rect_of ∘ scaleBox image scaleX scaleY
                               <$> (differences differencesObj !! i ≫= highlight_area))
                (positions_with_area (differences differencesObj))).
  { unfold stroke_rects. rewrite Hops, omap_app, stroke_rects_highlights. reflexivity. }
  exists rendered, w'. split; [exact Hrun|]. split.
  { rewrite Hfiles. apply lookup_insert_eq. }
  split; [exact Hlabels|]. split; [exact Hrects|].
  rewrite Hlabels, Hrects, length_fmap.
  rewrite (omap_fmap_on _
             (fun i => default (rect_of (scaleBox image scaleX scaleY
                                           {| x1 := num_zero; y1 := num_zero;
                                              x2 := num_zero; y2 := num_zero |}))
                         (rect_of ∘ scaleBox image scaleX scaleY
                            <$> (differences differencesObj !! i ≫= highlight_area)))).
  - rewrite length_fmap. reflexivity.
  - intros i Hi. apply positions_with_area_spec in Hi.
    destruct Hi as (d & area & -> & Ha). cbn. rewrite Ha. reflexivity.
Qed.

End Labels.

(** A sequence of three records of which the second has no highlight area. *)
Lemma labels_follow_input_positions_witness :
  exists rendered w',
    @createHighlightedImage demo_platform "uploads/2.png"
      {| differences := [scenario_difference; record_without_area; layout_difference] |}
      {| width := num_of_Z 400; height := num_of_Z 300 |} empty_world
    = (Returned (Some (@outputPath_at demo_platform "uploads/2.png" 0)), w')
    /\ files w' !! @outputPath_at demo_platform "uploads/2.png" 0 = Some rendered
    /\ labels rendered = ["1"; "3"]
    /\ stroke_rects rendered
       = [ (num_of_Z 100, num_of_Z 100, num_of_Z 200, num_of_Z 100);
           (num_of_Z 20, num_of_Z 40, num_of_Z 40, num_of_Z 40) ]
    /\ length (labels rendered) = length (stroke_rects rendered).
Proof.
  apply (@labels_follow_input_positions demo_platform "uploads/2.png"
           {| differences := [scenario_difference; record_without_area; layout_difference] |}
           {| width := num_of_Z 400; height := num_of_Z 300 |} scenario_image empty_world).
  - discriminate.
  - reflexivity.
  - split; [right|]; reflexivity.
Defined.

(** ** C9: the shape of the rendered image and the legend *)

Section Legend.
Context `{Platform}.

(** C9.  The written image is as wide as the source and 40 pixels higher;
    its first drawing call copies the source, drawn on a canvas of its own,
    at the origin; its third writes the legend "N UI differences detected"
    where N is the number of records, with or without a highlight area; and
    no file other than the output file is changed, so the source is not
    overwritten. *)
Theorem rendered_image_shape (imagePath : string)
    (differencesObj : DifferencesPayload) (processedDims : Dimensions)
    (image : Image) (w : World) :
  differences differencesObj <> [] ->
  loadImage_result imagePath = inr image ->
  output_ok imagePath w ->
  exists rendered w',
    createHighlightedImage imagePath differencesObj processedDims w
    = (Returned (Some (outputPath_at imagePath (clock w))), w')
    /\ files w' !! outputPath_at imagePath (clock w) = Some rendered
    /\ (forall path, path <> outputPath_at imagePath (clock w) ->
                     files w' !! path = files w !! path)
    /\ canvas_width rendered = image_width image
    /\ canvas_height rendered = num_add (image_height image) (num_of_Z 40)
    /\ ops rendered !! 0%nat
       = Some (OpDrawCanvas (image_width image) (image_height image)
                 [OpDrawImage image num_zero num_zero (image_width image)
                    (image_height image)]
                 num_zero num_zero)
    /\ ops rendered !! 2%nat
       = Some (OpFillText "black" "14px Arial"
                 (nat_to_string (length (differences differencesObj)) +:+
                  " UI differences detected")
                 (num_of_Z 20) (num_add (image_height image) (num_of_Z 25))).
Proof.
  intros Hne Hload Hout.
  destruct (createHighlightedImage_renders imagePath differencesObj processedDims image w
              Hne Hload Hout) as (rendered & w' & Hrun & Hfiles & Hcw & Hch & Hops).
  exists rendered, w'. split; [exact Hrun|]. rewrite Hfiles, Hops.
  split; [apply lookup_insert_eq|].
  split; [intros path Hpath; apply lookup_insert_ne; congruence|].
  repeat split; assumption.
Qed.

End Legend.

Lemma rendered_image_shape_witness :
  exists rendered w',
    @createHighlightedImage demo_platform "uploads/2.png" scenario_differences
      {| width := num_of_Z 400; height := num_of_Z 300 |} empty_world
    = (Returned (Some (@outputPath_at demo_platform "uploads/2.png" 0)), w')
    /\ files w' !! @outputPath_at demo_platform "uploads/2.png" 0 = Some rendered
    /\ (forall path, path <> @outputPath_at demo_platform "uploads/2.png" 0 ->
                     files w' !! path = files empty_world !! path)
    /\ canvas_width rendered = num_of_Z 800
    /\ canvas_height rendered = num_of_Z 640
    /\ ops rendered !! 0%nat
       = Some (OpDrawCanvas (num_of_Z 800) (num_of_Z 600)
                 [OpDrawImage scenario_image num_zero num_zero (num_of_Z 800)
                    (num_of_Z 600)]
                 num_zero num_zero)
    /\ ops rendered !! 2%nat
       = Some (OpFillText "black" "14px Arial" "1 UI differences detected"
                 (num_of_Z 20) (num_of_Z 625)).
Proof.
  apply (@rendered_image_shape demo_platform "uploads/2.png" scenario_differences
           {| width := num_of_Z 400; height := num_of_Z 300 |} scenario_image empty_world).
  - discriminate.
  - reflexivity.
  - split; [right|]; reflexivity.
Defined.

(** ** The scenario of the specification, end to end *)

(** Two 800x600 images, claimed dimensions 400x300, one [text_change] with
    highlight area (50,50)-(150,100): both blocks are extracted, the box
    (100,100)-(300,200) is drawn on an 800x640 image with the legend
    "1 UI differences detected", and the path of the written file is
    returned. *)
Example scenario_comparison :
  fst (@compareImages demo_platform "uploads/1.png" "uploads/2.png" empty_world)
  = Returned {| processedDimensions := scenario_dimensions;
                result_differences := scenario_differences;
                analysis := scenario_response;
                highlightedImagePath :=
                  Some "/app/output/diff_2_2025-03-01T10-00-00-0Z.png";
                timestamp := "2025-03-01T10:00:00.1Z" |}
  /\ (ops <$> files (snd (@compareImages demo_platform "uploads/1.png" "uploads/2.png"
                             empty_world))
             !! "/app/output/diff_2_2025-03-01T10-00-00-0Z.png")
     = Some (legend_ops scenario_image 1
             ++ [ OpStrokeRect "rgba(255, 0, 0, 0.8)" (num_of_Z 3)
                    (num_of_Z 100) (num_of_Z 100) (num_of_Z 200) (num_of_Z 100);
                  OpFillRect "rgba(255, 0, 0, 0.3)"
                    (num_of_Z 100) (num_of_Z 100) (num_of_Z 200) (num_of_Z 100);
                  OpStrokeText "black" "bold 12px Arial" (num_of_Z 3) "1"
                    (num_of_Z 105) (num_of_Z 115);
                  OpFillText "white" "bold 12px Arial" "1"
                    (num_of_Z 105) (num_of_Z 115) ]).
Proof. vm_compute. split; reflexivity. Qed.

(** * Further properties *)

(** ** The capture of the pattern *)

Lemma regex_match_leftmost (objectName s r : string) :
  regex_match objectName s = Some r ->
  exists pre t,
    s = pre +:+ t /\ match_here objectName t = Some r
    /\ no_match_before objectName s (String.length pre) = true.
Proof.
  induction s as [|c s IH]; cbn [regex_match].
  - destruct (match_here objectName "") eqn:Hm; [|discriminate].
    intros [= <-]. exists "", "". auto.
  - destruct (match_here objectName (String c s)) eqn:Hm.
    + intros [= <-]. exists "", (String c s). auto.
    + intros Hr. destruct (IH Hr) as (pre & t & -> & Ht & Hno).
      exists (String c pre), t. repeat split; [assumption|].
      change (String c pre +:+ t) with (String c (pre +:+ t)).
      cbn [no_match_before String.length]. rewrite Hm. exact Hno.
Qed.

(** The lazy star has tried the continuation at every earlier position. *)
Lemma star_lazy_min (cls : ascii -> bool) (k : string -> option string) (s r : string) :
  star_lazy cls k s = Some r ->
  exists body t r',
    s = body +:+ t /\ k t = Some r' /\ r = body +:+ r'
    /\ forall b1 b2, body = b1 +:+ b2 -> b2 <> "" -> k (b2 +:+ t) = None.
Proof.
  revert r. induction s as [|c s IH]; intros r; simpl.
  - destruct (k "") eqn:Hk; [|discriminate]. intros [= <-].
    exists "", "", s. repeat split; auto.
    intros [|] b2 Hb; [|discriminate]. simpl in Hb. congruence.
  - destruct (k (String c s)) eqn:Hk.
    + intros [= <-]. exists "", (String c s), s0. repeat split; auto.
      intros [|] b2 Hb; [|discriminate]. simpl in Hb. congruence.
    + destruct (cls c); [|discriminate].
      destruct (star_lazy cls k s) as [r0|] eqn:Hr; [|discriminate].
      intros [= <-]. destruct (IH _ eq_refl) as (body & t & r' & -> & Ht & -> & Hmin).
      exists (String c body), t, r'. repeat split; auto.
      intros [|c1 b1] b2 Hb Hb2; simpl in Hb.
      * subst b2. exact Hk.
      * injection Hb as -> ->. eapply Hmin; eauto.
Qed.

Lemma string_prefix_inv (p t : string) :
  string_prefix p t = true -> exists rest, t = p +:+ rest.
Proof.
  revert t. induction p as [|a p IH]; intros t; simpl.
  - intros _. exists t. reflexivity.
  - destruct t as [|c t]; [discriminate|].
    intros Hp. apply andb_prop in Hp. destruct Hp as [Hc Hp].
    apply Ascii.eqb_eq in Hc. subst c.
    destruct (IH _ Hp) as [rest ->]. exists rest. reflexivity.
Qed.

Lemma string_prefix_app_r (p t rest : string) :
  string_prefix p t = true -> string_prefix p (t +:+ rest) = true.
Proof.
  revert t. induction p as [|a p IH]; intros t; simpl; [reflexivity|].
  destruct t as [|c t]; [discriminate|]. simpl.
  intros Hp. apply andb_prop in Hp. destruct Hp as [-> Hp]. simpl. auto.
Qed.

(** The continuation after the lazy star succeeds on every input that starts
    with the closing sequence. *)
Lemma after_body_of_prefix (t : string) :
  string_prefix closing t = true ->
  lit_cap "}" (lit_skip fence_close (fun _ => Some "")) t = Some "}".
Proof.
  intros Hp. apply string_prefix_inv in Hp. destruct Hp as [rest ->].
  unfold closing. rewrite app_assoc_s.
  rewrite (lit_cap_app "}" "}") by reflexivity.
  rewrite (lit_skip_app fence_close fence_close) by apply string_eqb_ci_refl.
  reflexivity.
Qed.

Lemma char_eq_ci_sym (a c : ascii) : char_eq_ci a c = char_eq_ci c a.
Proof. unfold char_eq_ci. apply Ascii.eqb_sym. Qed.

(** A text without closing brace in front of [b] has the closing sequence
    where [b] has it. *)
Lemma includes_skip (a b : string) :
  string_forallb (fun c => negb (Ascii.eqb c "}")) a = true ->
  includes (a +:+ b) closing = includes b closing.
Proof.
  induction a as [|c a IH]; [reflexivity|].
  change (String c a +:+ b) with (String c (a +:+ b)).
  cbn [string_forallb]. intros Hc. apply andb_prop in Hc. destruct Hc as [Hc Ha].
  cbn [includes]. rewrite (IH Ha).
  unfold closing at 1. cbn [String.append string_prefix].
  rewrite Ascii.eqb_sym. apply negb_true_iff in Hc. rewrite Hc. reflexivity.
Qed.

Lemma includes_body (body rest : string) :
  (forall b1 b2, body = b1 +:+ b2 -> b2 <> "" ->
                 string_prefix closing (b2 +:+ "}" +:+ rest) = false) ->
  includes (body +:+ "}") closing = false.
Proof.
  induction body as [|c body IH]; intros Hmin; [reflexivity|].
  change (String c body +:+ "}") with (String c (body +:+ "}")).
  cbn [includes]. rewrite IH.
  - rewrite orb_false_r.
    destruct (string_prefix closing (String c (body +:+ "}"))) eqn:Hp; [|reflexivity].
    apply (string_prefix_app_r _ _ rest) in Hp.
    change (String c (body +:+ "}") +:+ rest) with (String c ((body +:+ "}") +:+ rest)) in Hp.
    rewrite app_assoc_s in Hp.
    pose proof (Hmin "" (String c body) eq_refl ltac:(discriminate)) as Hnone.
    change (String c body +:+ "}" +:+ rest) with (String c (body +:+ "}" +:+ rest)) in Hnone.
    congruence.
  - intros b1 b2 -> Hb2. apply (Hmin (String c b1) b2); auto.
Qed.

(** The characters of a quoted word name, in any letter case, are not
    closing braces. *)
Lemma quoted_key_no_brace (p key : string) :
  string_forallb (fun a => (is_word_char a || Ascii.eqb a (ascii_of_nat 34))%bool) p = true ->
  string_eqb_ci p key = true ->
  string_forallb (fun c => negb (Ascii.eqb c "}")) key = true.
Proof.
  revert key. induction p as [|a p IH]; intros [|c key]; simpl; try discriminate; auto.
  intros Hp Hk. apply andb_prop in Hp. destruct Hp as [Ha Hp].
  apply andb_prop in Hk. destruct Hk as [Hac Hk].
  rewrite (IH key Hp Hk), andb_true_r.
  destruct (Ascii.eqb c "}") eqn:Hc; [|reflexivity].
  apply Ascii.eqb_eq in Hc. subst c.
  rewrite char_eq_ci_sym in Hac. apply caseless_brace_close in Hac. subst a.
  discriminate Ha.
Qed.

Lemma string_forallb_app (cls : ascii -> bool) (a b : string) :
  string_forallb cls (a +:+ b) = (string_forallb cls a && string_forallb cls b)%bool.
Proof.
  induction a as [|c a IH]; simpl; [reflexivity|].
  now rewrite IH, andb_assoc.
Qed.

Lemma string_forallb_impl (cls1 cls2 : ascii -> bool) (s : string) :
  (forall c, cls1 c = true -> cls2 c = true) ->
  string_forallb cls1 s = true -> string_forallb cls2 s = true.
Proof.
  intros Himpl. induction s as [|c s IH]; simpl; [reflexivity|].
  intros Hs. apply andb_prop in Hs. destruct Hs as [Hc Hs].
  now rewrite (Himpl c Hc), IH.
Qed.

Lemma is_space_not_brace (c : ascii) :
  is_space c = true -> negb (Ascii.eqb c "}") = true.
Proof.
  destruct (Ascii.eqb c "}") eqn:Hc; [|reflexivity].
  apply Ascii.eqb_eq in Hc. subst c. discriminate.
Qed.

(** X1.  Whenever the pattern matches, the text is some leading text, an
    opening fence (tag in any letter case), the capture, the closing fence
    and some trailing text; the capture is an opening brace, white space, the
    quoted name (in any letter case), a body and a closing brace; no attempt
    that starts in the leading text succeeds (the match is the leftmost one);
    and the capture does not contain a closing brace directly followed by the
    closing fence (it stops at the first one). *)
Theorem capture_anatomy (objectName blob r : string) :
  is_word_name objectName = true ->
  regex_match objectName blob = Some r ->
  exists pre fence ws key body post,
    blob = pre +:+ fence +:+ r +:+ fence_close +:+ post
    /\ r = "{" +:+ ws +:+ key +:+ body +:+ "}"
    /\ string_eqb_ci fence_open fence = true
    /\ string_forallb is_space ws = true
    /\ string_eqb_ci (quoted objectName) key = true
    /\ no_match_before objectName blob (String.length pre) = true
    /\ includes r closing = false.
Proof.
  intros Hname Hr.
  apply regex_match_leftmost in Hr. destruct Hr as (pre & t & -> & Hm & Hleft).
  unfold match_here in Hm.
  apply lit_skip_inv in Hm. destruct Hm as (fence & t0 & -> & Hfence & Hm).
  apply lit_cap_inv in Hm. destruct Hm as (ob & t1 & r1 & -> & Hob & Hm & ->).
  apply (string_eqb_ci_caseless _ _ brace_open_caseless) in Hob. subst ob.
  apply star_greedy_inv in Hm. destruct Hm as (ws & t2 & r2 & -> & Hws & Hm & ->).
  apply lit_cap_inv in Hm. destruct Hm as (key & t3 & r3 & -> & Hkey & Hm & ->).
  apply star_lazy_min in Hm. destruct Hm as (body & t4 & r4 & -> & Hm & -> & Hmin).
  pose proof Hm as Hclose.
  apply lit_cap_inv in Hm. destruct Hm as (cb & t5 & r5 & -> & Hcb & Hm & ->).
  apply (string_eqb_ci_caseless _ _ brace_close_caseless) in Hcb. subst cb.
  apply lit_skip_inv in Hm. destruct Hm as (fc & post & -> & Hfc & Hm).
  apply (string_eqb_ci_caseless _ _ fence_close_caseless) in Hfc. subst fc.
  injection Hm as <-.
  exists pre, fence, ws, key, body, post.
  rewrite app_nil_r_s.
  split; [repeat rewrite app_assoc_s; reflexivity|].
  split; [reflexivity|]. split; [assumption|]. split; [assumption|].
  split; [assumption|]. split; [assumption|].
  rewrite <- (app_assoc_s ws key).
  rewrite (includes_skip "{") by reflexivity.
  rewrite (includes_skip (ws +:+ key)).
  - apply (includes_body body (fence_close +:+ post)).
    intros b1 b2 Hb Hb2.
    destruct (string_prefix closing (b2 +:+ "}" +:+ fence_close +:+ post)) eqn:Hp;
      [|reflexivity].
    apply after_body_of_prefix in Hp. rewrite (Hmin b1 b2 Hb Hb2) in Hp. discriminate Hp.
  - rewrite string_forallb_app. apply andb_true_intro. split.
    + exact (string_forallb_impl _ _ ws is_space_not_brace Hws).
    + apply (quoted_key_no_brace (quoted objectName)); [|assumption].
      unfold quoted, QUOTE. cbn [String.append string_forallb].
      rewrite string_forallb_app. cbn [string_forallb].
      rewrite andb_true_r. cbn.
      exact (string_forallb_impl _ _ objectName
               (fun c Hc => eq_trans (f_equal (fun b => orb b _) Hc) eq_refl) Hname).
Qed.

Lemma capture_anatomy_witness :
  exists pre fence ws key body post,
    scenario_response = pre +:+ fence +:+ differences_text +:+ fence_close +:+ post
    /\ differences_text = "{" +:+ ws +:+ key +:+ body +:+ "}"
    /\ string_eqb_ci fence_open fence = true
    /\ string_forallb is_space ws = true
    /\ string_eqb_ci (quoted "differences") key = true
    /\ no_match_before "differences" scenario_response (String.length pre) = true
    /\ includes differences_text closing = false.
Proof.
  apply (capture_anatomy "differences" scenario_response differences_text).
  - reflexivity.
  - vm_compute. reflexivity.
Defined.

(** ** The letter case of the object name *)

Lemma char_eq_ci_trans (a b c : ascii) :
  char_eq_ci a b = true -> char_eq_ci a c = char_eq_ci b c.
Proof.
  unfold char_eq_ci. intros Hab. apply Ascii.eqb_eq in Hab. now rewrite Hab.
Qed.

Lemma string_eqb_ci_app (p1 p2 s1 s2 : string) :
  string_eqb_ci p1 s1 = true -> string_eqb_ci p2 s2 = true ->
  string_eqb_ci (p1 +:+ p2) (s1 +:+ s2) = true.
Proof.
  revert s1. induction p1 as [|a p1 IH]; intros [|c s1]; simpl; try discriminate; auto.
  intros H1 H2. apply andb_prop in H1. destruct H1 as [-> H1]. simpl. auto.
Qed.

Lemma lit_cap_ci (p1 p2 : string) (k : string -> option string) (s : string) :
  string_eqb_ci p1 p2 = true -> lit_cap p1 k s = lit_cap p2 k s.
Proof.
  revert p2 s. induction p1 as [|a p1 IH]; intros [|b p2] s; simpl; try discriminate; auto.
  intros Hp. apply andb_prop in Hp. destruct Hp as [Hab Hp].
  destruct s as [|c s]; [reflexivity|].
  rewrite (char_eq_ci_trans a b c Hab), (IH p2 s Hp). reflexivity.
Qed.

Lemma star_greedy_ext (cls : ascii -> bool) (k1 k2 : string -> option string) (s : string) :
  (forall t, k1 t = k2 t) -> star_greedy cls k1 s = star_greedy cls k2 s.
Proof.
  intros Hk. induction s as [|c s IH]; simpl; [apply Hk|].
  rewrite IH, Hk. reflexivity.
Qed.

Lemma lit_skip_ext (p : string) (k1 k2 : string -> option string) (s : string) :
  (forall t, k1 t = k2 t) -> lit_skip p k1 s = lit_skip p k2 s.
Proof.
  intros Hk. revert s. induction p as [|a p IH]; intros s; simpl; [apply Hk|].
  destruct s as [|c s]; [reflexivity|]. now rewrite IH.
Qed.

Lemma lit_cap_ext (p : string) (k1 k2 : string -> option string) (s : string) :
  (forall t, k1 t = k2 t) -> lit_cap p k1 s = lit_cap p k2 s.
Proof.
  intros Hk. revert s. induction p as [|a p IH]; intros s; simpl; [apply Hk|].
  destruct s as [|c s]; [reflexivity|]. now rewrite IH.
Qed.

Lemma match_here_ci (n1 n2 s : string) :
  string_eqb_ci n1 n2 = true -> match_here n1 s = match_here n2 s.
Proof.
  intros Hn. unfold match_here.
  apply lit_skip_ext. intros t1. apply lit_cap_ext. intros t2.
  apply star_greedy_ext. intros t3. apply lit_cap_ci.
  unfold quoted. apply string_eqb_ci_app; [apply string_eqb_ci_refl|].
  apply string_eqb_ci_app; [assumption|apply string_eqb_ci_refl].
Qed.

Lemma regex_match_ci (n1 n2 s : string) :
  string_eqb_ci n1 n2 = true -> regex_match n1 s = regex_match n2 s.
Proof.
  intros Hn. induction s as [|c s IH]; cbn [regex_match];
    rewrite (match_here_ci n1 n2 _ Hn); [reflexivity|].
  now rewrite IH.
Qed.

(** X2.  The pattern is built with the flag [i], so the letter case of the
    object name does not matter: two word names that differ in letter case
    only select the same capture in every text, and whatever value the
    extraction returns under one name it returns under the other.  A block
    keyed "Differences" or "DIFFERENCES" is read like one keyed
    "differences". *)
Theorem object_name_letter_case {A : Type} (parse : string -> string + A)
    (name1 name2 blob : string) (w : World) :
  is_word_name name1 = true ->
  string_eqb_ci name1 name2 = true ->
  regex_match name1 blob = regex_match name2 blob
  /\ forall value w',
       extractJsonObject parse blob name1 w = (Returned value, w') ->
       extractJsonObject parse blob name2 w = (Returned value, w').
Proof.
  intros _ Hn. pose proof (regex_match_ci name1 name2 blob Hn) as Hr.
  split; [exact Hr|]. intros value w'.
  destruct (regex_match name2 blob) as [match1|] eqn:Hm.
  - destruct (parse match1) as [m|v] eqn:Hp.
    + rewrite (extractJsonObject_malformed parse blob name1 match1 m w Hr Hp). discriminate.
    + rewrite (extractJsonObject_found parse blob name1 match1 v w Hr Hp).
      rewrite (extractJsonObject_found parse blob name2 match1 v w Hm Hp). trivial.
  - rewrite (extractJsonObject_not_found parse blob name1 w Hr). discriminate.
Qed.

Lemma object_name_letter_case_witness :
  regex_match "differences" scenario_response = regex_match "DIFFERENCES" scenario_response
  /\ forall value w',
       extractJsonObject (@JSON_parse_differences demo_platform) scenario_response
         "differences" empty_world = (Returned value, w') ->
       extractJsonObject (@JSON_parse_differences demo_platform) scenario_response
         "DIFFERENCES" empty_world = (Returned value, w').
Proof.
  apply (object_name_letter_case (@JSON_parse_differences demo_platform)
           "differences" "DIFFERENCES" scenario_response empty_world).
  - reflexivity.
  - vm_compute. reflexivity.
Defined.

(** ** The output directory and the written file *)

Section Output.
Context `{Platform}.

(** [ensureOutputDir] returns the directory, which exists afterwards, or
    throws the error of [mkdirSync]; it touches neither the files nor the
    clock nor the console. *)
Lemma ensureOutputDir_cases (w : World) :
  (exists w',
      ensureOutputDir w = (Returned outputDir, w')
      /\ files w' = files w /\ clock w' = clock w /\ console w' = console w
      /\ dirs w' = {[ outputDir ]} ∪ dirs w
      /\ ((outputDir ∈ dirs w) -> w' = w))
  \/ (exists error w',
        ensureOutputDir w = (Thrown error, w')
        /\ files w' = files w /\ clock w' = clock w /\ console w' = console w
        /\ dirs w' = dirs w
        /\ (outputDir ∉ dirs w) /\ fs_mkdirSync_error outputDir = Some error).
Proof.
  unfold ensureOutputDir, fs_existsSync.
  cbv beta iota delta [mbind M_bind mret M_ret]. fold outputDir.
  case_bool_decide as Hin; cbn [negb].
  - left. exists w. repeat split; try reflexivity.
    symmetry. apply subseteq_union_1_L. set_solver.
  - unfold fs_mkdirSync, record_call. cbv beta iota delta [mbind M_bind].
    destruct (fs_mkdirSync_error outputDir) as [error|] eqn:Hmk.
    + right. eexists _, _. repeat split; try reflexivity; assumption.
    + left. eexists. repeat split; try reflexivity. intros Hin'. contradiction.
Qed.

(** X3.  [ensureOutputDir] is idempotent: once it has returned, the directory
    exists, and a second call returns the same directory without calling
    [mkdirSync] and without any other effect. *)
Theorem ensureOutputDir_idempotent (w w1 : World) (dir : string) :
  ensureOutputDir w = (Returned dir, w1) ->
  dir = path_join process_cwd "output"
  /\ dir ∈ dirs w1
  /\ ensureOutputDir w1 = (Returned dir, w1).
Proof.
  intros Hrun.
  destruct (ensureOutputDir_cases w) as [(w' & Hr & Hf & Hc & Hl & Hdirs & Hs)
                                        |(error & w' & Hr & Hrest)].
  2: { rewrite Hr in Hrun. discriminate. }
  rewrite Hr in Hrun. injection Hrun as <- <-.
  assert (Hin : outputDir ∈ dirs w') by (rewrite Hdirs; apply elem_of_union_l, elem_of_singleton; reflexivity).
  split; [reflexivity|]. split; [exact Hin|].
  destruct (ensureOutputDir_cases w') as [(w2 & Hr2 & _ & _ & _ & _ & Hsame)
                                         |(error & w2 & _ & _ & _ & _ & _ & Hout & _)];
    [|contradiction].
  rewrite Hr2, (Hsame Hin). reflexivity.
Qed.

(** [createHighlightedImage] returns [null] and leaves the files as they
    are, or returns the output path after writing that one file. *)
Lemma createHighlightedImage_outcome (imagePath : string)
    (differencesObj : DifferencesPayload) (processedDims : Dimensions) (w : World) :
  exists result w',
    createHighlightedImage imagePath differencesObj processedDims w = (Returned result, w')
    /\ match result with
       | None => files w' = files w
       | Some outputPath =>
           outputPath = outputPath_at imagePath (clock w)
           /\ clock w' = S (clock w)
           /\ exists rendered, files w' = <[ outputPath := rendered ]> (files w)
       end.
Proof.
  unfold createHighlightedImage. case_bool_decide as Hlen.
  { eexists _, _. split; reflexivity. }
  unfold try_catch, loadImage, createCanvas.
  cbv beta iota delta [mbind M_bind mret M_ret record_call].
  destruct (loadImage_result imagePath) as [error|image].
  { eexists _, _. split; reflexivity. }
  cbv beta iota.
  match goal with
  | |- context [forEach ?f ?l ?c ?w0] =>
      destruct (forEach_highlight image
                  (num_div (image_width image) (width processedDims))
                  (num_div (image_height image) (height processedDims))
                  l 0%nat c w0 eq_refl eq_refl) as (ctx' & es & Hrun & Hops)
  end.
  unfold forEach. rewrite Hrun. cbv beta iota. clear Hrun.
  match goal with
  | |- context [ensureOutputDir ?w0] =>
      destruct (ensureOutputDir_cases w0)
        as [(w1 & Hout & Hfiles & Hclock & Hrest)|(error & w1 & Hout & Hfiles & Hrest)]
  end; rewrite Hout; cbv beta iota.
  - cbv beta iota delta [fmap M_fmap new_Date_toISOString].
    rewrite Hclock. cbn [clock with_console with_calls].
    unfold fs_writeFile, record_call. cbv beta iota delta [mbind M_bind].
    fold outputDir. fold (outputPath_at imagePath (clock w)).
    destruct (fs_writeFile_error (outputPath_at imagePath (clock w))) as [error|].
    + cbv beta iota delta [throw console_error emit mret M_ret].
      eexists _, _. split; [reflexivity|].
      cbn [files with_console with_calls]. rewrite Hfiles. reflexivity.
    + cbv beta iota delta [console_log emit mret M_ret].
      eexists _, _. split; [reflexivity|].
      split; [reflexivity|]. split; [reflexivity|]. eexists.
      cbn [files with_console with_calls]. rewrite Hfiles. reflexivity.
  - cbv beta iota delta [console_error emit mret M_ret].
    eexists _, _. split; [reflexivity|].
    cbn [files with_console with_calls]. rewrite Hfiles. reflexivity.
Qed.

(** X4.  [createHighlightedImage] never throws, and the path it returns tells
    whether a file was written: with the result [null] the files are those
    of before the call, and a returned path is the path computed from the
    image name and the clock, the only file written. *)
Theorem path_returned_iff_file_written (imagePath : string)
    (differencesObj : DifferencesPayload) (processedDims : Dimensions) (w : World) :
  match createHighlightedImage imagePath differencesObj processedDims w with
  | (Returned None, w') => files w' = files w
  | (Returned (Some outputPath), w') =>
      outputPath = outputPath_at imagePath (clock w)
      /\ files w' !! outputPath <> None
      /\ forall path, path <> outputPath -> files w' !! path = files w !! path
  | (Thrown _, _) => False
  end.
Proof.
  destruct (createHighlightedImage_outcome imagePath differencesObj processedDims w)
    as (result & w' & -> & Hresult).
  destruct result as [outputPath|]; [|exact Hresult].
  destruct Hresult as (Hpath & _ & rendered & ->). split; [exact Hpath|]. split.
  - rewrite lookup_insert_eq. discriminate.
  - intros path Hne. apply lookup_insert_ne. congruence.
Qed.

(** X5.  When the output directory is missing and can be created but the
    file cannot be written, [createHighlightedImage] logs the error of
    [writeFile] and returns [null]; no file is written, yet the directory
    created on the way stays behind and one timestamp has been drawn from
    the clock. *)
Theorem write_failure_keeps_directory (imagePath : string)
    (differencesObj : DifferencesPayload) (processedDims : Dimensions)
    (image : Image) (error : JsError) (w : World) :
  differences differencesObj <> [] ->
  loadImage_result imagePath = inr image ->
  outputDir ∉ dirs w ->
  fs_mkdirSync_error outputDir = None ->
  fs_writeFile_error (outputPath_at imagePath (clock w)) = Some error ->
  exists w',
    createHighlightedImage imagePath differencesObj processedDims w = (Returned None, w')
    /\ files w' = files w
    /\ dirs w' = {[ outputDir ]} ∪ dirs w
    /\ clock w' = S (clock w)
    /\ last (console w')
       = Some (console_error_entry [LogStr "❌ Error creating highlighted image:";
                                    LogError error])
    /\ last (calls w') = Some (CallWriteFile (outputPath_at imagePath (clock w))).
Proof.
  intros Hne Hload Hnot Hmk Hwrite. unfold createHighlightedImage.
  rewrite bool_decide_eq_false_2 by (destruct (differences differencesObj); [congruence|discriminate]).
  unfold try_catch, loadImage, createCanvas.
  cbv beta iota delta [mbind M_bind mret M_ret record_call].
  rewrite Hload. cbv beta iota.
  match goal with
  | |- context [forEach ?f ?l ?c ?w0] =>
      destruct (forEach_highlight image
                  (num_div (image_width image) (width processedDims))
                  (num_div (image_height image) (height processedDims))
                  l 0%nat c w0 eq_refl eq_refl) as (ctx' & es & Hrun & _)
  end.
  unfold forEach. rewrite Hrun. cbv beta iota. clear Hrun.
  unfold ensureOutputDir, fs_existsSync.
  cbv beta iota delta [mbind M_bind mret M_ret]. fold outputDir.
  cbn [dirs with_console with_calls].
  rewrite bool_decide_eq_false_2 by assumption. cbn [negb].
  unfold fs_mkdirSync, record_call. cbv beta iota delta [mbind M_bind].
  rewrite Hmk. cbv beta iota delta [fmap M_fmap new_Date_toISOString].
  cbn [clock with_console with_calls].
  unfold fs_writeFile, record_call. cbv beta iota delta [mbind M_bind].
  fold (outputPath_at imagePath (clock w)). rewrite Hwrite.
  cbv beta iota delta [throw console_error emit mret M_ret].
  eexists. split; [reflexivity|].
  cbn [files dirs clock console calls with_console with_calls].
  repeat split; apply last_snoc.
Qed.

End Output.

Lemma ensureOutputDir_idempotent_witness :
  "/app/output" ∈ dirs (snd (@ensureOutputDir demo_platform empty_world))
  /\ @ensureOutputDir demo_platform (snd (@ensureOutputDir demo_platform empty_world))
     = (Returned "/app/output", snd (@ensureOutputDir demo_platform empty_world)).
Proof.
  destruct (@ensureOutputDir_idempotent demo_platform empty_world
              (snd (@ensureOutputDir demo_platform empty_world)) "/app/output")
    as (_ & Hin & Hagain).
  - vm_compute. reflexivity.
  - split; [exact Hin | exact Hagain].
Defined.

Lemma write_failure_keeps_directory_witness :
  exists w',
    @createHighlightedImage demo_platform_read_only "uploads/2.png" scenario_differences
      {| width := num_of_Z 400; height := num_of_Z 300 |} empty_world
    = (Returned None, w')
    /\ files w' = ∅
    /\ dirs w' = {[ "/app/output" ]} ∪ ∅
    /\ clock w' = 1%nat.
Proof.
  destruct (@write_failure_keeps_directory demo_platform_read_only "uploads/2.png"
              scenario_differences {| width := num_of_Z 400; height := num_of_Z 300 |}
              scenario_image (Error "EROFS: read-only file system") empty_world)
    as (w' & Hrun & Hfiles & Hdirs & Hclock & _).
  - discriminate.
  - reflexivity.
  - apply not_elem_of_empty.
  - reflexivity.
  - reflexivity.
  - exists w'. repeat split; assumption.
Defined.

(** ** The drawing calls of a rendering *)

Lemma loop_ops_length `{Platform} (image : Image) (scaleX scaleY : num)
    (l : list RawDifference) :
  forall (strokeStyle0 fillStyle0 : string) (index : nat),
    length (loop_ops image scaleX scaleY strokeStyle0 fillStyle0 index l)
    = (4 * length (List.filter has_area l))%nat.
Proof.
  induction l as [|d l IH]; intros strokeStyle0 fillStyle0 index; [reflexivity|].
  cbn [loop_ops List.filter]. rewrite length_app. unfold highlight_ops, has_area in *.
  destruct (highlight_area d); rewrite IH; cbv beta iota; cbn [length]; lia.
Qed.

Lemma positions_with_area_NoDup (l : list RawDifference) : NoDup (positions_with_area l).
Proof.
  unfold positions_with_area. apply NoDup_ListNoDup, List.NoDup_filter, List.seq_NoDup.
Qed.

(** X6.  A rendering makes three drawing calls for the copy of the source and
    the legend and exactly four for every record with a highlight area (two
    rectangles, two texts), none for a record without one; and no two
    highlights carry the same number. *)
Theorem drawing_calls_per_record `{Platform} (imagePath : string)
    (differencesObj : DifferencesPayload) (processedDims : Dimensions)
    (image : Image) (w : World) :
  differences differencesObj <> [] ->
  loadImage_result imagePath = inr image ->
  output_ok imagePath w ->
  exists rendered w',
    createHighlightedImage imagePath differencesObj processedDims w
    = (Returned (Some (outputPath_at imagePath (clock w))), w')
    /\ files w' !! outputPath_at imagePath (clock w) = Some rendered
    /\ length (ops rendered)
       = (3 + 4 * length (List.filter has_area (differences differencesObj)))%nat
    /\ length (labels rendered)
       = length (List.filter has_area (differences differencesObj))
    /\ NoDup (labels rendered).
Proof.
  intros Hne Hload Hout.
  destruct (createHighlightedImage_renders imagePath differencesObj processedDims image w
              Hne Hload Hout) as (rendered & w' & Hrun & Hfiles & _ & _ & Hops).
  assert (Hcount : forall l : list RawDifference,
             length (positions_with_area l) = length (List.filter has_area l)).
  { intros l. induction l as [|d l IH] using rev_ind; [reflexivity|].
    rewrite positions_with_area_snoc, List.filter_app, !length_app, IH.
    cbn [List.filter]. destruct (has_area d); reflexivity. }
  assert (Hlabels : labels rendered
            = (fun i => nat_to_string (i + 1))
                <$> positions_with_area (differences differencesObj)).
  { unfold labels. rewrite Hops, omap_app, labels_highlights. reflexivity. }
  exists rendered, w'. split; [exact Hrun|]. split.
  { rewrite Hfiles. apply lookup_insert_eq. }
  split.
  { rewrite Hops, length_app, loop_ops_length. reflexivity. }
  split.
  { rewrite Hlabels, length_fmap. apply Hcount. }
  rewrite Hlabels. apply NoDup_fmap_2; [|apply positions_with_area_NoDup].
  intros i j Hij. unfold nat_to_string in Hij. apply (inj pretty) in Hij. lia.
Qed.

Lemma drawing_calls_per_record_witness :
  exists rendered w',
    @createHighlightedImage demo_platform "uploads/2.png"
      {| differences := [scenario_difference; record_without_area; layout_difference] |}
      {| width := num_of_Z 400; height := num_of_Z 300 |} empty_world
    = (Returned (Some (@outputPath_at demo_platform "uploads/2.png" 0)), w')
    /\ files w' !! @outputPath_at demo_platform "uploads/2.png" 0 = Some rendered
    /\ length (ops rendered) = 11%nat
    /\ length (labels rendered) = 2%nat
    /\ NoDup (labels rendered).
Proof.
  apply (@drawing_calls_per_record demo_platform "uploads/2.png"
           {| differences := [scenario_difference; record_without_area; layout_difference] |}
           {| width := num_of_Z 400; height := num_of_Z 300 |} scenario_image empty_world).
  - discriminate.
  - reflexivity.
  - split; [right; reflexivity | reflexivity].
Defined.

(** ** The timestamp in the file name *)

(** X7.  The timestamp of the file name is the ISO string with every colon
    and every dot replaced (the pattern has the flag [g]): the result has the
    length of the ISO string and contains neither a colon nor a dot, and a
    second replacement changes nothing. *)
Theorem timestamp_has_no_colon_no_dot (iso : string) :
  String.length (replace_colon_dot iso) = String.length iso
  /\ includes (replace_colon_dot iso) ":" = false
  /\ includes (replace_colon_dot iso) "." = false
  /\ replace_colon_dot (replace_colon_dot iso) = replace_colon_dot iso.
Proof.
  induction iso as [|c s (Hlen & Hcolon & Hdot & Hidem)]; [repeat split; reflexivity|].
  cbn [replace_colon_dot String.length includes string_prefix].
  rewrite Hlen, Hcolon, Hdot, Hidem, !andb_true_r, !orb_false_r.
  destruct (Ascii.eqb c ":") eqn:Hc1; [repeat split; reflexivity|].
  destruct (Ascii.eqb c ".") eqn:Hc2; [repeat split; reflexivity|].
  cbn [orb]. rewrite Hc1, Hc2. cbn [orb].
  rewrite (Ascii.eqb_sym ":"), (Ascii.eqb_sym "."), Hc1, Hc2. repeat split; reflexivity.
Qed.

(** ** A claimed width of zero *)

(** X8.  With a claimed width of [+0] and a positive image width the scale
    factor is [Infinity]; a box whose [x1] and [x2] are positive finite
    numbers then starts at [Infinity], ends at the image width and has the
    width [-Infinity], and a box whose [x1] is [+0] starts at [NaN] and has
    the width [NaN]. *)
Theorem zero_claimed_width_box (image : Image) (scaleY : num) (area : Box) :
  is_positive_finite (image_width image) = true ->
  is_positive_finite (x2 area) = true ->
  let scaleX := num_div (image_width image) num_zero in
  let b := scaleBox image scaleX scaleY area in
  scaleX = Infinity
  /\ scaledX2 b = image_width image
  /\ (is_positive_finite (x1 area) = true ->
      scaledX1 b = Infinity /\ box_width b = S754_infinity true)
  /\ (x1 area = num_zero -> is_nan (scaledX1 b) = true /\ is_nan (box_width b) = true).
Proof.
  intros HW Hx2 scaleX b. subst scaleX b. unfold scaleBox.
  cbn [scaledX1 scaledX2 box_width].
  destruct (image_width image) as [| | |[|] mw ew]; try discriminate.
  destruct (x2 area) as [| | |[|] m2 e2]; try discriminate.
  split; [reflexivity|]. split; [reflexivity|]. split.
  - destruct (x1 area) as [| | |[|] m1 e1]; try discriminate. split; reflexivity.
  - intros ->. split; reflexivity.
Qed.

Lemma zero_claimed_width_box_witness :
  num_div (num_of_Z 800) num_zero = Infinity
  /\ scaledX2 (scaleBox scenario_image (num_div (num_of_Z 800) num_zero) num_one
                 scenario_area) = num_of_Z 800
  /\ scaledX1 (scaleBox scenario_image (num_div (num_of_Z 800) num_zero) num_one
                 scenario_area) = Infinity
  /\ box_width (scaleBox scenario_image (num_div (num_of_Z 800) num_zero) num_one
                  scenario_area) = S754_infinity true.
Proof.
  destruct (zero_claimed_width_box scenario_image num_one scenario_area)
    as (Hscale & Hx2 & Hpos & _).
  - vm_compute. reflexivity.
  - vm_compute. reflexivity.
  - destruct Hpos as [Hx1 Hw].
    + vm_compute. reflexivity.
    + repeat split; assumption.
Defined.

(** ** Failures of [compareImages] before the answer of the service *)

Section Failures.
Context `{Platform}.

(** X9.  When one of the two images cannot be accessed, [compareImages]
    throws a new error whose message names an inaccessible path; the error is
    logged once by the [catch] block, and no file is read, the service is not
    called and nothing is rendered or written. *)
Theorem inaccessible_image_stops_comparison (image1Path image2Path : string) (w : World) :
  fs_access_ok image1Path = false \/ fs_access_ok image2Path = false ->
  exists path w' cs,
    compareImages image1Path image2Path w
    = (Thrown (Error ("Cannot access image: " +:+ path)), w')
    /\ (path = image1Path \/ path = image2Path)
    /\ fs_access_ok path = false
    /\ files w' = files w /\ dirs w' = dirs w /\ clock w' = clock w
    /\ console w'
       = console w ++ comparison_error_log (Error ("Cannot access image: " +:+ path))
    /\ calls w' = calls w ++ cs
    /\ Forall (fun c => exists p, c = CallAccess p) cs.
Proof.
  intros Hacc.
  assert (Hrun : forall path,
             (path = image1Path \/ path = image2Path) -> fs_access_ok path = false ->
             Promise_all (access_or_error image1Path) (access_or_error image2Path)
               (access_rejects_first image1Path image2Path)
             = throw (Error ("Cannot access image: " +:+ path)) ->
             exists path w' cs,
               compareImages image1Path image2Path w
               = (Thrown (Error ("Cannot access image: " +:+ path)), w')
               /\ (path = image1Path \/ path = image2Path)
               /\ fs_access_ok path = false
               /\ files w' = files w /\ dirs w' = dirs w /\ clock w' = clock w
               /\ console w'
                  = console w
                    ++ comparison_error_log (Error ("Cannot access image: " +:+ path))
               /\ calls w' = calls w ++ cs
               /\ Forall (fun c => exists p, c = CallAccess p) cs).
  { intros path Hpath Hno Hall.
    exists path. eexists _, [CallAccess image1Path; CallAccess image2Path].
    split.
    { unfold compareImages, try_catch, record_call.
      cbv beta iota delta [mbind M_bind mret M_ret]. rewrite Hall.
      unfold throw, console_error, emit. reflexivity. }
    cbn [files dirs clock console calls with_console with_calls].
    rewrite <- app_assoc. repeat split; auto.
    repeat constructor; eexists; reflexivity. }
  unfold Promise_all, access_or_error in Hrun.
  destruct (fs_access_ok image1Path) eqn:Ha1, (fs_access_ok image2Path) eqn:Ha2.
  - destruct Hacc; discriminate.
  - apply (Hrun image2Path); auto.
  - apply (Hrun image1Path); auto.
  - destruct (access_rejects_first image1Path image2Path).
    + apply (Hrun image1Path); auto.
    + apply (Hrun image2Path); auto.
Qed.

(** X10.  When both images are accessible and one of them cannot be read,
    [compareImages] rethrows the error of [readFile] as it is, after logging
    it once; the service is not called and nothing is rendered or written. *)
Theorem unreadable_image_stops_comparison (image1Path image2Path : string) (w : World) :
  fs_access_ok image1Path = true -> fs_access_ok image2Path = true ->
  (exists error, fs_readFile_result image1Path = inl error)
  \/ (exists error, fs_readFile_result image2Path = inl error) ->
  exists path error w' cs,
    compareImages image1Path image2Path w = (Thrown error, w')
    /\ (path = image1Path \/ path = image2Path)
    /\ fs_readFile_result path = inl error
    /\ files w' = files w /\ dirs w' = dirs w /\ clock w' = clock w
    /\ console w' = console w ++ comparison_error_log error
    /\ calls w' = calls w ++ cs
    /\ Forall (fun c => exists p, c = CallAccess p \/ c = CallReadFile p) cs.
Proof.
  intros Ha1 Ha2 Hread.
  assert (Hrun : forall path error,
             (path = image1Path \/ path = image2Path) ->
             fs_readFile_result path = inl error ->
             Promise_all (fs_readFile_result image1Path) (fs_readFile_result image2Path)
               (readFile_rejects_first image1Path image2Path)
             = throw error ->
             exists path error w' cs,
               compareImages image1Path image2Path w = (Thrown error, w')
               /\ (path = image1Path \/ path = image2Path)
               /\ fs_readFile_result path = inl error
               /\ files w' = files w /\ dirs w' = dirs w /\ clock w' = clock w
               /\ console w' = console w ++ comparison_error_log error
               /\ calls w' = calls w ++ cs
               /\ Forall (fun c => exists p, c = CallAccess p \/ c = CallReadFile p) cs).
  { intros path error Hpath Hno Hall.
    exists path, error.
    eexists _, [CallAccess image1Path; CallAccess image2Path;
                CallReadFile image1Path; CallReadFile image2Path].
    split.
    { unfold compareImages, try_catch, record_call.
      cbv beta iota delta [mbind M_bind mret M_ret].
      unfold Promise_all at 1, access_or_error. rewrite Ha1, Ha2. cbv beta iota.
      rewrite Hall. unfold throw, console_error, emit. reflexivity. }
    cbn [files dirs clock console calls with_console with_calls].
    rewrite <- !app_assoc. repeat split; auto.
    repeat constructor; eexists; eauto. }
  unfold Promise_all in Hrun.
  destruct (fs_readFile_result image1Path) as [error1|image1Buffer] eqn:Hr1,
           (fs_readFile_result image2Path) as [error2|image2Buffer] eqn:Hr2.
  - destruct (readFile_rejects_first image1Path image2Path).
    + apply (Hrun image1Path error1); auto.
    + apply (Hrun image2Path error2); auto.
  - apply (Hrun image1Path error1); auto.
  - apply (Hrun image2Path error2); auto.
  - destruct Hread as [[error Hread]|[error Hread]]; discriminate.
Qed.

(** X11.  When the call of the inference service fails, [compareImages]
    rethrows that error as it is: the console holds the line about the
    processed images and then the error, the platform calls are those up to
    the service call, and nothing is rendered or written. *)
Theorem service_failure_propagates (image1Path image2Path : string)
    (image1Buffer image2Buffer : string) (error : JsError) (w : World) :
  fs_access_ok image1Path = true -> fs_access_ok image2Path = true ->
  fs_readFile_result image1Path = inr image1Buffer ->
  fs_readFile_result image2Path = inr image2Buffer ->
  messages_create_result (toString_base64 image1Buffer) (toString_base64 image2Buffer)
  = inl error ->
  exists w',
    compareImages image1Path image2Path w = (Thrown error, w')
    /\ files w' = files w /\ dirs w' = dirs w /\ clock w' = clock w
    /\ console w'
       = console w
         ++ [console_log_entry
               [LogStr ("✅ Processing images: " +:+ path_basename image1Path +:+
                        " & " +:+ path_basename image2Path)]]
         ++ comparison_error_log error
    /\ calls w' = calls w ++ prelude_calls image1Path image2Path
    /\ forallb (fun c => negb (is_render_or_write c))
         (prelude_calls image1Path image2Path) = true.
Proof.
  intros Ha1 Ha2 Hr1 Hr2 Hmsg.
  unfold compareImages, try_catch, Promise_all, access_or_error, messages_create,
    record_call, console_log, console_error, emit, throw.
  cbv beta iota delta [mbind M_bind mret M_ret].
  rewrite Ha1. cbv beta iota. rewrite Ha2. cbv beta iota.
  rewrite Hr1. cbv beta iota. rewrite Hr2. cbv beta iota delta [fst snd].
  rewrite Hmsg. cbv beta iota.
  eexists. split; [reflexivity|].
  cbn [files dirs clock console calls with_console with_calls].
  rewrite <- !app_assoc. repeat split; reflexivity.
Qed.

End Failures.

Lemma inaccessible_image_stops_comparison_witness :
  exists path w' cs,
    @compareImages demo_platform_unreadable "missing.png" "uploads/2.png" empty_world
    = (Thrown (Error ("Cannot access image: " +:+ path)), w')
    /\ (path = "missing.png" \/ path = "uploads/2.png")
    /\ @fs_access_ok demo_platform_unreadable path = false
    /\ files w' = ∅ /\ dirs w' = ∅ /\ clock w' = 0%nat
    /\ console w'
       = [] ++ @comparison_error_log (Error ("Cannot access image: " +:+ path))
    /\ calls w' = [] ++ cs
    /\ Forall (fun c => exists p, c = CallAccess p) cs.
Proof.
  apply (@inaccessible_image_stops_comparison demo_platform_unreadable
           "missing.png" "uploads/2.png" empty_world).
  left. reflexivity.
Defined.

Lemma unreadable_image_stops_comparison_witness :
  exists path error w' cs,
    @compareImages demo_platform_unreadable "uploads/1.png" "locked.png" empty_world
    = (Thrown error, w')
    /\ (path = "uploads/1.png" \/ path = "locked.png")
    /\ @fs_readFile_result demo_platform_unreadable path = inl error
    /\ files w' = ∅ /\ dirs w' = ∅ /\ clock w' = 0%nat
    /\ console w' = [] ++ comparison_error_log error
    /\ calls w' = [] ++ cs
    /\ Forall (fun c => exists p, c = CallAccess p \/ c = CallReadFile p) cs.
Proof.
  apply (@unreadable_image_stops_comparison demo_platform_unreadable
           "uploads/1.png" "locked.png" empty_world).
  - reflexivity.
  - reflexivity.
  - right. eexists. reflexivity.
Defined.

Lemma service_failure_propagates_witness :
  exists w',
    @compareImages demo_platform_offline "uploads/1.png" "uploads/2.png" empty_world
    = (Thrown (Error "Connection error."), w')
    /\ files w' = ∅ /\ dirs w' = ∅ /\ clock w' = 0%nat
    /\ console w'
       = [] ++ [console_log_entry [LogStr "✅ Processing images: uploads/1.png & uploads/2.png"]]
         ++ comparison_error_log (Error "Connection error.")
    /\ calls w' = [] ++ @prelude_calls "uploads/1.png" "uploads/2.png"
    /\ forallb (fun c => negb (is_render_or_write c))
         (@prelude_calls "uploads/1.png" "uploads/2.png") = true.
Proof.
  apply (@service_failure_propagates demo_platform_offline "uploads/1.png" "uploads/2.png"
           "uploads/1.png" "uploads/2.png" (Error "Connection error.") empty_world);
    reflexivity.
Defined.

(** ** The files after a comparison *)

Section Outcome.
Context `{Platform}.

Lemma compareImages_outcome (image1Path image2Path : string) (w : World) :
  match compareImages image1Path image2Path w with
  | (Thrown _, w') => files w' = files w
  | (Returned result, w') =>
      match highlightedImagePath result with
      | None => files w' = files w
      | Some outputPath =>
          outputPath = outputPath_at image2Path (clock w)
          /\ timestamp result = toISOString (S (clock w))
          /\ exists rendered, files w' = <[ outputPath := rendered ]> (files w)
      end
  end.
Proof.
  unfold compareImages, try_catch, Promise_all, access_or_error, messages_create,
    record_call, console_log, console_error, emit, throw.
  cbv beta iota delta [mbind M_bind mret M_ret].
  destruct (fs_access_ok image1Path), (fs_access_ok image2Path); try reflexivity.
  cbv beta iota.
  destruct (fs_readFile_result image1Path) as [e1|image1Buffer],
           (fs_readFile_result image2Path) as [e2|image2Buffer]; try reflexivity.
  cbv beta iota delta [fst snd].
  destruct (messages_create_result _ _) as [e|content]; [reflexivity|].
  cbv beta iota.
  match goal with
  | |- context [extractJsonObject ?p ?c ?n ?w0] =>
      destruct (extractJsonObject_cases p c n w0) as [[dims Hx]|[e Hx]]; rewrite Hx
  end; [|reflexivity]. cbv beta iota.
  match goal with
  | |- context [extractJsonObject ?p ?c ?n ?w0] =>
      destruct (extractJsonObject_cases p c n w0) as [[diffs Hy]|[e Hy]]; rewrite Hy
  end; [|reflexivity]. cbv beta iota delta [read_member mret M_ret throw].
  destruct diffs as [diffs|]; [|reflexivity].
  destruct dims as [dims|]; [|reflexivity].
  match goal with
  | |- context [createHighlightedImage ?p ?d ?dims ?w0] =>
      destruct (createHighlightedImage_outcome p d dims w0)
        as (result & w1 & Hc & Hresult); rewrite Hc
  end. cbv beta iota delta [new_Date_toISOString].
  cbn [highlightedImagePath timestamp files clock with_console with_calls] in *.
  destruct result as [outputPath|]; [|exact Hresult].
  destruct Hresult as (Hpath & Hclock & Hfiles). rewrite Hclock. auto.
Qed.

(** X12.  [compareImages] writes at most one file, and its result tells
    whether it did: a thrown comparison and a result whose
    [highlightedImagePath] is [null] leave the files as they were, and a
    result with a path has written exactly that file, named after the second
    image and the time at which the rendering started. *)
Theorem comparison_path_iff_file_written (image1Path image2Path : string) (w : World) :
  match compareImages image1Path image2Path w with
  | (Thrown _, w') => files w' = files w
  | (Returned result, w') =>
      match highlightedImagePath result with
      | None => files w' = files w
      | Some outputPath =>
          outputPath = outputPath_at image2Path (clock w)
          /\ files w' !! outputPath <> None
          /\ forall path, path <> outputPath -> files w' !! path = files w !! path
      end
  end.
Proof.
  pose proof (compareImages_outcome image1Path image2Path w) as Hout.
  destruct (compareImages image1Path image2Path w) as [[result|error] w']; [|exact Hout].
  destruct (highlightedImagePath result) as [outputPath|]; [|exact Hout].
  destruct Hout as (Hpath & _ & rendered & ->). split; [exact Hpath|]. split.
  - rewrite lookup_insert_eq. discriminate.
  - intros path Hne. apply lookup_insert_ne. congruence.
Qed.

(** X13.  Once both blocks have been extracted as payloads in the shape of
    the contract ([extracts]: the parsed member is not [null]), no failure of
    the rendering makes the comparison fail: whether the image does not
    load, the directory cannot be created or the file cannot be written,
    [compareImages] returns the extracted dimensions and differences and the
    text of the service; a path in the result is the path of the rendered
    file, and the timestamp of the result is then read from the clock after
    the one in the file name. *)
Theorem comparison_survives_rendering_failure (image1Path image2Path content : string)
    (processedDimensions0 : ProcessedDimensionsPayload)
    (differencesObj : DifferencesPayload) (w : World) :
  prelude_ok image1Path image2Path content ->
  extracts JSON_parse_dimensions content "processed_dimensions" processedDimensions0 ->
  extracts JSON_parse_differences content "differences" differencesObj ->
  exists result w',
    compareImages image1Path image2Path w = (Returned result, w')
    /\ processedDimensions result = processedDimensions0
    /\ result_differences result = differencesObj
    /\ analysis result = content
    /\ (forall outputPath,
          highlightedImagePath result = Some outputPath ->
          outputPath = outputPath_at image2Path (clock w)
          /\ timestamp result = toISOString (S (clock w)))
    /\ (highlightedImagePath result = None -> files w' = files w).
Proof.
  intros Hpre Hdims Hdiffs.
  destruct (createHighlightedImage_outcome image2Path differencesObj
              (image2 (processed_dimensions processedDimensions0))
              (after_extraction image1Path image2Path processedDimensions0 differencesObj w))
    as (outputPath & w2 & Hrender & Hresult).
  eexists _, _. split.
  { exact (compareImages_returned _ _ _ _ _ _ _ _ Hpre Hdims Hdiffs Hrender). }
  cbn [processedDimensions result_differences analysis highlightedImagePath timestamp files].
  split; [reflexivity|]. split; [reflexivity|]. split; [reflexivity|]. split.
  - intros p [= ->]. destruct Hresult as (Hpath & Hclock & _).
    rewrite Hclock. split; [exact Hpath|reflexivity].
  - intros ->. exact Hresult.
Qed.

(** X21.  A block whose member is [null] is matched and parsed, and the
    comparison then fails on the property read: with
    [{ "differences": null }] the read of [differences.differences.length]
    throws the [TypeError] for [length]; with a [null] member of
    [processed_dimensions] and well-shaped differences the read of [image2]
    throws the one for [image2].  The error is logged by the [catch] block
    and rethrown; nothing is rendered or written. *)
Theorem null_member_stops_comparison (image1Path image2Path content : string)
    (dimensionsText differencesText : string)
    (dimensions : Parsed ProcessedDimensionsPayload)
    (differencesObj : Parsed DifferencesPayload) (w : World) :
  prelude_ok image1Path image2Path content ->
  regex_match "processed_dimensions" content = Some dimensionsText ->
  JSON_parse_dimensions dimensionsText = inr dimensions ->
  regex_match "differences" content = Some differencesText ->
  JSON_parse_differences differencesText = inr differencesObj ->
  differencesObj = NullMember \/ dimensions = NullMember ->
  exists property w',
    compareImages image1Path image2Path w
    = (Thrown (TypeError (null_read_message property)), w')
    /\ (property = "length" /\ differencesObj = NullMember
        \/ property = "image2" /\ dimensions = NullMember
           /\ differencesObj <> NullMember)
    /\ files w' = files w /\ dirs w' = dirs w /\ clock w' = clock w
    /\ calls w' = calls w ++ prelude_calls image1Path image2Path
    /\ last (console w')
       = Some (console_error_entry
                 [LogStr "❌ Error comparing images:";
                  LogError (TypeError (null_read_message property))]).
Proof.
  intros (Ha1 & Ha2 & b1 & b2 & Hr1 & Hr2 & Hmsg) Hm1 Hp1 Hm2 Hp2 Hnull.
  unfold compareImages, try_catch, Promise_all, access_or_error, messages_create,
    record_call, console_log, console_error, emit, throw.
  cbv beta iota delta [mbind M_bind mret M_ret].
  rewrite Ha1. cbv beta iota. rewrite Ha2. cbv beta iota.
  rewrite Hr1. cbv beta iota. rewrite Hr2. cbv beta iota delta [fst snd].
  rewrite Hmsg. cbv beta iota.
  fold (after_prelude image1Path image2Path w).
  rewrite (extractJsonObject_found _ _ _ _ _ _ Hm1 Hp1). cbv beta iota.
  rewrite (extractJsonObject_found _ _ _ _ _ _ Hm2 Hp2). cbv beta iota.
  unfold read_member, throw. cbv beta iota delta [mret M_ret].
  destruct differencesObj as [differences1|].
  - destruct Hnull as [Hnull|Hnull]; [discriminate|]. subst dimensions.
    exists "image2". eexists. split; [reflexivity|].
    split; [right; repeat split; discriminate|].
    cbn [files dirs clock calls console with_console with_calls].
    repeat split; [apply after_prelude_calls|apply last_snoc].
  - exists "length". eexists. split; [reflexivity|].
    split; [left; split; reflexivity|].
    cbn [files dirs clock calls console with_console with_calls].
    repeat split; [apply after_prelude_calls|apply last_snoc].
Qed.

End Outcome.

(** ** The handler of [POST /compare] *)

Section Handler.
Context `{Platform} (cannot_read_message : string).

(** X14.  The handler always answers and never throws.  It answers 200 only
    with the analysis, the differences and the public path ["/outputs/"]
    followed by the base name of a file that the comparison has written;
    every other answer has the status 500 and no file has been written.
    Stated for a [path.join] that, as Node's, never returns the empty
    string. *)
Theorem response_tells_written_file (req : Request) (w : World) :
  (forall a b, path_join a b <> "") ->
  match post_compare cannot_read_message req w with
  | (Returned response, w') =>
      match body response with
      | ComparisonBody _ _ publicPath =>
          status response = 200%nat
          /\ exists outputPath,
               publicPath = "/outputs/" +:+ path_basename outputPath
               /\ files w' !! outputPath <> None
               /\ forall path, path <> outputPath -> files w' !! path = files w !! path
      | _ => status response = 500%nat /\ files w' = files w
      end
  | (Thrown _, _) => False
  end.
Proof.
  intros Hjoin. unfold post_compare, try_catch, uploaded_path, throw, console_error, emit.
  cbv beta iota delta [mbind M_bind mret M_ret].
  destruct (upload_image1Path req) as [image1Path|]; [|split; reflexivity].
  destruct (upload_image2Path req) as [image2Path|]; [|split; reflexivity].
  pose proof (compareImages_outcome image1Path image2Path w) as Hout.
  destruct (compareImages image1Path image2Path w) as [[result|error] w'];
    [|split; [reflexivity|exact Hout]].
  destruct (highlightedImagePath result) as [outputPath|]; [|split; [reflexivity|exact Hout]].
  destruct Hout as (Hpath & _ & rendered & Hfiles).
  destruct outputPath as [|c outputPath].
  { exfalso. symmetry in Hpath. exact (Hjoin _ _ Hpath). }
  cbn [body status]. split; [reflexivity|].
  exists (String c outputPath). split; [reflexivity|]. rewrite Hfiles. split.
  - rewrite lookup_insert_eq. discriminate.
  - intros path Hne. apply lookup_insert_ne. congruence.
Qed.

(** X15.  A request that lacks one of the two uploads is answered 500 with
    the message of the [TypeError] raised by reading the path of the missing
    upload; the error is logged, and no platform call is made: no file is
    accessed or read and the inference service is not called. *)
Theorem missing_upload_answers_500 (req : Request) (w : World) :
  upload_image1Path req = None \/ upload_image2Path req = None ->
  post_compare cannot_read_message req w
  = (Returned {| status := 500; body := ErrorBody false cannot_read_message |},
     with_console
       [console_error_entry [LogStr "Error processing comparison:";
                             LogError (TypeError cannot_read_message)]] w).
Proof.
  intros Hmissing.
  unfold post_compare, try_catch, uploaded_path, throw, console_error, emit.
  cbv beta iota delta [mbind M_bind mret M_ret].
  destruct (upload_image1Path req) as [image1Path|]; [|reflexivity].
  destruct Hmissing as [Hmissing|Hmissing]; [discriminate|]. rewrite Hmissing. reflexivity.
Qed.

(** X16.  Two screenshots in which the service finds no difference are
    answered with the status 500 and the error "Failed to generate
    highlighted image", although the comparison has succeeded; the answer
    carries the analysis and the empty list of differences.  The same answer
    is given when the image cannot be loaded for rendering. *)
Theorem no_differences_answers_500 (image1Path image2Path content : string)
    (processedDimensions : ProcessedDimensionsPayload)
    (differencesObj : DifferencesPayload) (w : World) :
  prelude_ok image1Path image2Path content ->
  extracts JSON_parse_dimensions content "processed_dimensions" processedDimensions ->
  extracts JSON_parse_differences content "differences" differencesObj ->
  differences differencesObj = []
  \/ (exists error, loadImage_result image2Path = inl error) ->
  exists w',
    post_compare cannot_read_message
      {| upload_image1Path := Some image1Path; upload_image2Path := Some image2Path |} w
    = (Returned {| status := 500;
                   body := FailedBody "Failed to generate highlighted image"
                             content differencesObj |}, w')
    /\ files w' = files w.
Proof.
  intros Hpre Hdims Hdiffs Hcase.
  assert (Hrender : exists w2,
             createHighlightedImage image2Path differencesObj
               (image2 (processed_dimensions processedDimensions))
               (after_extraction image1Path image2Path processedDimensions differencesObj w)
             = (Returned None, w2) /\ files w2 = files w).
  { destruct (differences differencesObj) as [|d l] eqn:Hd.
    - eexists. split; [apply createHighlightedImage_empty, Hd|reflexivity].
    - destruct Hcase as [Hnil|[error Hload]]; [discriminate|].
      eexists. split; [apply createHighlightedImage_load_failure; [congruence|exact Hload]|].
      reflexivity. }
  destruct Hrender as (w2 & Hrender & Hfiles).
  unfold post_compare, try_catch, uploaded_path.
  cbv beta iota delta [mbind M_bind mret M_ret]. cbn [upload_image1Path upload_image2Path].
  rewrite (compareImages_returned _ _ _ _ _ _ _ _ Hpre Hdims Hdiffs Hrender).
  cbn [highlightedImagePath analysis result_differences].
  eexists. split; [reflexivity|]. exact Hfiles.
Qed.

(** X17.  When the comparison renders, the handler answers 200 with the text
    of the service as analysis, the extracted differences, and the public
    path ["/outputs/"] followed by the base name of the written file. *)
Theorem rendered_comparison_answers_200 (image1Path image2Path content : string)
    (processedDimensions : ProcessedDimensionsPayload)
    (differencesObj : DifferencesPayload) (image : Image) (w : World) :
  prelude_ok image1Path image2Path content ->
  extracts JSON_parse_dimensions content "processed_dimensions" processedDimensions ->
  extracts JSON_parse_differences content "differences" differencesObj ->
  differences differencesObj <> [] ->
  loadImage_result image2Path = inr image ->
  output_ok image2Path w ->
  outputPath_at image2Path (clock w) <> "" ->
  exists w',
    post_compare cannot_read_message
      {| upload_image1Path := Some image1Path; upload_image2Path := Some image2Path |} w
    = (Returned {| status := 200;
                   body := ComparisonBody content differencesObj
                             ("/outputs/" +:+
                              path_basename (outputPath_at image2Path (clock w))) |}, w')
    /\ files w' !! outputPath_at image2Path (clock w) <> None.
Proof.
  intros Hpre Hdims Hdiffs Hne Hload Hout Hpath.
  destruct (createHighlightedImage_renders image2Path differencesObj
              (image2 (processed_dimensions processedDimensions)) image
              (after_extraction image1Path image2Path processedDimensions differencesObj w)
              Hne Hload Hout) as (rendered & w2 & Hrender & Hfiles & _).
  change (clock (after_extraction image1Path image2Path processedDimensions
                   differencesObj w)) with (clock w) in Hrender, Hfiles.
  unfold post_compare, try_catch, uploaded_path.
  cbv beta iota delta [mbind M_bind mret M_ret]. cbn [upload_image1Path upload_image2Path].
  rewrite (compareImages_returned _ _ _ _ _ _ _ _ Hpre Hdims Hdiffs Hrender).
  cbn [highlightedImagePath analysis result_differences].
  destruct (outputPath_at image2Path (clock w)) as [|c p] eqn:Hp; [congruence|].
  eexists. split; [reflexivity|]. cbn [files]. rewrite Hfiles, lookup_insert_eq. discriminate.
Qed.

End Handler.

Lemma response_tells_written_file_witness :
  match @post_compare demo_platform "Cannot read properties of undefined (reading '0')"
          {| upload_image1Path := Some "uploads/1.png";
             upload_image2Path := Some "uploads/2.png" |} empty_world with
  | (Returned response, w') =>
      match body response with
      | ComparisonBody _ _ publicPath =>
          status response = 200%nat
          /\ exists outputPath,
               publicPath = "/outputs/" +:+ @path_basename demo_platform outputPath
               /\ files w' !! outputPath <> None
               /\ forall path, path <> outputPath ->
                               files w' !! path = files empty_world !! path
      | _ => status response = 500%nat /\ files w' = files empty_world
      end
  | (Thrown _, _) => False
  end.
Proof.
  apply (@response_tells_written_file demo_platform
           "Cannot read properties of undefined (reading '0')"
           {| upload_image1Path := Some "uploads/1.png";
              upload_image2Path := Some "uploads/2.png" |} empty_world).
  intros a b. destruct a; discriminate.
Defined.

Lemma missing_upload_answers_500_witness :
  @post_compare demo_platform "Cannot read properties of undefined (reading '0')"
    {| upload_image1Path := Some "uploads/1.png"; upload_image2Path := None |} empty_world
  = (Returned {| status := 500;
                 body := ErrorBody false
                           "Cannot read properties of undefined (reading '0')" |},
     with_console
       [console_error_entry
          [LogStr "Error processing comparison:";
           LogError (TypeError "Cannot read properties of undefined (reading '0')")]]
       empty_world).
Proof.
  apply (@missing_upload_answers_500 demo_platform
           "Cannot read properties of undefined (reading '0')"
           {| upload_image1Path := Some "uploads/1.png"; upload_image2Path := None |}
           empty_world).
  right. reflexivity.
Defined.

Lemma no_differences_answers_500_witness :
  exists w',
    @post_compare (demo_platform_answering no_differences_response)
      "Cannot read properties of undefined (reading '0')"
      {| upload_image1Path := Some "uploads/1.png";
         upload_image2Path := Some "uploads/2.png" |} empty_world
    = (Returned {| status := 500;
                   body := FailedBody "Failed to generate highlighted image"
                             no_differences_response {| differences := [] |} |}, w')
    /\ files w' = files empty_world.
Proof.
  apply (@no_differences_answers_500 (demo_platform_answering no_differences_response)
           "Cannot read properties of undefined (reading '0')"
           "uploads/1.png" "uploads/2.png" no_differences_response
           scenario_dimensions {| differences := [] |} empty_world).
  - split; [reflexivity|]. split; [reflexivity|].
    exists "uploads/1.png", "uploads/2.png". repeat split; reflexivity.
  - exists dimensions_text. split; vm_compute; reflexivity.
  - exists empty_differences_text. split; vm_compute; reflexivity.
  - left. reflexivity.
Defined.

Lemma rendered_comparison_answers_200_witness :
  exists w',
    @post_compare demo_platform "Cannot read properties of undefined (reading '0')"
      {| upload_image1Path := Some "uploads/1.png";
         upload_image2Path := Some "uploads/2.png" |} empty_world
    = (Returned {| status := 200;
                   body := ComparisonBody scenario_response scenario_differences
                             ("/outputs/" +:+
                              @path_basename demo_platform
                                (@outputPath_at demo_platform "uploads/2.png"
                                   (clock empty_world))) |}, w')
    /\ files w' !! @outputPath_at demo_platform "uploads/2.png" (clock empty_world) <> None.
Proof.
  apply (@rendered_comparison_answers_200 demo_platform
           "Cannot read properties of undefined (reading '0')"
           "uploads/1.png" "uploads/2.png" scenario_response
           scenario_dimensions scenario_differences scenario_image empty_world).
  - split; [reflexivity|]. split; [reflexivity|].
    exists "uploads/1.png", "uploads/2.png". repeat split; reflexivity.
  - exists dimensions_text. split; vm_compute; reflexivity.
  - exists differences_text. split; vm_compute; reflexivity.
  - discriminate.
  - reflexivity.
  - split; [right; reflexivity | reflexivity].
  - vm_compute. discriminate.
Defined.

Lemma comparison_survives_rendering_failure_witness :
  exists result w',
    @compareImages demo_platform_read_only "uploads/1.png" "uploads/2.png" empty_world
    = (Returned result, w')
    /\ processedDimensions result = scenario_dimensions
    /\ result_differences result = scenario_differences
    /\ analysis result = scenario_response
    /\ (forall outputPath,
          highlightedImagePath result = Some outputPath ->
          outputPath = @outputPath_at demo_platform_read_only "uploads/2.png"
                         (clock empty_world)
          /\ timestamp result = @toISOString demo_platform_read_only (S (clock empty_world)))
    /\ (highlightedImagePath result = None -> files w' = files empty_world).
Proof.
  apply (@comparison_survives_rendering_failure demo_platform_read_only
           "uploads/1.png" "uploads/2.png" scenario_response
           scenario_dimensions scenario_differences empty_world).
  - split; [reflexivity|]. split; [reflexivity|].
    exists "uploads/1.png", "uploads/2.png". repeat split; reflexivity.
  - exists dimensions_text. split; vm_compute; reflexivity.
  - exists differences_text. split; vm_compute; reflexivity.
Defined.

Lemma null_member_stops_comparison_witness :
  exists w',
    @compareImages (demo_platform_answering null_differences_response)
      "uploads/1.png" "uploads/2.png" empty_world
    = (Thrown (TypeError "Cannot read properties of null (reading 'length')"), w')
    /\ files w' = files empty_world /\ dirs w' = dirs empty_world
    /\ calls w' = calls empty_world ++ prelude_calls "uploads/1.png" "uploads/2.png".
Proof.
  destruct (@null_member_stops_comparison
              (demo_platform_answering null_differences_response)
              "uploads/1.png" "uploads/2.png" null_differences_response
              dimensions_text null_differences_text
              (Shaped scenario_dimensions) NullMember empty_world)
    as (property & w' & Hrun & [[Hproperty _]|(_ & Hdims & _)] & Hfiles & Hdirs & _ & Hcalls & _).
  - split; [reflexivity|]. split; [reflexivity|].
    exists "uploads/1.png", "uploads/2.png". repeat split; reflexivity.
  - vm_compute. reflexivity.
  - vm_compute. reflexivity.
  - vm_compute. reflexivity.
  - vm_compute. reflexivity.
  - left. reflexivity.
  - subst property. exists w'. repeat split; assumption.
  - discriminate Hdims.
Defined.

(** ** The initialization of the database *)

Section DbInit.
Context `{Database}.

Lemma statements_sent_prefix (l : list Statement) : statements_sent l `prefix_of` l.
Proof.
  induction l as [|s l IH]; [reflexivity|]. cbn [statements_sent].
  destruct (client_query_error s).
  - exists l. reflexivity.
  - apply prefix_cons, IH.
Qed.

Lemma initDatabase_connected (w : DbWorld) :
  pool_connect_error = None ->
  initDatabase w
  = (Returned tt,
     {| db_console := db_console w ++ [initDatabase_entry];
        sent := sent w ++ statements_sent schema;
        acquired := S (acquired w);
        released := S (released w) |}).
Proof.
  intros Hconnect.
  unfold initDatabase, initDatabase_entry, pool_connect, db_try_finally, db_try_catch,
    client_query, client_release, db_emit, schema.
  cbv beta iota delta [mbind D_bind]. rewrite Hconnect.
  cbn [first_error statements_sent db_console sent acquired released].
  destruct (client_query_error CreateImagesTable); [reflexivity|].
  destruct (client_query_error CreateComparisonsTable);
    cbn [db_console sent acquired released]; rewrite <- ?app_assoc; [reflexivity|].
  destruct (client_query_error CreateDifferencesTable);
    cbn [db_console sent acquired released]; rewrite <- ?app_assoc; [reflexivity|].
  destruct (client_query_error CreateIndexes);
    cbn [db_console sent acquired released]; rewrite <- ?app_assoc; reflexivity.
Qed.

(** X18.  Once the pool has handed out a client, [initDatabase] never throws
    and releases the client exactly once, whatever the statements do: the
    statements reach the database in the order of the source up to and
    including the first one that fails, the later ones are not sent, and the
    error is only written to the console. *)
Theorem initDatabase_swallows_errors (w : DbWorld) :
  pool_connect_error = None ->
  exists w',
    initDatabase w = (Returned tt, w')
    /\ acquired w' = S (acquired w)
    /\ released w' = S (released w)
    /\ sent w' = sent w ++ statements_sent schema
    /\ statements_sent schema `prefix_of` schema
    /\ (forall statement, statement ∈ statements_sent schema ->
          client_query_error statement <> None ->
          last (statements_sent schema) = Some statement)
    /\ db_console w'
       = db_console w
         ++ [match first_error schema with
             | Some error =>
                 console_error_entry [LogStr "❌ Error initializing database:";
                                      LogError error]
             | None => console_log_entry [LogStr "✅ Database tables initialized"]
             end].
Proof.
  intros Hconnect. eexists. split; [apply initDatabase_connected, Hconnect|].
  cbn [acquired released sent db_console].
  split; [reflexivity|]. split; [reflexivity|]. split; [reflexivity|].
  split; [apply statements_sent_prefix|]. split; [|reflexivity].
  intros statement Hin Herr. unfold schema in *. cbn [statements_sent] in *.
  destruct (client_query_error CreateImagesTable) eqn:H1.
  { apply list_elem_of_singleton in Hin. subst. reflexivity. }
  destruct (client_query_error CreateComparisonsTable) eqn:H2.
  { apply elem_of_cons in Hin. destruct Hin as [->|Hin]; [congruence|].
    apply list_elem_of_singleton in Hin. subst. reflexivity. }
  destruct (client_query_error CreateDifferencesTable) eqn:H3.
  { apply elem_of_cons in Hin. destruct Hin as [->|Hin]; [congruence|].
    apply elem_of_cons in Hin. destruct Hin as [->|Hin]; [congruence|].
    apply list_elem_of_singleton in Hin. subst. reflexivity. }
  apply elem_of_cons in Hin. destruct Hin as [->|Hin]; [congruence|].
  apply elem_of_cons in Hin. destruct Hin as [->|Hin]; [congruence|].
  apply elem_of_cons in Hin. destruct Hin as [->|Hin]; [congruence|].
  destruct (client_query_error CreateIndexes) eqn:H4;
    apply list_elem_of_singleton in Hin; subst; reflexivity.
Qed.

(** X19.  At startup the line "Database initialized & Tables Created
    Successfully" is written whenever the pool hands out a client, also when
    a statement has failed: the console then holds the error of
    [initDatabase] directly followed by the success line.  The handler of
    [catch] does not run. *)
Theorem startup_reports_success_after_failure (error : JsError) (w : DbWorld) :
  pool_connect_error = None ->
  first_error schema = Some error ->
  exists w',
    initialize_database_at_startup w = (Returned tt, w')
    /\ db_console w'
       = db_console w
         ++ [console_error_entry [LogStr "❌ Error initializing database:"; LogError error];
             console_log_entry [LogStr "Database initialized & Tables Created Successfully"]]
    /\ (length (sent w') <= length (sent w) + 4)%nat
    /\ released w' = S (released w).
Proof.
  intros Hconnect Herr. unfold initialize_database_at_startup, db_try_catch.
  cbv beta iota delta [mbind D_bind]. rewrite (initDatabase_connected w Hconnect).
  unfold db_emit, initDatabase_entry. rewrite Herr.
  eexists. split; [reflexivity|]. cbn [db_console sent released].
  rewrite <- app_assoc. split; [reflexivity|]. split; [|reflexivity].
  rewrite length_app. pose proof (prefix_length _ _ (statements_sent_prefix schema)) as Hlen.
  cbn [schema length] in Hlen. lia.
Qed.

(** X20.  When the pool hands out no client, [initDatabase] throws the error
    of [pool.connect] before its [try] block: no statement is sent, nothing
    is released and nothing is logged by [initDatabase]; at startup the
    error is caught and written to the console and the success line is not
    written. *)
Theorem connection_failure_is_reported (error : JsError) (w : DbWorld) :
  pool_connect_error = Some error ->
  initDatabase w = (Thrown error, w)
  /\ exists w',
       initialize_database_at_startup w = (Returned tt, w')
       /\ db_console w'
          = db_console w
            ++ [console_error_entry [LogStr "Database initialization error:";
                                     LogError error]]
       /\ sent w' = sent w /\ acquired w' = acquired w /\ released w' = released w.
Proof.
  intros Hconnect.
  assert (Hinit : initDatabase w = (Thrown error, w)).
  { unfold initDatabase, pool_connect. cbv beta iota delta [mbind D_bind].
    rewrite Hconnect. reflexivity. }
  split; [exact Hinit|].
  unfold initialize_database_at_startup, db_try_catch.
  cbv beta iota delta [mbind D_bind]. rewrite Hinit.
  eexists. split; [reflexivity|]. repeat split; reflexivity.
Qed.

End DbInit.

Lemma initDatabase_swallows_errors_witness :
  exists w',
    @initDatabase demo_database_failing empty_db_world = (Returned tt, w')
    /\ acquired w' = 1%nat
    /\ released w' = 1%nat
    /\ sent w' = [CreateImagesTable; CreateComparisonsTable].
Proof.
  destruct (@initDatabase_swallows_errors demo_database_failing empty_db_world)
    as (w' & Hrun & Hacq & Hrel & Hsent & _).
  - reflexivity.
  - exists w'. repeat split; assumption.
Defined.

Lemma startup_reports_success_after_failure_witness :
  exists w',
    @initialize_database_at_startup demo_database_failing empty_db_world = (Returned tt, w')
    /\ db_console w'
       = [console_error_entry [LogStr "❌ Error initializing database:";
                               LogError (Error "permission denied for schema public")];
          console_log_entry [LogStr "Database initialized & Tables Created Successfully"]].
Proof.
  destruct (@startup_reports_success_after_failure demo_database_failing
              (Error "permission denied for schema public") empty_db_world)
    as (w' & Hrun & Hconsole & _).
  - reflexivity.
  - reflexivity.
  - exists w'. split; assumption.
Defined.

Lemma connection_failure_is_reported_witness :
  @initDatabase demo_database_unreachable empty_db_world
  = (Thrown (Error "connect ECONNREFUSED 127.0.0.1:5432"), empty_db_world)
  /\ exists w',
       @initialize_database_at_startup demo_database_unreachable empty_db_world
       = (Returned tt, w')
       /\ db_console w'
          = [] ++ [console_error_entry
                     [LogStr "Database initialization error:";
                      LogError (Error "connect ECONNREFUSED 127.0.0.1:5432")]]
       /\ sent w' = [] /\ acquired w' = 0%nat /\ released w' = 0%nat.
Proof.
  apply (@connection_failure_is_reported demo_database_unreachable
           (Error "connect ECONNREFUSED 127.0.0.1:5432") empty_db_world).
  reflexivity.
Defined.

(** ** The styles of the rectangles *)

Lemma inherited_not_own (type : string) :
  type ∈ Object_prototype_keys -> colorSchemes !! type = None.
Proof.
  assert (Hall : Forall (fun key => colorSchemes !! key = None) Object_prototype_keys).
  { unfold Object_prototype_keys. repeat constructor; vm_compute; reflexivity. }
  intros Hin. exact (proj1 (Forall_forall _ _) Hall type Hin).
Qed.

(** The pass for the record after [earlier] starts with the styles left by
    the last pass that drew, or with the styles of before the loop. *)
Lemma loop_ops_middle `{Platform} (image : Image) (scaleX scaleY : num)
    (diff : RawDifference) (later : list RawDifference) (earlier : list RawDifference) :
  forall (strokeStyle0 fillStyle0 : string) (index : nat),
  exists ops_before ops_after,
    loop_ops image scaleX scaleY strokeStyle0 fillStyle0 index (earlier ++ diff :: later)
    = ops_before
      ++ highlight_ops image scaleX scaleY
           (if existsb has_area earlier then "black" else strokeStyle0)
           (if existsb has_area earlier then "white" else fillStyle0)
           (index + length earlier) diff
      ++ ops_after.
Proof.
  induction earlier as [|d earlier IH]; intros strokeStyle0 fillStyle0 index.
  - exists [], (match highlight_area diff with
                | Some _ => loop_ops image scaleX scaleY "black" "white" (S index) later
                | None => loop_ops image scaleX scaleY strokeStyle0 fillStyle0 (S index) later
                end).
    cbn [app loop_ops existsb length]. rewrite Nat.add_0_r. reflexivity.
  - cbn [app loop_ops existsb length]. unfold has_area at 1 3.
    destruct (highlight_area d) as [area|] eqn:Ha; cbn [orb].
    + destruct (IH "black" "white" (S index)) as (ops_before & ops_after & ->).
      eexists (_ ++ ops_before), ops_after. rewrite <- app_assoc, Nat.add_succ_r.
      destruct (existsb has_area earlier); reflexivity.
    + destruct (IH strokeStyle0 fillStyle0 (S index)) as (ops_before & ops_after & ->).
      eexists (_ ++ ops_before), ops_after. rewrite <- app_assoc, Nat.add_succ_r.
      reflexivity.
Qed.

(** X22.  In a rendering, the rectangle of a record with a highlight area is
    stroked and filled with the colours of the scheme stored under its type;
    with the red default scheme when the type is no key at all; and, when the
    type is a name that every object inherits ([constructor], [toString],
    ...), with the styles the context happens to have: black and white after
    an earlier record was drawn, and otherwise the initial stroke style of
    the canvas and the black of the legend text. *)
Theorem rectangle_styles_by_type `{Platform} (imagePath : string)
    (earlier later : list RawDifference) (diff : RawDifference) (area : Box)
    (processedDims : Dimensions) (image : Image) (w : World) :
  highlight_area diff = Some area ->
  loadImage_result imagePath = inr image ->
  output_ok imagePath w ->
  let b := scaleBox image (num_div (image_width image) (width processedDims))
             (num_div (image_height image) (height processedDims)) area in
  exists strokeStyle fillStyle rendered w',
    createHighlightedImage imagePath {| differences := earlier ++ diff :: later |}
      processedDims w
    = (Returned (Some (outputPath_at imagePath (clock w))), w')
    /\ files w' !! outputPath_at imagePath (clock w) = Some rendered
    /\ OpStrokeRect strokeStyle (num_of_Z 3)
         (scaledX1 b) (scaledY1 b) (box_width b) (box_height b) ∈ ops rendered
    /\ OpFillRect fillStyle
         (scaledX1 b) (scaledY1 b) (box_width b) (box_height b) ∈ ops rendered
    /\ (forall colorScheme,
          colorSchemes !! type diff = Some colorScheme ->
          strokeStyle = stroke colorScheme /\ fillStyle = fill colorScheme)
    /\ (type diff ∈ Object_prototype_keys ->
        strokeStyle = (if existsb has_area earlier then "black" else "#000000")
        /\ fillStyle = (if existsb has_area earlier then "white" else "black"))
    /\ (colorSchemes !! type diff = None ->
        type diff ∉ Object_prototype_keys ->
        strokeStyle = "rgba(255, 0, 0, 0.8)" /\ fillStyle = "rgba(255, 0, 0, 0.3)").
Proof.
  intros Harea Hload Hout b.
  destruct (createHighlightedImage_renders imagePath
              {| differences := earlier ++ diff :: later |} processedDims image w)
    as (rendered & w' & Hrun & Hfiles & _ & _ & Hops);
    [cbn [differences]; destruct earlier; discriminate|assumption|assumption|].
  cbn [differences] in Hops.
  destruct (loop_ops_middle image
              (num_div (image_width image) (width processedDims))
              (num_div (image_height image) (height processedDims))
              diff later earlier "#000000" "black" 0%nat)
    as (ops_before & ops_after & Hloop).
  rewrite Hloop in Hops. unfold highlight_ops in Hops. rewrite Harea in Hops.
  fold b in Hops.
  eexists _, _, rendered, w'. split; [exact Hrun|]. split.
  { rewrite Hfiles. apply lookup_insert_eq. }
  split.
  { rewrite Hops. apply elem_of_app. right. apply elem_of_app. right.
    apply elem_of_app. left. apply list_elem_of_here. }
  split.
  { rewrite Hops. apply elem_of_app. right. apply elem_of_app. right.
    apply elem_of_app. left. apply list_elem_of_further, list_elem_of_here. }
  unfold select_colorScheme. split; [|split].
  - intros colorScheme ->. split; reflexivity.
  - intros Hin. rewrite (inherited_not_own _ Hin).
    rewrite bool_decide_eq_true_2 by exact Hin. split; reflexivity.
  - intros -> Hnot. rewrite bool_decide_eq_false_2 by exact Hnot. split; reflexivity.
Qed.

Lemma rectangle_styles_by_type_witness :
  exists rendered w',
    @createHighlightedImage demo_platform "uploads/2.png"
      {| differences := [scenario_difference; inherited_type_difference] |}
      {| width := num_of_Z 400; height := num_of_Z 300 |} empty_world
    = (Returned (Some (@outputPath_at demo_platform "uploads/2.png" 0)), w')
    /\ files w' !! @outputPath_at demo_platform "uploads/2.png" 0 = Some rendered
    /\ OpStrokeRect "black" (num_of_Z 3)
         (num_of_Z 20) (num_of_Z 40) (num_of_Z 40) (num_of_Z 40) ∈ ops rendered
    /\ OpFillRect "white"
         (num_of_Z 20) (num_of_Z 40) (num_of_Z 40) (num_of_Z 40) ∈ ops rendered.
Proof.
  destruct (@rectangle_styles_by_type demo_platform "uploads/2.png"
              [scenario_difference] [] inherited_type_difference
              {| x1 := num_of_Z 10; y1 := num_of_Z 20; x2 := num_of_Z 30; y2 := num_of_Z 40 |}
              {| width := num_of_Z 400; height := num_of_Z 300 |} scenario_image empty_world)
    as (strokeStyle & fillStyle & rendered & w' & Hrun & Hfile & Hstroke & Hfill
        & _ & Hinherited & _).
  - reflexivity.
  - reflexivity.
  - split; [right; reflexivity | reflexivity].
  - destruct Hinherited as [-> ->].
    { unfold Object_prototype_keys. apply list_elem_of_here. }
    exists rendered, w'. split; [exact Hrun|]. split; [exact Hfile|].
    split; [exact Hstroke | exact Hfill].
Defined.
